(** * Flux backend: renderer orchestration, code generation checks,
    tool detection and the job table, embedded in Rocq.

    Each module below embeds one source file of the repository:
    - [JsString], [Regex]: the JavaScript string and RegExp operations the
      sources call ([trim], [startsWith], [includes], [test], [replace]);
    - [Codegen]: utils/codegenValidator.js and the two codegenService.js;
    - [Detect]: utils/detectManim.js and the two detectChrome.js;
    - [Manim]: services/manimRenderer.js over a tree model of the media
      directory;
    - [P5]: services/p5Renderer.js as a trace of browser and encoder calls;
    - [Server]: the job table and the log stream of index.js as steps of
      the event loop.
    - [MediaTree]: the listings of the media directory that the two
      walks of the Manim renderer read;
    - [Js], [HealthCheck], [Health]: services/healthCheck.js with
      utils/detectTeX.js, and the health endpoints of api.js and index.js;
    - [Api]: the handler of 'generate-video' of api.js;
    - [TestManim]: [dedent] of services/testManim.js.
    The theorems follow the definitions. *)

From Stdlib Require Import ZArith QArith Qround.
From Equations Require Import Equations.
From stdpp Require Import gmap strings list pretty.

Local Open Scope Z_scope.
Set Warnings "-register-all".

(** A JavaScript call either returns a value or throws an [Error] whose
    [message] is kept. *)
Inductive result (A : Type) : Type :=
  | Ok (a : A)
  | Throw (msg : string).
Arguments Ok {A} a.
Arguments Throw {A} msg.

(** How the promise of a renderer is settled. *)
Inductive outcome :=
  | Resolve (videoPath : string)
  | Reject (msg : string).

(* ================================================================= *)
(** ** JavaScript strings *)

Module JsString.

(** The text returned by the generation API is a JavaScript string: a
    sequence of UTF-16 code units, kept as numbers. *)
Definition jsstring := list N.

(** A literal of the source (ASCII) as code units. *)
Definition lit (s : string) : jsstring :=
  map Ascii.N_of_ascii (String.list_ascii_of_string s).

(** [\s] of RegExp and the characters removed by [String.prototype.trim]:
    WhiteSpace and LineTerminator of ECMAScript. *)
Definition isWhiteSpace (c : N) : bool :=
  ((9 <=? c) && (c <=? 13) || (c =? 32) || (c =? 160) || (c =? 5760)
   || (8192 <=? c) && (c <=? 8202) || (c =? 8232) || (c =? 8233)
   || (c =? 8239) || (c =? 8287) || (c =? 12288) || (c =? 65279))%N.

(** [\w] of RegExp: [A-Za-z0-9_]. *)
Definition isWordChar (c : N) : bool :=
  ((65 <=? c) && (c <=? 90) || (97 <=? c) && (c <=? 122)
   || (48 <=? c) && (c <=? 57) || (c =? 95))%N.

Fixpoint trimStart (s : jsstring) : jsstring :=
  match s with
  | c :: s' => if isWhiteSpace c then trimStart s' else s
  | [] => []
  end.

Definition trimEnd (s : jsstring) : jsstring :=
  rev (trimStart (rev s)).

Definition trim (s : jsstring) : jsstring := trimEnd (trimStart s).

(** [stripPrefix p s] is the rest of [s] after the prefix [p], if [s]
    starts with [p]. *)
Fixpoint stripPrefix (p s : jsstring) : option jsstring :=
  match p, s with
  | [], _ => Some s
  | a :: p', b :: s' => if (a =? b)%N then stripPrefix p' s' else None
  | _ :: _, [] => None
  end.

Definition startsWith (s p : jsstring) : bool :=
  match stripPrefix p s with Some _ => true | None => false end.

Fixpoint includes (s p : jsstring) : bool :=
  startsWith s p ||
  match s with
  | [] => false
  | _ :: s' => includes s' p
  end.

(** Names, paths and messages are kept as Rocq strings, one character
    per code unit; [units] and [of_units] go to code units and back. *)
Definition units (s : string) : jsstring := lit s.

Definition of_units (s : jsstring) : string :=
  String.string_of_list_ascii (map Ascii.ascii_of_N s).

Definition str_includes (s p : string) : bool := includes (units s) (units p).

Definition str_trim (s : string) : string := of_units (trim (units s)).

(** [toLowerCase] on the letters A to Z. *)
Definition lowerUnit (c : N) : N :=
  if ((65 <=? c) && (c <=? 90))%N then (c + 32)%N else c.

Definition str_includes_nocase (s p : string) : bool :=
  includes (map lowerUnit (units s)) (units p).

(** [s.split(sep)] for a one-character separator. *)
Fixpoint split_on (sep : Ascii.ascii) (s : string) : list string :=
  match s with
  | EmptyString => [EmptyString]
  | String c s' =>
      if Ascii.eqb c sep then EmptyString :: split_on sep s'
      else match split_on sep s' with
           | piece :: pieces => String c piece :: pieces
           | [] => [String c EmptyString]
           end
  end.

(** [pieces.join(sep)] *)
Fixpoint join (sep : string) (pieces : list string) : string :=
  match pieces with
  | [] => EmptyString
  | [piece] => piece
  | piece :: rest => piece +:+ sep +:+ join sep rest
  end.

End JsString.

(* ================================================================= *)
(** ** The regular expressions of the sources *)

Module Regex.
Import JsString.

(** Character classes: [\s], [\w] and [.] (anything but a line
    terminator). *)
Inductive cls := Space | Word | Dot.

Definition isLineTerminator (c : N) : bool :=
  ((c =? 10) || (c =? 13) || (c =? 8232) || (c =? 8233))%N.

Definition inCls (c : cls) : N → bool :=
  match c with
  | Space => isWhiteSpace
  | Word => isWordChar
  | Dot => λ x, negb (isLineTerminator x)
  end.

(** The pieces the patterns of the repository are made of: a literal,
    [c*] and [c+] for a character class [c], both greedy. *)
Inductive atom :=
  | Lit (s : string)
  | Many (c : cls)
  | Many1 (c : cls).

(** [source] is what [`${pattern}`] prints. *)
Record regexp := RegExp {
  source : string;
  anchorStart : bool;     (* the pattern begins with ^ *)
  atoms : list atom;
  anchorEnd : bool        (* the pattern ends with $ (no m flag) *)
}.

(** Greedy repetition with backtracking: take one more character of the
    class when the rest can still match, give it back otherwise. *)
Fixpoint star (p : N → bool) (k : jsstring → option jsstring)
    (s : jsstring) : option jsstring :=
  match s with
  | c :: s' =>
      if p c then
        match star p k s' with
        | Some rest => Some rest
        | None => k s
        end
      else k s
  | [] => k []
  end.

(** [matchHere r atEnd s]: the pattern matches at the start of [s]; the
    result is the text after the match. *)
Fixpoint matchHere (r : list atom) (atEnd : bool) : jsstring → option jsstring :=
  match r with
  | [] => λ s,
      if atEnd then match s with [] => Some [] | _ :: _ => None end
      else Some s
  | Lit l :: r' => λ s,
      match stripPrefix (lit l) s with
      | Some s' => matchHere r' atEnd s'
      | None => None
      end
  | Many c :: r' => star (inCls c) (matchHere r' atEnd)
  | Many1 c :: r' => λ s,
      match s with
      | x :: s' =>
          if inCls c x then star (inCls c) (matchHere r' atEnd) s' else None
      | [] => None
      end
  end.

(** The leftmost match: [(before, after)]. *)
Fixpoint search (r : list atom) (atEnd : bool) (s : jsstring)
    : option (jsstring * jsstring) :=
  match matchHere r atEnd s with
  | Some rest => Some ([], rest)
  | None =>
      match s with
      | [] => None
      | c :: s' =>
          match search r atEnd s' with
          | Some (before, after) => Some (c :: before, after)
          | None => None
          end
      end
  end.

Definition exec (re : regexp) (s : jsstring) : option (jsstring * jsstring) :=
  if anchorStart re then
    match matchHere (atoms re) (anchorEnd re) s with
    | Some rest => Some ([], rest)
    | None => None
    end
  else search (atoms re) (anchorEnd re) s.

(** [pattern.test(s)] *)
Definition test (re : regexp) (s : jsstring) : bool :=
  match exec re s with Some _ => true | None => false end.

(** [s.replace(pattern, '')] for a pattern without the g flag. *)
Definition replace_empty (re : regexp) (s : jsstring) : jsstring :=
  match exec re s with
  | Some (before, after) => before ++ after
  | None => s
  end.

End Regex.

(* ================================================================= *)
(** ** Code generation: codegenValidator.js and codegenService.js *)

Module Codegen.
Import JsString Regex.

(** utils/codegenValidator.js *)
Definition bannedPatterns : list regexp :=
  [ RegExp "/Axes\s*\(/" false [Lit "Axes"; Many Space; Lit "("] false;
    RegExp "/Surface\s*\(/" false [Lit "Surface"; Many Space; Lit "("] false;
    RegExp "/ParametricFunction\s*\(/" false
      [Lit "ParametricFunction"; Many Space; Lit "("] false;
    RegExp "/np\.math/" false [Lit "np.math"] false;
    RegExp "/set_shade_in_scene/" false [Lit "set_shade_in_scene"] false;
    RegExp "/MathTex\s*\(/" false [Lit "MathTex"; Many Space; Lit "("] false;
    RegExp "/Tex\s*\(/" false [Lit "Tex"; Many Space; Lit "("] false;
    RegExp "/import\s+np/" false [Lit "import"; Many1 Space; Lit "np"] false;
    RegExp "/import\s+numpy/" false [Lit "import"; Many1 Space; Lit "numpy"] false ].

(** The [for ... of] loop of [validateManimCode] over a list of
    patterns: the first pattern that matches throws. *)
Fixpoint validateAgainst (patterns : list regexp) (code : jsstring) : result unit :=
  match patterns with
  | [] => Ok tt
  | pattern :: rest =>
      if test pattern code then
        Throw ("Generated Manim code contains prohibited construct: "
               +:+ source pattern)
      else validateAgainst rest code
  end.

Definition validateManimCode (code : jsstring) : result unit :=
  validateAgainst bannedPatterns code.

(** [cleanCode]: [(?:\w+)?] followed only by [\s*] takes the longest run
    of word characters, as [\w*] does. *)
Definition openingFence : regexp :=
  RegExp "/^```(?:\w+)?\s*/" true [Lit "```"; Many Word; Many Space] false.
Definition closingFence : regexp :=
  RegExp "/\s*```$/" false [Many Space; Lit "```"] true.

Definition cleanCode (raw : jsstring) : jsstring :=
  replace_empty closingFence (replace_empty openingFence (trim raw)).

Definition validateGeneratedCode (code : jsstring) (engine : string) : result unit :=
  let trimmed := trim code in
  if String.eqb engine "p5" && negb (startsWith trimmed (lit "function setup()")) then
    Throw "Invalid p5.js generation: must start with 'function setup()'"
  else if String.eqb engine "manim"
          && negb (includes trimmed (lit "class GeneratedScene")) then
    Throw "Invalid Manim generation: must contain 'class GeneratedScene'"
  else Ok tt.

(** What the remote text-generation call does: it rejects, or it
    resolves with a response whose [text] may be undefined. *)
Inductive api_response :=
  | Responds (text : option jsstring)
  | Rejects (msg : string).

(** The two system prompts are long constants of manimPrompts.js and
    p5Prompts.js; the functions take them as parameters. *)
Record prompts := Prompts {
  p5SystemPrompt : string;
  manimSystemPrompt : string
}.

(** [raw.trim()] on an undefined [raw] is a TypeError. *)
Definition undefined_trim : string :=
  "Cannot read properties of undefined (reading 'trim')".

(** utils/codegenService.js: the prompt sent for an engine. *)
Definition contentsFor (P : prompts) (engine prompt : string) : option string :=
  if String.eqb engine "p5" then
    Some (p5SystemPrompt P +:+ "
" +:+ "Sketch description: " +:+ prompt)
  else if String.eqb engine "manim" then
    Some (manimSystemPrompt P +:+ "
" +:+ "Scene description: " +:+ prompt)
  else None.

(** [api model contents] stands for
    [ai.models.generateContent({ model, contents })]. *)
Definition generateCode (P : prompts) (api : string → string → api_response)
    (prompt engine : string) : result jsstring :=
  let model := "gemini-2.0-flash" in
  match contentsFor P engine prompt with
  | None => Throw "Invalid engine in generateCode"
  | Some contents =>
      match api model contents with
      | Rejects msg => Throw msg
      | Responds None => Throw undefined_trim
      | Responds (Some raw) =>
          let cleaned := cleanCode raw in
          match (if String.eqb engine "manim" then validateManimCode cleaned
                 else Ok tt) with
          | Throw msg => Throw msg
          | Ok _ =>
              match validateGeneratedCode cleaned engine with
              | Throw msg => Throw msg
              | Ok _ => Ok cleaned
              end
          end
      end
  end.

(** services/codegenService.js, the earlier service: chat messages
    instead of one prompt, and no scan for banned constructs.
    [api model messages] stands for [ai.generateContent({ model, messages })]
    followed by [res.text()]. *)
Definition generateCode_services
    (api : string → list (string * string) → api_response)
    (prompt engine : string) : result jsstring :=
  let request :=
    if String.eqb engine "p5" then
      Some ("gemini-2.5-pro",
            [("system", "Generate valid p5.js JavaScript. Start with function setup(). No explanations, comments, or markdown.");
             ("user", "p5.js sketch: " +:+ prompt)])
    else if String.eqb engine "manim" then
      Some ("gemini-2.5-pro",
            [("system", "Generate Python with class GeneratedScene extends Scene. No explanations, comments, or markdown.");
             ("user", "Manim scene: " +:+ prompt)])
    else None in
  match request with
  | None => Throw "Invalid engine in generateCode"
  | Some (model, messages) =>
      match api model messages with
      | Rejects msg => Throw msg
      | Responds None => Throw undefined_trim
      | Responds (Some raw) =>
          let cleaned := cleanCode raw in
          match validateGeneratedCode cleaned engine with
          | Throw msg => Throw msg
          | Ok _ => Ok cleaned
          end
      end
  end.

End Codegen.

(* ================================================================= *)
(** ** Tool detectors: detectManim.js and the two detectChrome.js *)

Module Detect.
Import JsString Regex.

(** What a detector reads from its surroundings at the time of a call. *)
Record world := World {
  env_CHROME_PATH : option string;      (* process.env.CHROME_PATH *)
  env_MANIM_PATH : option string;       (* process.env.MANIM_PATH *)
  executable : string → bool;           (* fs.promises.access(p, X_OK) resolves *)
  which_sync : string → option string;  (* None: which.sync throws *)
  installations : option (list string); (* chrome-launcher; None: it throws *)
  isDev : bool;                         (* Electron in development mode *)
  platform : string;                    (* os.platform() *)
  homedir : string;                     (* os.homedir() *)
  path_join : list string → string;     (* path.join *)
  readdir : string → option (list string); (* None: readdir rejects *)
  reg_query : option string             (* output of execSync(regQuery) *)
}.

(** The module-level [cachedManimPath] / [cachedChromePath]:
    [None] is undefined. A test [if (x)] on a string or undefined value
    succeeds for a non-empty string only. *)
Definition truthy (x : option string) : option string :=
  match x with
  | Some EmptyString => None
  | Some p => Some p
  | None => None
  end.

(** Step 1 of every detector: the environment variable, when it names an
    executable. *)
Definition envOverride (w : world) (envPath : option string) : option string :=
  match truthy envPath with
  | Some p => if executable w p then Some p else None
  | None => None
  end.

(** utils/detectManim.js. The result and the cache after the call. *)
Definition detectManim (w : world) (cachedManimPath : option string)
    : result string * option string :=
  match truthy cachedManimPath with
  | Some p => (Ok p, cachedManimPath)
  | None =>
  match envOverride w (env_MANIM_PATH w) with
  | Some p => (Ok p, Some p)
  | None =>
  match which_sync w "manim" with
  | Some p => (Ok p, Some p)
  | None =>
  match which_sync w "manimce" with
  | Some p => (Ok p, Some p)
  | None =>
      match which_sync w "python3", which_sync w "python" with
      | None, None =>
          (Throw "Python executable not found. Please install Python 3.10+ and Manim Community Edition.",
           cachedManimPath)
      | _, _ =>
          (Throw "Manim executable not found. Please install Manim Community Edition (e.g. `pip install manim`).",
           cachedManimPath)
      end
  end end end end.

(** [/beta|dev/i.test(p)] *)
Definition isBetaOrDev (p : string) : bool :=
  str_includes_nocase p "beta" || str_includes_nocase p "dev".

(** [installs.find(p => !/beta|dev/i.test(p)) || installs[0]], for a
    non-empty [installs]. *)
Definition stableInstall (installs : list string) : option string :=
  match truthy (List.find (λ p, negb (isBetaOrDev p)) installs) with
  | Some p => Some p
  | None => head installs
  end.

(** The loop over the candidate names of [which]. *)
Fixpoint whichFirst (w : world) (accept : string → bool) (names : list string)
    : option string :=
  match names with
  | [] => None
  | name :: rest =>
      match which_sync w name with
      | Some p => if accept p then Some p else whichFirst w accept rest
      | None => whichFirst w accept rest
      end
  end.

(** utils/detectChrome.js *)
Definition byLauncher (w : world) : option string :=
  match installations w with
  | Some (first :: more) => stableInstall (first :: more)
  | Some [] => None
  | None => None
  end.

Definition detectChrome (w : world) (cachedChromePath : option string)
    : result string * option string :=
  match truthy cachedChromePath with
  | Some p => (Ok p, cachedChromePath)
  | None =>
  match envOverride w (env_CHROME_PATH w) with
  | Some p => (Ok p, Some p)
  | None =>
  match byLauncher w with
  | Some p => (Ok p, Some p)
  | None =>
  match whichFirst w (λ _, true) ["google-chrome"; "chrome"; "chromium"] with
  | Some p => (Ok p, Some p)
  | None =>
      (Throw "Chrome executable not found. Please install Chrome or set CHROME_PATH environment variable.",
       cachedChromePath)
  end end end end.

(** The detector for the Electron application. *)
Definition CHROME_PATHS (w : world) (platform : string) : list string :=
  if String.eqb platform "win32" then
    [ "C:/Program Files/Google/Chrome/Application/chrome.exe";
      "C:/Program Files (x86)/Google/Chrome/Application/chrome.exe";
      path_join w [homedir w; "AppData/Local/Google/Chrome/Application/chrome.exe"];
      "C:/Users/*/AppData/Local/Google/Chrome/Application/chrome.exe" ]
  else if String.eqb platform "darwin" then
    [ "/Applications/Google Chrome.app/Contents/MacOS/Google Chrome";
      path_join w [homedir w; "/Applications/Google Chrome.app/Contents/MacOS/Google Chrome"];
      "/usr/bin/google-chrome-stable";
      "/usr/bin/google-chrome" ]
  else if String.eqb platform "linux" then
    [ "/usr/bin/google-chrome-stable";
      "/usr/bin/google-chrome";
      "/usr/bin/chromium-browser";
      "/usr/bin/chromium";
      "/snap/bin/chromium";
      path_join w [homedir w; "/.local/bin/google-chrome"] ]
  else [].

Definition checkFileExists (w : world) (filePath : string) : bool :=
  executable w filePath.

(** Step 2, in development mode only. *)
Definition byLauncherDev (w : world) : option string :=
  if isDev w then
    match byLauncher w with
    | Some stable => if checkFileExists w stable then Some stable else None
    | None => None
    end
  else None.

(** Step 4: one entry of the platform list; an entry with [*] is
    expanded over the directories of its base path. *)
Definition scanPath (w : world) (chromePath : string) : option string :=
  if str_includes chromePath "*" then
    match split_on (Ascii.ascii_of_N 42) chromePath with
    | basePath :: suffix :: _ =>
        match readdir w basePath with
        | Some dirs =>
            List.find (checkFileExists w)
              (map (λ dir, path_join w [basePath; dir; suffix]) dirs)
        | None => None
        end
    | _ => None
    end
  else if checkFileExists w chromePath then Some chromePath else None.

Fixpoint scanPaths (w : world) (paths : list string) : option string :=
  match paths with
  | [] => None
  | chromePath :: rest =>
      match scanPath w chromePath with
      | Some p => Some p
      | None => scanPaths w rest
      end
  end.

(** Step 5: [output.match(/REG_SZ\s+(.+)/)] and [matches[1].trim()].
    The group is never empty, and what precedes it in the match after
    the literal is white space, so trimming the match without the
    literal gives the trimmed group. *)
Definition regPattern : list atom := [Lit "REG_SZ"; Many1 Space; Many1 Dot].

Definition regPath (output : string) : option string :=
  let s := units output in
  match search regPattern false s with
  | Some (before, after) =>
      let matched := take (length s - length before - length after)%nat
                          (drop (length before) s) in
      Some (of_units (trim (drop 6 matched)))
  | None => None
  end.

Definition byRegistry (w : world) : option string :=
  if String.eqb (platform w) "win32" then
    match reg_query w with
    | Some output =>
        match regPath output with
        | Some p => if checkFileExists w p then Some p else None
        | None => None
        end
    | None => None
    end
  else None.

Definition platform_name (platform : string) : string :=
  if String.eqb platform "win32" then "Windows"
  else if String.eqb platform "darwin" then "macOS"
  else if String.eqb platform "linux" then "Linux"
  else platform.

Definition notFoundMessage (w : world) : string :=
  "Chrome executable not found on " +:+ platform_name (platform w) +:+ " ("
  +:+ (if isDev w then "development" else "packaged") +:+ " mode). "
  +:+ "Please install Google Chrome from https://www.google.com/chrome/ or set CHROME_PATH environment variable. "
  +:+ "Searched paths: " +:+ join ", " (CHROME_PATHS w (platform w)).

Definition detectChrome_electron (w : world) (cachedChromePath : option string)
    : result string * option string :=
  match truthy cachedChromePath with
  | Some p => (Ok p, cachedChromePath)
  | None =>
  match envOverride w (env_CHROME_PATH w) with
  | Some p => (Ok p, Some p)
  | None =>
  match byLauncherDev w with
  | Some p => (Ok p, Some p)
  | None =>
  match whichFirst w (checkFileExists w)
          ["google-chrome"; "chrome"; "chromium"; "google-chrome-stable"] with
  | Some p => (Ok p, Some p)
  | None =>
  match scanPaths w (CHROME_PATHS w (platform w)) with
  | Some p => (Ok p, Some p)
  | None =>
  match byRegistry w with
  | Some p => (Ok p, Some p)
  | None => (Throw (notFoundMessage w), cachedChromePath)
  end end end end end end.



End Detect.
(* ================================================================= *)
(** ** services/manimRenderer.js *)

Module Manim.
Import JsString.

(** *** The media directory

    What lies under [MEDIA_DIR] is a tree of regular files and
    directories. The close handler runs after the renderer process has
    ended and every call it makes is synchronous, so the tree changes
    only through the handler's own calls: an item that [readdirSync] has
    just listed exists (the guard [if (!fs.existsSync(itemPath)) continue]
    is never taken) and is a file or a directory. *)
Inductive node :=
  | File (data : string)
  | Dir (items : list (string * node)).

Definition entries := list (string * node).

(** A path below [MEDIA_DIR], one name per component; [path.join(dir, item)]
    is [dir ++ [item]]. *)
Definition path := list string.

Record dirs := Dirs {
  SCRIPTS_DIR : string;
  MEDIA_DIR : string
}.

(** The path as the source prints it. *)
Definition abs (D : dirs) (p : path) : string := join "/" (MEDIA_DIR D :: p).

Fixpoint assoc (name : string) (fs : entries) : option node :=
  match fs with
  | [] => None
  | (k, n) :: rest => if String.eqb k name then Some n else assoc name rest
  end.

Fixpoint lookup (fs : entries) (p : path) : option node :=
  match p with
  | [] => Some (Dir fs)
  | name :: rest =>
      match assoc name fs with
      | Some (Dir sub) => lookup sub rest
      | Some (File data) => match rest with [] => Some (File data) | _ :: _ => None end
      | None => None
      end
  end.

Definition exists_ (fs : entries) (p : path) : bool :=
  match lookup fs p with Some _ => true | None => false end.

(** The source removes, creates and overwrites only direct children of
    [MEDIA_DIR]. *)
Definition remove (name : string) (fs : entries) : entries :=
  List.filter (λ e, negb (String.eqb (fst e) name)) fs.

Fixpoint put (name : string) (n : node) (fs : entries) : entries :=
  match fs with
  | [] => [(name, n)]
  | (k, old) :: rest =>
      if String.eqb k name then (name, n) :: rest else (k, old) :: put name n rest
  end.

(** *** Effects *)
Inductive fsop :=
  | ExistsSync (p : path)
  | MkdirSync (p : path)
  | ReaddirSync (p : path)
  | StatSync (p : path)
  | CopyFileSync (src dest : path)
  | RmSync (p : path)
  | UnlinkSync (p : path).

Inductive event :=
  | Log (msg : string)                       (* a call of logFn *)
  | Fs (op : fsop)                           (* a call of fs on the media tree *)
  | EnsureScriptsDir
  | WriteScript (file : string) (code : jsstring)
  | Spawn (cmd : string) (args : list string).

(** A computation reads and changes the media tree, leaves a trace of
    its calls, and returns or throws; what it did before throwing stays. *)
Definition M (A : Type) : Type := entries → result A * entries * list event.

#[global] Instance M_ret : MRet M := λ A a fs, (Ok a, fs, []).

#[global] Instance M_bind : MBind M := λ A B f m fs,
  match m fs with
  | (Ok a, fs1, t1) => let '(r, fs2, t2) := f a fs1 in (r, fs2, t1 ++ t2)
  | (Throw msg, fs1, t1) => (Throw msg, fs1, t1)
  end.

Definition try_catch {A} (m : M A) (handler : string → M A) : M A :=
  λ fs,
    match m fs with
    | (Ok a, fs1, t1) => (Ok a, fs1, t1)
    | (Throw msg, fs1, t1) =>
        let '(r, fs2, t2) := handler msg fs1 in (r, fs2, t1 ++ t2)
    end.

Definition emit (e : event) : M unit := λ fs, (Ok tt, fs, [e]).
Definition logFn (msg : string) : M unit := emit (Log msg).

Definition existsSync (p : path) : M bool :=
  λ fs, (Ok (exists_ fs p), fs, [Fs (ExistsSync p)]).

Definition readdirSync (D : dirs) (p : path) : M (list string) :=
  λ fs,
    match lookup fs p with
    | Some (Dir items) => (Ok (map fst items), fs, [Fs (ReaddirSync p)])
    | Some (File _) =>
        (Throw ("ENOTDIR: not a directory, scandir '" +:+ abs D p +:+ "'"),
         fs, [Fs (ReaddirSync p)])
    | None =>
        (Throw ("ENOENT: no such file or directory, scandir '" +:+ abs D p +:+ "'"),
         fs, [Fs (ReaddirSync p)])
    end.

(** [fs.mkdirSync(MEDIA_DIR/name, { recursive: true })] *)
Definition mkdirSync (name : string) : M unit :=
  λ fs,
    (Ok tt, match assoc name fs with Some _ => fs | None => put name (Dir []) fs end,
     [Fs (MkdirSync [name])]).

(** [fs.rmSync(MEDIA_DIR/name, { recursive: true, force: true })] *)
Definition rmSync (name : string) : M unit :=
  λ fs, (Ok tt, remove name fs, [Fs (RmSync [name])]).

(** [fs.copyFileSync(src, MEDIA_DIR/name)]: the source has to be a
    regular file, the destination must not be a directory. *)
Definition copyFileSync (D : dirs) (src : path) (name : string) : M unit :=
  λ fs,
    match lookup fs src, assoc name fs with
    | Some (File data), Some (Dir _) =>
        (Throw ("EISDIR: illegal operation on a directory, copyfile '"
                +:+ abs D src +:+ "' -> '" +:+ abs D [name] +:+ "'"),
         fs, [Fs (CopyFileSync src [name])])
    | Some (File data), _ =>
        (Ok tt, put name (File data) fs, [Fs (CopyFileSync src [name])])
    | Some (Dir _), _ =>
        (Throw ("EISDIR: illegal operation on a directory, copyfile '"
                +:+ abs D src +:+ "' -> '" +:+ abs D [name] +:+ "'"),
         fs, [Fs (CopyFileSync src [name])])
    | None, _ =>
        (Throw ("ENOENT: no such file or directory, copyfile '"
                +:+ abs D src +:+ "' -> '" +:+ abs D [name] +:+ "'"),
         fs, [Fs (CopyFileSync src [name])])
    end.

(** [fs.unlinkSync(MEDIA_DIR/name)] *)
Definition unlinkSync (D : dirs) (name : string) : M unit :=
  λ fs,
    match assoc name fs with
    | Some (File _) => (Ok tt, remove name fs, [Fs (UnlinkSync [name])])
    | Some (Dir _) =>
        (Throw ("EISDIR: illegal operation on a directory, unlink '"
                +:+ abs D [name] +:+ "'"),
         fs, [Fs (UnlinkSync [name])])
    | None =>
        (Throw ("ENOENT: no such file or directory, unlink '"
                +:+ abs D [name] +:+ "'"),
         fs, [Fs (UnlinkSync [name])])
    end.

(** *** The two recursive walks of the close handler

    Both only read the tree; they are functions of the node found at
    [dir] and give their result with the calls they made. *)
Fixpoint findIn (D : dirs) (dir : path) (n : node) {struct n}
    : result (option path) * list event :=
  match n with
  | File _ =>
      (Throw ("ENOTDIR: not a directory, scandir '" +:+ abs D dir +:+ "'"),
       [Fs (ExistsSync dir); Log ("Searching in directory: " +:+ abs D dir);
        Fs (ReaddirSync dir)])
  | Dir items =>
      let fix loop (l : list (string * node)) : result (option path) * list event :=
        match l with
        | [] => (Ok None, [])
        | (item, child) :: rest =>
            let itemPath := dir ++ [item] in
            let checks := [Fs (ExistsSync itemPath); Fs (StatSync itemPath)] in
            match child with
            | File _ =>
                if String.eqb item "GeneratedScene.mp4" then
                  (Ok (Some itemPath),
                   checks ++ [Log ("Found final video at: " +:+ abs D itemPath)])
                else
                  let '(r, t) := loop rest in (r, checks ++ t)
            | Dir _ =>
                match findIn D itemPath child with
                | (Ok None, t1) => let '(r, t2) := loop rest in (r, checks ++ t1 ++ t2)
                | (found, t1) => (found, checks ++ t1)
                end
            end
        end in
      let '(r, t) := loop items in
      (r, [Fs (ExistsSync dir); Log ("Searching in directory: " +:+ abs D dir);
           Fs (ReaddirSync dir);
           Log ("Found items: " +:+ join ", " (map fst items))] ++ t)
  end.

Definition findManimVideo (D : dirs) (dir : path) : M (option path) :=
  λ fs,
    match lookup fs dir with
    | None => (Ok None, fs, [Fs (ExistsSync dir)])
    | Some n => let '(r, t) := findIn D dir n in (r, fs, t)
    end.

Definition isPartialName (item : string) : bool :=
  str_includes item "uncached_" || str_includes item "partial".

Fixpoint partialIn (D : dirs) (dir : path) (n : node) {struct n}
    : result (list path) * list event :=
  match n with
  | File _ =>
      (Throw ("ENOTDIR: not a directory, scandir '" +:+ abs D dir +:+ "'"),
       [Fs (ExistsSync dir); Fs (ReaddirSync dir)])
  | Dir items =>
      let fix loop (l : list (string * node)) : result (list path) * list event :=
        match l with
        | [] => (Ok [], [])
        | (item, child) :: rest =>
            let itemPath := dir ++ [item] in
            let checks := [Fs (ExistsSync itemPath); Fs (StatSync itemPath)] in
            match child with
            | File _ =>
                match loop rest with
                | (Ok more, t) =>
                    (Ok (if isPartialName item then itemPath :: more else more),
                     checks ++ t)
                | (Throw msg, t) => (Throw msg, checks ++ t)
                end
            | Dir _ =>
                match partialIn D itemPath child with
                | (Ok inner, t1) =>
                    match loop rest with
                    | (Ok more, t2) => (Ok (inner ++ more), checks ++ t1 ++ t2)
                    | (Throw msg, t2) => (Throw msg, checks ++ t1 ++ t2)
                    end
                | (Throw msg, t1) => (Throw msg, checks ++ t1)
                end
            end
        end in
      let '(r, t) := loop items in
      (r, [Fs (ExistsSync dir); Fs (ReaddirSync dir)] ++ t)
  end.

Definition checkForPartialFiles (D : dirs) (dir : path) : M (list path) :=
  λ fs,
    match lookup fs dir with
    | None => (Ok [], fs, [Fs (ExistsSync dir)])
    | Some n => let '(r, t) := partialIn D dir n in (r, fs, t)
    end.

(** *** The close handler and the renderer process *)
Definition outDir (runId : string) : path := [runId].
Definition finalName (runId : string) : string := runId +:+ ".mp4".
Definition finalVideoPath (runId : string) : path := [finalName runId].
Definition rootVideoName : string := "GeneratedScene.mp4".

Definition commonLocations (runId : string) : list path :=
  [ [runId; "GeneratedScene.mp4"];
    [runId; "2160p60"; "GeneratedScene.mp4"];
    [runId; "1080p60"; "GeneratedScene.mp4"];
    [runId; "720p30"; "GeneratedScene.mp4"];
    [runId; "480p15"; "GeneratedScene.mp4"] ].

(** The loop over [commonLocations] with its [break]. *)
Fixpoint firstExisting (D : dirs) (locations : list path) : M (option path) :=
  match locations with
  | [] => mret None
  | location :: rest =>
      found ← existsSync location;
      if (found : bool) then
        logFn ("Found video at common location: " +:+ abs D location);;
        mret (Some location)
      else firstExisting D rest
  end.

(** The body of [try { ... }] in the branch [code === 0]; its value is
    how the promise is settled. *)
Definition processOutput (D : dirs) (runId : string) : M outcome :=
  let final := abs D (finalVideoPath runId) in
  done ← existsSync (finalVideoPath runId);
  if (done : bool) then
    logFn ("Video already exists at: " +:+ final);;
    present ← existsSync (outDir runId);
    (if (present : bool) then rmSync runId else mret tt);;
    mret (Resolve final)
  else
    logFn ("Searching for GeneratedScene.mp4 in: " +:+ abs D (outDir runId));;
    nested ← findManimVideo D (outDir runId);
    manimVideoPath ← match nested with
                     | Some p => mret (Some p)
                     | None => firstExisting D (commonLocations runId)
                     end;
    usable ← match manimVideoPath with
             | Some p => there ← existsSync p;
                         mret (if (there : bool) then Some p else None)
             | None => mret None
             end;
    match usable with
    | Some p =>
        copyFileSync D p (finalName runId);;
        rmSync runId;;
        logFn ("Video successfully saved to " +:+ final);;
        mret (Resolve final)
    | None =>
        partialFiles ← checkForPartialFiles D (outDir runId);
        if (0 <? length partialFiles)%nat then
          logFn ("Found " +:+ pretty (length partialFiles)
                 +:+ " partial files, but no final GeneratedScene.mp4");;
          logFn "This indicates Manim failed during the final assembly phase";;
          inRoot ← existsSync [rootVideoName];
          if (inRoot : bool) then
            logFn ("Found video in root directory: " +:+ abs D [rootVideoName]);;
            copyFileSync D [rootVideoName] (finalName runId);;
            unlinkSync D rootVideoName;;
            rmSync runId;;
            logFn ("Video successfully saved to " +:+ final);;
            mret (Resolve final)
          else
            rmSync runId;;
            mret (Reject "Manim rendering incomplete: Final video assembly failed. This may be due to complex animations or system resource constraints. Try simplifying the prompt.")
        else
          logFn "No video files found in output directory";;
          try_catch
            (names ← readdirSync D (outDir runId);
             logFn ("Directory contents: " +:+ join ", " names))
            (λ _, logFn "Could not read directory contents");;
          mret (Reject ("Could not find GeneratedScene.mp4 in "
                        +:+ abs D (outDir runId)
                        +:+ ". Manim may have failed silently."))
    end.

(** The message chosen from the captured stderr when the exit code is
    not zero. *)
Definition errorMessage (stderrData : string) : string :=
  if str_includes stderrData "TypeError" then
    if str_includes stderrData "use_quadratic_bezier" then
      "Code uses deprecated Manim API. Please try regenerating with a simpler prompt."
    else if str_includes stderrData "unexpected keyword argument" then
      "Generated code uses incorrect method parameters. Try regenerating with a different approach."
    else "TypeError in generated code. The AI may have used incorrect method parameters."
  else if str_includes stderrData "AttributeError" then
    "AttributeError in generated code. The AI may have used non-existent methods."
  else if str_includes stderrData "ImportError"
          || str_includes stderrData "ModuleNotFoundError" then
    "Missing required Python packages for Manim rendering."
  else if str_includes stderrData "SyntaxError" then
    "Syntax error in generated Python code."
  else if str_includes stderrData "NameError" then
    "Variable or function name error in generated code."
  else if str_includes stderrData "MemoryError"
          || str_includes stderrData "OutOfMemoryError" then
    "Insufficient memory for rendering. Try reducing animation complexity or duration."
  else if str_includes stderrData "FFmpeg" then
    "Video encoding failed. There may be an issue with the animation timeline or FFmpeg."
  else "Manim rendering failed".

(** The exit code of [close]: a number, or null when a signal ended the
    process. *)
Definition showCode (code : option Z) : string :=
  match code with Some c => pretty c | None => "null" end.

(** [proc.on('close', code => ...)] *)
Definition onClose (D : dirs) (runId : string) (code : option Z)
    (stderrData : string) (fs : entries) : outcome * entries * list event :=
  match code with
  | Some 0 =>
      match (logFn "Manim rendering completed successfully";;
             processOutput D runId) fs with
      | (Ok settled, fs', t) => (settled, fs', t)
      | (Throw msg, fs', t) =>
          (Reject ("Error processing Manim output: " +:+ msg), fs',
           t ++ [Log ("Error processing video: " +:+ msg)])
      end
  | _ =>
      match (logFn ("Rendering failed with exit code " +:+ showCode code
                    +:+ ": " +:+ errorMessage stderrData);;
             logFn "Full error output:";;
             logFn stderrData;;
             present ← existsSync (outDir runId);
             if (present : bool) then rmSync runId else mret tt) fs with
      | (_, fs', t) => (Reject (errorMessage stderrData), fs', t)
      end
  end.

(** What the spawned process does: it cannot be started (the [error]
    event), or it writes to stdout and stderr, changes the media tree
    and ends (the [close] event). *)
Inductive chunk :=
  | Stdout (output : string)
  | Stderr (output : string).

Inductive proc :=
  | SpawnFails (msg : string)
  | Runs (output : list chunk) (effect : entries → entries) (code : option Z).

(** The log line of a [data] event. *)
Definition dataLog (c : chunk) : string :=
  match c with
  | Stdout output => "[Manim] " +:+ str_trim output
  | Stderr output =>
      let outputTrimmed := str_trim output in
      let isProgress :=
        str_includes outputTrimmed "Animation"
        && (str_includes outputTrimmed "%|" || str_includes outputTrimmed "it/s") in
      let isActualError :=
        (str_includes_nocase outputTrimmed "error"
         || str_includes_nocase outputTrimmed "traceback"
         || str_includes_nocase outputTrimmed "exception")
        && negb isProgress in
      if isProgress then "[Manim Progress] " +:+ outputTrimmed
      else if isActualError then "[Manim Error] " +:+ outputTrimmed
      else "[Manim] " +:+ outputTrimmed
  end.

Fixpoint stderrOf (output : list chunk) : string :=
  match output with
  | [] => EmptyString
  | Stdout _ :: rest => stderrOf rest
  | Stderr s :: rest => s +:+ stderrOf rest
  end.

(** Steps 1 and 2: the directories and the script file. The media tree
    [fs] is what [MEDIA_DIR] holds once it exists. *)
Definition prepare (D : dirs) (code : jsstring) (runId : string) : M unit :=
  emit EnsureScriptsDir;;
  existsSync [];;
  present ← existsSync (outDir runId);
  (if (present : bool) then mret tt else mkdirSync runId);;
  emit (WriteScript (runId +:+ ".py") code);;
  logFn "Manim script written".

(** [generateWithManim(code, runId, logFn)]: [manimCmd] is what the
    awaited [detectManim()] gave, [p] what the spawned process does.
    The result is the settled promise, the media tree and the trace. *)
Definition generateWithManim (D : dirs) (code : jsstring) (runId : string)
    (manimCmd : result string) (p : proc) (fs : entries)
    : outcome * entries * list event :=
  let '(_, fs1, t1) := prepare D code runId fs in
  match manimCmd with
  | Throw msg => (Reject msg, fs1, t1)
  | Ok cmd =>
      let scriptPath := SCRIPTS_DIR D +:+ "/" +:+ runId +:+ ".py" in
      let args := ["-qk"; "--disable_caching"; scriptPath; "GeneratedScene";
                   "-o"; abs D (outDir runId)] in
      let t2 := t1 ++ [Log "Manim executable found";
                       Log "Starting Manim rendering...";
                       Spawn cmd args] in
      match p with
      | SpawnFails msg =>
          (Reject ("Failed to start Manim: " +:+ msg), fs1,
           t2 ++ [Log ("Process error: " +:+ msg)])
      | Runs output effect code =>
          let '(settled, fs2, t3) :=
            onClose D runId code (stderrOf output) (effect fs1) in
          (settled, fs2, t2 ++ map (λ c, Log (dataLog c)) output ++ t3)
      end
  end.

(** The media tree that the close handler finds: what [prepare] left,
    changed by the renderer process. *)
Definition treeAtClose (D : dirs) (code : jsstring) (runId : string)
    (effect : entries → entries) (fs : entries) : entries :=
  effect (snd (fst (prepare D code runId fs))).

(** The calls that make up the search for the video: listing and
    inspecting directories, and testing the common locations. *)
Definition searches (runId : string) (e : event) : Prop :=
  match e with
  | Fs (ReaddirSync _) | Fs (StatSync _) => True
  | Fs (ExistsSync p) => p ∈ commonLocations runId
  | _ => False
  end.

End Manim.

(* ================================================================= *)
(** ** services/p5Renderer.js *)

Module P5.
Import JsString.

(** [durationSecs] and [totalFrames] are JavaScript numbers. They are
    kept as exact rationals: the product [durationSecs * 30] and the
    test [i < totalFrames] of the source are exact whenever the product
    is a number the double format holds exactly, as it is for whole
    seconds and for binary fractions such as 0.25. *)
Definition frameRateValue : Q := 30.

Record dirs := Dirs {
  SCRIPTS_DIR : string;
  MEDIA_DIR : string;
  ffmpegPath : string
}.

(** What the browser does: each call resolves ([None]) or rejects with a
    message; screenshots and draw calls are indexed by the frame. *)
Record browser := Browser {
  launch : option string;
  newPage : option string;
  goto : option string;
  waitForFunction : option string;
  screenshot : Z → option string;
  evaluateDraw : Z → option string;
  close : option string
}.

(** What the encoder process does: its stderr chunks and exit code. *)
Record encoder := Encoder {
  ffStderr : list string;
  ffExit : option Z
}.

Inductive event :=
  | Log (msg : string)
  | LogCaptured (frame : Z) (totalFrames : Q)
      (* logFn(`Captured frame ${i + 1}/${totalFrames}`) *)
  | EnsureDir (dir : string)
  | WriteFile (file : string)
  | Launch (executablePath : string)
  | NewPage
  | Goto (url : string)
  | WaitForFunction
  | Screenshot (imgPath : string)
  | EvaluateDraw
  | CloseBrowser
  | SpawnFfmpeg (cmd : string) (args : list string)
  | RmFrames (dir : string).

(** [String(i).padStart(4, '0')] *)
Definition padStart4 (s : string) : string :=
  String.string_of_list_ascii
    (replicate (4 - String.length s)%nat (Ascii.ascii_of_N 48))
  +:+ s.

Definition framePath (framesDir : string) (i : Z) : string :=
  framesDir +:+ "/" +:+ padStart4 (pretty i) +:+ ".png".

(** The loop [for (let i = 0; i < totalFrames; i++)], from [i] on. It
    ends because [i] reaches the ceiling of [totalFrames]. *)
Equations? captureFrames (B : browser) (framesDir : string) (totalFrames : Q)
    (i : Z) : result unit * list event
    by wf (Z.to_nat (Qceiling totalFrames - i)) lt :=
  captureFrames B framesDir totalFrames i with Qlt_le_dec (inject_Z i) totalFrames := {
    | right _ => (Ok tt, [])
    | left _ =>
        match screenshot B i with
        | Some msg => (Throw msg, [Screenshot (framePath framesDir i)])
        | None =>
            match evaluateDraw B i with
            | Some msg =>
                (Throw msg, [Screenshot (framePath framesDir i); EvaluateDraw])
            | None =>
                let '(r, t) := captureFrames B framesDir totalFrames (i + 1) in
                (r, [Screenshot (framePath framesDir i); EvaluateDraw;
                     LogCaptured (i + 1) totalFrames] ++ t)
            end
        end }.
Proof.
  assert (i < Qceiling totalFrames)%Z; [|lia].
  rewrite Zlt_Qlt. eapply Qlt_le_trans; [eassumption|]. apply Qle_ceiling.
Qed.

(** A sequence of awaited browser calls: the first that rejects ends the
    function. *)
Fixpoint awaitAll (calls : list (event * option string))
    : option string * list event :=
  match calls with
  | [] => (None, [])
  | (e, Some msg) :: _ => (Some msg, [e])
  | (e, None) :: rest => let '(r, t) := awaitAll rest in (r, e :: t)
  end.

(** [generateWithP5(code, runId, logFn, durationSecs = 4)]:
    [chromePath] is what the awaited [detectChrome()] gave; an undefined
    [durationSecs] is [None]. *)
Definition generateWithP5 (D : dirs) (B : browser) (E : encoder)
    (chromePath : result string) (runId : string) (durationSecs : option Q)
    : outcome * list event :=
  let durationSecs := default 4%Q durationSecs in
  let outDir := MEDIA_DIR D +:+ "/" +:+ runId in
  let htmlPath := SCRIPTS_DIR D +:+ "/" +:+ runId +:+ ".html" in
  let t1 := [EnsureDir (SCRIPTS_DIR D); EnsureDir (MEDIA_DIR D); EnsureDir outDir;
             WriteFile (SCRIPTS_DIR D +:+ "/" +:+ runId +:+ ".js");
             WriteFile htmlPath] in
  match chromePath with
  | Throw msg => (Reject msg, t1 ++ [Log ("Chrome detection failed: " +:+ msg)])
  | Ok chromePath =>
      let framesDir := outDir +:+ "/frames" in
      let '(r2, t2) :=
        awaitAll [(Launch chromePath, launch B); (NewPage, newPage B);
                  (Goto ("file://" +:+ htmlPath), goto B);
                  (WaitForFunction, waitForFunction B)] in
      let t12 := t1 ++ [Log ("Found Chrome at " +:+ chromePath)] ++ t2 in
      match r2 with
      | Some msg => (Reject msg, t12)
      | None =>
          let totalFrames := (durationSecs * frameRateValue)%Q in
          match captureFrames B framesDir totalFrames 0 with
          | (Throw msg, t3) => (Reject msg, t12 ++ [EnsureDir framesDir] ++ t3)
          | (Ok _, t3) =>
              let t123 := t12 ++ [EnsureDir framesDir] ++ t3 ++ [CloseBrowser] in
              match close B with
              | Some msg => (Reject msg, t123)
              | None =>
                  let outputPath := outDir +:+ "/animation.mp4" in
                  let ffArgs := ["-y"; "-framerate"; "30";
                                 "-i"; framesDir +:+ "/%04d.png";
                                 "-c:v"; "libx264"; "-pix_fmt"; "yuv420p";
                                 outputPath] in
                  let t4 := t123 ++ [SpawnFfmpeg (ffmpegPath D) ffArgs]
                            ++ map (λ d, Log ("ffmpeg: " +:+ d)) (ffStderr E) in
                  match ffExit E with
                  | Some 0 =>
                      (Resolve outputPath,
                       t4 ++ [Log "Video encoding complete"; RmFrames framesDir])
                  | _ => (Reject "ffmpeg error", t4)
                  end
              end
          end
      end
  end.


(** The screenshots of a trace, in the order they were taken. *)
Fixpoint screenshots (t : list event) : list string :=
  match t with
  | [] => []
  | Screenshot imgPath :: rest => imgPath :: screenshots rest
  | _ :: rest => screenshots rest
  end.


Definition framesDirOf (D : dirs) (runId : string) : string :=
  (MEDIA_DIR D +:+ "/" +:+ runId) +:+ "/frames".


(** A browser in which every call resolves. *)
Definition cooperative (B : browser) : Prop :=
  launch B = None ∧ newPage B = None ∧ goto B = None ∧ waitForFunction B = None
  ∧ (∀ i, screenshot B i = None) ∧ (∀ i, evaluateDraw B i = None)
  ∧ close B = None.

End P5.

(* ================================================================= *)
(** ** index.js: the job table and the log stream *)

Module Server.
Import JsString.

Inductive status := pending | done.

(** An entry of [jobs]; a null [videoPath] is [None]. *)
Record job := Job {
  logs : list string;
  jstatus : status;
  videoPath : option string
}.

Definition push (msg : string) (j : job) : job :=
  Job (logs j ++ [msg]) (jstatus j) (videoPath j).

(** Where the handler of POST /api/generate stands for a job: waiting
    for [generateCode]; its [setImmediate] callback queued; the callback
    waiting for the renderer; returned from its outer [catch] with the
    answer 400; the callback returned. *)
Inductive phase :=
  | AwaitCodegen (prompt engine : string) (duration : option Q)
  | Scheduled (engine : string) (code : jsstring) (duration : option Q)
  | Rendering
  | Failed
  | Finished.

(** What the server writes to a log stream. *)
Inductive sse :=
  | Data (log : string)                      (* data: ${log} *)
  | DoneEvent (videoPath : option string).   (* event: done *)

(** A connection of GET /api/logs: the [lastIndex] of its closure, what
    has been written to it, and whether its interval is still set. *)
Record client := Client {
  c_runId : string;
  lastIndex : nat;
  sent : list sse;
  polling : bool
}.

(** What the server sends or calls. *)
Inductive output :=
  | RespondRunId (runId : string)            (* res.json({ runId }) *)
  | RespondError (code : Z) (error : string) (* res.status(code).json({ error }) *)
  | CallRenderer (engine : string) (code : jsstring) (runId : string)
      (duration : option Q).

Record state := State {
  jobs : gmap string job;
  tasks : gmap string phase;
  clients : list client;
  out : list output
}.

Definition init : state := State ∅ ∅ [] [].

(** What happens next on the event loop. *)
Inductive label :=
  | PostGenerate (runId prompt engine : string) (duration : option Q)
      (* a request arrives and uuidv4() gives runId *)
  | CodegenSettles (runId : string) (response : Codegen.api_response)
      (* the awaited generateCode ends, the API having answered *)
  | RunImmediate (runId : string)            (* the queued callback starts *)
  | RendererLogs (runId : string) (msg : string)
      (* the renderer calls logFn, which it does before its promise settles *)
  | RendererSettles (runId : string) (o : outcome)
  | GetLogs (runId : string)                 (* GET /api/logs?runId= *)
  | Tick (c : nat)                           (* the interval of connection c fires *)
  | Disconnect (c : nat).                    (* the request of connection c closes *)

(** [path.basename] for POSIX paths. *)
Definition basename (p : string) : string :=
  default EmptyString
    (last (List.filter (λ piece, negb (String.eqb piece EmptyString))
             (split_on (Ascii.ascii_of_N 47) p))).

(** The loop of [sendLogs]; [fuel] bounds the number of turns. *)
Fixpoint sendLoop (fuel : nat) (allLogs : list string) (lastIndex : nat)
    (sent : list sse) : nat * list sse :=
  match fuel with
  | O => (lastIndex, sent)
  | S fuel' =>
      match allLogs !! lastIndex with
      | Some log => sendLoop fuel' allLogs (S lastIndex) (sent ++ [Data log])
      | None => (lastIndex, sent)
      end
  end.

Definition sendLogs (j : job) (c : client) : client :=
  let '(i, s) := sendLoop (length (logs j)) (logs j) (lastIndex c) (sent c) in
  Client (c_runId c) i s (polling c).

(** The two services as a handler calls them, with the answer of the
    API. *)
Definition codegen_utils (P : Codegen.prompts)
    (prompt engine : string) (response : Codegen.api_response) : result jsstring :=
  Codegen.generateCode P (λ _ _, response) prompt engine.

Definition codegen_services
    (prompt engine : string) (response : Codegen.api_response) : result jsstring :=
  Codegen.generateCode_services (λ _ _, response) prompt engine.

(** The two index.js differ in the service they call, in what they store
    as [videoPath], and in passing the duration on to the p5 renderer. *)
Record variant := Variant {
  codegen : string → string → Codegen.api_response → result jsstring;
  storedPath : string → string;
  passesDuration : bool
}.

(** The index.js that requires ./utils/codegenService and serves the
    videos under /videos. *)
Definition index_utils (P : Codegen.prompts) : variant :=
  Variant (codegen_utils P) (λ videoPath, "/videos/" +:+ basename videoPath) true.

(** The earlier index.js, which requires ./services/codegenService. *)
Definition index_services : variant :=
  Variant codegen_services (λ videoPath, videoPath) false.

Section Steps.
Variable V : variant.

Definition step (st : state) (l : label) : option state :=
  match l with
  | PostGenerate runId prompt engine duration =>
      Some (State (<[runId := Job ["Code generation started"] pending None]> (jobs st))
                  (<[runId := AwaitCodegen prompt engine duration]> (tasks st))
                  (clients st) (out st))
  | CodegenSettles runId response =>
      match tasks st !! runId with
      | Some (AwaitCodegen prompt engine duration) =>
          match codegen V prompt engine response with
          | Ok code =>
              Some (State (alter (push "Code generation completed") runId (jobs st))
                          (<[runId := Scheduled engine code duration]> (tasks st))
                          (clients st) (out st ++ [RespondRunId runId]))
          | Throw msg =>
              Some (State (jobs st) (<[runId := Failed]> (tasks st))
                          (clients st) (out st ++ [RespondError 400 msg]))
          end
      | _ => None
      end
  | RunImmediate runId =>
      match tasks st !! runId with
      | Some (Scheduled engine code duration) =>
          let started :=
            alter (push ("Rendering started using " +:+ engine)) runId (jobs st) in
          if String.eqb engine "p5" || String.eqb engine "manim" then
            Some (State started (<[runId := Rendering]> (tasks st)) (clients st)
                        (out st ++ [CallRenderer engine code runId
                                      (if passesDuration V && String.eqb engine "p5"
                                         then duration else None)]))
          else
            Some (State (alter (λ j, Job (logs j ++ ["Error: Invalid engine during render"])
                                         done (videoPath j)) runId started)
                        (<[runId := Finished]> (tasks st)) (clients st) (out st))
      | _ => None
      end
  | RendererLogs runId msg =>
      match tasks st !! runId with
      | Some Rendering =>
          Some (State (alter (push msg) runId (jobs st)) (tasks st)
                      (clients st) (out st))
      | _ => None
      end
  | RendererSettles runId o =>
      match tasks st !! runId with
      | Some Rendering =>
          let finish (j : job) : job :=
            match o with
            | Resolve videoPath =>
                Job (logs j ++ ["Rendering complete"]) done
                    (Some (storedPath V videoPath))
            | Reject msg =>
                Job (logs j ++ ["Error: " +:+ msg]) done (videoPath j)
            end in
          Some (State (alter finish runId (jobs st))
                      (<[runId := Finished]> (tasks st)) (clients st) (out st))
      | _ => None
      end
  | GetLogs runId =>
      match jobs st !! runId with
      | None =>
          Some (State (jobs st) (tasks st) (clients st)
                      (out st ++ [RespondError 404 "Run not found"]))
      | Some j =>
          Some (State (jobs st) (tasks st)
                      (clients st ++ [sendLogs j (Client runId 0 [] true)])
                      (out st))
      end
  | Tick c =>
      match clients st !! c with
      | Some cl =>
          if polling cl then
            match jobs st !! c_runId cl with
            | Some j =>
                let cl1 := sendLogs j cl in
                let cl2 :=
                  match jstatus j with
                  | done => Client (c_runId cl1) (lastIndex cl1)
                                   (sent cl1 ++ [DoneEvent (videoPath j)]) false
                  | pending => cl1
                  end in
                Some (State (jobs st) (tasks st) (<[c := cl2]> (clients st)) (out st))
            | None => None
            end
          else None
      | None => None
      end
  | Disconnect c =>
      match clients st !! c with
      | Some cl =>
          Some (State (jobs st) (tasks st)
                      (<[c := Client (c_runId cl) (lastIndex cl) (sent cl) false]>
                         (clients st))
                      (out st))
      | None => None
      end
  end.

(** A run of the event loop; [None] when a label cannot happen in the
    state reached. *)
Fixpoint run (st : state) (ls : list label) : option state :=
  match ls with
  | [] => Some st
  | l :: rest =>
      match step st l with
      | Some st' => run st' rest
      | None => None
      end
  end.

End Steps.

(** The ids that uuidv4() gave along a run. *)
Fixpoint posted (ls : list label) : list string :=
  match ls with
  | [] => []
  | PostGenerate runId _ _ _ :: rest => runId :: posted rest
  | _ :: rest => posted rest
  end.

Definition statusOf (st : state) (runId : string) : option status :=
  jstatus <$> jobs st !! runId.

(** Whether a renderer has been called for the job. *)
Definition isCall (runId : string) (o : output) : bool :=
  match o with
  | CallRenderer _ _ r _ => String.eqb r runId
  | _ => false
  end.

Definition rendererCalled (st : state) (runId : string) : bool :=
  existsb (isCall runId) (out st).


(** The status of a job in each state of a run, from the first on. *)
Fixpoint statusTrace (V : variant)
    (st : state) (ls : list label) (runId : string) : list (option status) :=
  statusOf st runId ::
  match ls with
  | [] => []
  | l :: rest =>
      match step V st l with
      | Some st' => statusTrace V st' rest runId
      | None => []
      end
  end.

(** uuidv4() gives an id it has not given before: the ids of a run are
    distinct and none is in the table at its start. *)
Definition freshIds (st : state) (ls : list label) : Prop :=
  NoDup (posted ls) ∧ ∀ r, r ∈ posted ls → jobs st !! r = None.

(** What a stream has received, against the log of its job: the first
    [lastIndex] lines, or the whole log and the final event. *)
Definition streamOk (j : job) (c : client) : Prop :=
  (lastIndex c ≤ length (logs j))%nat ∧
  (sent c = map Data (take (lastIndex c) (logs j))
   ∨ (polling c = false ∧ jstatus j = done ∧
      sent c = map Data (logs j) ++ [DoneEvent (videoPath j)])).

(** What holds of every state the server reaches. *)
Record consistent (st : state) : Prop := Consistent {
  same_ids : ∀ r, jobs st !! r = None ↔ tasks st !! r = None;
  done_finished : ∀ r j ph,
    jobs st !! r = Some j → tasks st !! r = Some ph →
    (jstatus j = done ↔ ph = Finished);
  called_rendering : ∀ r,
    rendererCalled st r = true →
    tasks st !! r = Some Rendering ∨ tasks st !! r = Some Finished;
  streams_ok : ∀ i c,
    clients st !! i = Some c → ∃ j, jobs st !! c_runId c = Some j ∧ streamOk j c
}.

End Server.

(* ================================================================= *)
(** ** Concrete inputs used to exercise the definitions *)

Module Scenarios.
Import JsString.

Definition prompts0 : Codegen.prompts := Codegen.Prompts "p5 rules" "manim rules".

(** A sketch that passes validation and one that does not. *)
Definition sketch_ok : jsstring := lit "function setup() { createCanvas(400, 400); }".
Definition sketch_bad : jsstring := lit "let x = 0; function setup() {}".


(** A job that is generated, rendered and streamed to one client. *)
Definition run_ok : list Server.label :=
  [ Server.PostGenerate "r1" "a circle" "p5" None;
    Server.CodegenSettles "r1" (Codegen.Responds (Some sketch_ok));
    Server.GetLogs "r1";
    Server.RunImmediate "r1";
    Server.RendererLogs "r1" "Found Chrome at /usr/bin/chromium";
    Server.Tick 0;
    Server.RendererSettles "r1" (Resolve "/app/media/videos/r1/animation.mp4") ].

Definition state_ok : Server.state :=
  default Server.init
    (Server.run (Server.index_utils prompts0) Server.init run_ok).

(** A job whose generated sketch is rejected. *)
Definition run_rejected : list Server.label :=
  [ Server.PostGenerate "r1" "a circle" "p5" None;
    Server.CodegenSettles "r1" (Codegen.Responds (Some sketch_bad)) ].

Definition state_rejected : Server.state :=
  default Server.init
    (Server.run (Server.index_utils prompts0) Server.init run_rejected).


(** A Linux host with Chromium and Manim on the PATH, and environment
    variables that name files which are not there yet. *)
Definition world_first : Detect.world :=
  Detect.World (Some "/opt/chrome/chrome") (Some "/opt/manim/bin/manim")
    (λ p, String.eqb p "/usr/bin/chromium" || String.eqb p "/usr/bin/manim")
    (λ name, if String.eqb name "chromium" then Some "/usr/bin/chromium"
             else if String.eqb name "manim" then Some "/usr/bin/manim"
             else None)
    None false "linux" "/home/user" (join "/") (λ _, None) None.

(** The same host once the named files have been installed. *)
Definition world_later : Detect.world :=
  Detect.World (Some "/opt/chrome/chrome") (Some "/opt/manim/bin/manim")
    (λ _, true)
    (Detect.which_sync world_first)
    None false "linux" "/home/user" (join "/") (λ _, None) None.

(** Renders of the job job1. *)
Definition dirs0 : Manim.dirs := Manim.Dirs "/app/scripts" "/app/media/videos".

(** The CLI exits with code zero and has written nothing. *)
Definition proc_silent : Manim.proc := Manim.Runs [] (λ fs, fs) (Some 0).

(** The CLI exits with code zero and leaves partial movie files only. *)
Definition partial_tree : Manim.node :=
  Manim.Dir [("videos",
              Manim.Dir [("partial_movie_files",
                          Manim.Dir [("uncached_00000.mp4", Manim.File "part")])])].

Definition proc_partial : Manim.proc :=
  Manim.Runs [Manim.Stderr "Animation 0: 100%|##########| 30/30"]
    (Manim.put "job1" partial_tree) (Some 0).

(** A video with the fixed scene name lying directly in the media
    directory. *)
Definition stray_root : Manim.entries := [("GeneratedScene.mp4", Manim.File "stray")].

(** The CLI exits with code zero while the video of the job is already
    in place. *)
Definition proc_again : Manim.proc :=
  Manim.Runs [] (Manim.put "job1" partial_tree) (Some 0).

Definition already_rendered : Manim.entries := [("job1.mp4", Manim.File "video")].

(** A sketch rendered by a browser and an encoder that do not fail. *)
Definition p5dirs0 : P5.dirs := P5.Dirs "/app/scripts" "/app/media/videos" "ffmpeg".

Definition browser_ok : P5.browser :=
  P5.Browser None None None None (λ _, None) (λ _, None) None.

Definition encoder_ok : P5.encoder := P5.Encoder [] (Some 0).

End Scenarios.

(* ================================================================= *)
(** ** The code fence of Markdown *)

Module Markdown.
Import JsString.

(** The three backquotes that [cleanCode] looks for. *)
Definition fence : jsstring := lit "```".

End Markdown.

(* ================================================================= *)
(** ** The media tree as a directory listing gives it *)

Module MediaTree.
Import JsString Manim.

(** [readdirSync] lists every name of a directory once. *)
Fixpoint distinct (names : list string) : bool :=
  match names with
  | [] => true
  | name :: rest => negb (existsb (String.eqb name) rest) && distinct rest
  end.

(** The tree below [n] is one that listings can give: no directory
    holds a name twice. *)
Fixpoint wellFormed (n : node) {struct n} : bool :=
  match n with
  | File _ => true
  | Dir items =>
      distinct (map fst items)
      && (fix all (l : list (string * node)) : bool :=
            match l with
            | [] => true
            | (_, child) :: rest => wellFormed child && all rest
            end) items
  end.

(** The [for ... of] loop of [findManimVideo] over the items of the
    directory [dir], as [Manim.findIn] runs it. *)
Definition findItems (D : dirs) (dir : path)
    : list (string * node) → result (option path) * list event :=
  fix loop (l : list (string * node)) : result (option path) * list event :=
    match l with
    | [] => (Ok None, [])
    | (item, child) :: rest =>
        let itemPath := dir ++ [item] in
        let checks := [Fs (ExistsSync itemPath); Fs (StatSync itemPath)] in
        match child with
        | File _ =>
            if String.eqb item "GeneratedScene.mp4" then
              (Ok (Some itemPath),
               checks ++ [Log ("Found final video at: " +:+ abs D itemPath)])
            else
              let '(r, t) := loop rest in (r, checks ++ t)
        | Dir _ =>
            match findIn D itemPath child with
            | (Ok None, t1) => let '(r, t2) := loop rest in (r, checks ++ t1 ++ t2)
            | (found, t1) => (found, checks ++ t1)
            end
        end
    end.

(** The loop of [checkForPartialFiles], as [Manim.partialIn] runs it. *)
Definition partialItems (D : dirs) (dir : path)
    : list (string * node) → result (list path) * list event :=
  fix loop (l : list (string * node)) : result (list path) * list event :=
    match l with
    | [] => (Ok [], [])
    | (item, child) :: rest =>
        let itemPath := dir ++ [item] in
        let checks := [Fs (ExistsSync itemPath); Fs (StatSync itemPath)] in
        match child with
        | File _ =>
            match loop rest with
            | (Ok more, t) =>
                (Ok (if isPartialName item then itemPath :: more else more),
                 checks ++ t)
            | (Throw msg, t) => (Throw msg, checks ++ t)
            end
        | Dir _ =>
            match partialIn D itemPath child with
            | (Ok inner, t1) =>
                match loop rest with
                | (Ok more, t2) => (Ok (inner ++ more), checks ++ t1 ++ t2)
                | (Throw msg, t2) => (Throw msg, checks ++ t1 ++ t2)
                end
            | (Throw msg, t1) => (Throw msg, checks ++ t1)
            end
        end
    end.

(** What the search of the items of [dir] answers: the path of a regular
    file named GeneratedScene.mp4 below [dir] (in a listing without
    repeated names), or nothing when there is no such file. *)
Definition finds (dir : path) (items : entries) (r : option path) : Prop :=
  match r with
  | Some p =>
      wellFormed (Dir items) = true →
      ∃ rel data, p = dir ++ rel ∧ lookup items rel = Some (File data)
                  ∧ last rel = Some "GeneratedScene.mp4"
  | None =>
      ∀ rel data, lookup items rel = Some (File data) →
                  last rel ≠ Some "GeneratedScene.mp4"
  end.

(** What the scan for partial files of the items of [dir] answers:
    every regular file below [dir] whose name marks it as partial, and
    (in a listing without repeated names) nothing else. *)
Definition lists (dir : path) (items : entries) (ps : list path) : Prop :=
  (∀ rel data name,
     lookup items rel = Some (File data) → last rel = Some name →
     isPartialName name = true → dir ++ rel ∈ ps)
  ∧ (wellFormed (Dir items) = true →
     ∀ p, p ∈ ps →
       ∃ rel data name, p = dir ++ rel ∧ lookup items rel = Some (File data)
                        ∧ last rel = Some name ∧ isPartialName name = true).

End MediaTree.

(* ================================================================= *)
(** ** JavaScript objects *)

Module Js.

(** The values that the health report is made of. An object is the list
    of its own properties in the order of their creation; the names the
    sources read are none of the inherited ones. *)
Inductive value :=
  | Undefined
  | Bool (b : bool)
  | Num (n : Z)
  | NaN
  | Str (s : string)
  | Obj (fields : list (string * value)).

(** The test [if (v)], [v || w], [filter(x => x.p)]. *)
Definition truthy (v : value) : bool :=
  match v with
  | Undefined => false
  | Bool b => b
  | Num n => negb (n =? 0)
  | NaN => false
  | Str s => negb (String.eqb s EmptyString)
  | Obj _ => true
  end.

Fixpoint field (key : string) (fields : list (string * value)) : option value :=
  match fields with
  | [] => None
  | (k, v) :: rest => if String.eqb k key then Some v else field key rest
  end.

(** [o.key], and [o?.key] on an undefined [o]. *)
Definition get (o : value) (key : string) : value :=
  match o with
  | Obj fields => default Undefined (field key fields)
  | _ => Undefined
  end.

(** [o.key = v]: an existing property keeps its place. *)
Fixpoint setField (key : string) (v : value) (fields : list (string * value))
    : list (string * value) :=
  match fields with
  | [] => [(key, v)]
  | (k, old) :: rest =>
      if String.eqb k key then (key, v) :: rest else (k, old) :: setField key v rest
  end.

(** [{ ...fields, ...more }], and an object literal that ends with the
    properties [more]. *)
Definition assign (fields more : list (string * value)) : list (string * value) :=
  fold_left (λ acc kv, setField (fst kv) (snd kv) acc) more fields.

Definition properties (o : value) : list (string * value) :=
  match o with Obj fields => fields | _ => [] end.

(** [Object.keys(o)] and [Object.values(o)] *)
Definition keys (o : value) : list string := map fst (properties o).
Definition values (o : value) : list value := map snd (properties o).

(** [a || b] *)
Definition or (a b : value) : value := if truthy a then a else b.

End Js.

(* ================================================================= *)
(** ** utils/detectTeX.js and services/healthCheck.js *)

Module HealthCheck.
Import JsString Detect Js.

(** utils/detectTeX.js *)
Definition detectTeX (w : world) : result unit :=
  match which_sync w "latex" with
  | Some _ => Ok tt
  | None =>
      match which_sync w "pdflatex" with
      | Some _ => Ok tt
      | None =>
          Throw "LaTeX engine not found. Please install a TeX distribution (e.g., MiKTeX or TeX Live) to support MathTex rendering in Manim."
      end
  end.

(** What the checks read besides the tools of the host: the detector
    of Chrome that is installed as utils/detectChrome.js, the message
    with which [require(name)] throws if it does, and the clock. *)
Record host := Host {
  tools : world;
  detectChrome : world → option string → result string * option string;
  requireError : string → option string;
  now : string
}.

(** The module-level caches of the two detectors. *)
Record caches := Caches {
  cachedChromePath : option string;
  cachedManimPath : option string
}.

Definition checkNodeModules (H : host) : value :=
  let missing (msg : string) :=
    Obj [("available", Bool false);
         ("message", Str ("Critical Node modules missing: " +:+ msg));
         ("solution", Str "Run `npm install` in the server directory")] in
  match requireError H "express" with
  | Some msg => missing msg
  | None =>
      match requireError H "which" with
      | Some msg => missing msg
      | None =>
          Obj [("available", Bool true);
               ("message", Str "Node.js dependencies available");
               ("path", Str "Available via require()")]
      end
  end.

Definition checkPython (w : world) : value :=
  let found (pythonCmd : string) :=
    Obj [("available", Bool true); ("message", Str "Python interpreter found");
         ("path", Str pythonCmd)] in
  match which_sync w "python3" with
  | Some pythonCmd => found pythonCmd
  | None =>
      match which_sync w "python" with
      | Some pythonCmd => found pythonCmd
      | None =>
          Obj [("available", Bool false); ("message", Str "Python not found");
               ("solution",
                Str "Install Python 3.10+ from https://python.org/downloads/")]
      end
  end.

Definition checkP5Requirements (H : host) (c : caches) : value * caches :=
  let chromeRequirement := [("name", Str "Chrome Browser"); ("critical", Bool true)] in
  let nodeRequirement := [("name", Str "Node Dependencies"); ("critical", Bool false)] in
  let '(detected, cachedChrome) := detectChrome H (tools H) (cachedChromePath c) in
  let chrome :=
    match detected with
    | Ok chromePath =>
        assign chromeRequirement
          [("available", Bool true); ("message", Str "Chrome browser found");
           ("path", Str chromePath)]
    | Throw msg =>
        assign chromeRequirement
          [("available", Bool false); ("message", Str msg);
           ("solution",
            Str "Install Google Chrome from https://www.google.com/chrome/ or set CHROME_PATH environment variable")]
    end in
  let nodeModules := assign nodeRequirement (properties (checkNodeModules H)) in
  (Obj (setField "nodeModules" (Obj nodeModules) (setField "chrome" (Obj chrome) [])),
   Caches cachedChrome (cachedManimPath c)).

(** The path of the LaTeX entry is [which.sync('latex') || which.sync('pdflatex')],
    evaluated inside the [try]: a [which.sync] that throws there leads
    to the [catch]. *)
Definition latexPath (w : world) : option string :=
  match which_sync w "latex" with
  | None => None
  | Some p =>
      if truthy (Str p) then Some p
      else which_sync w "pdflatex"
  end.

Definition checkManimRequirements (H : host) (c : caches) : value * caches :=
  let manimRequirement :=
    [("name", Str "Manim Community Edition"); ("critical", Bool true)] in
  let pythonRequirement := [("name", Str "Python Interpreter"); ("critical", Bool true)] in
  let latexRequirement := [("name", Str "LaTeX Distribution"); ("critical", Bool false)] in
  let '(detected, cachedManim) := detectManim (tools H) (cachedManimPath c) in
  let manim :=
    match detected with
    | Ok manimPath =>
        assign manimRequirement
          [("available", Bool true); ("message", Str "Manim Community Edition found");
           ("path", Str manimPath)]
    | Throw msg =>
        assign manimRequirement
          [("available", Bool false); ("message", Str msg);
           ("solution",
            Str "Install Manim Community Edition: `pip install manim` or set MANIM_PATH environment variable")]
    end in
  let python := assign pythonRequirement (properties (checkPython (tools H))) in
  let latexMissing :=
    assign latexRequirement
      [("available", Bool false);
       ("message", Str "LaTeX not found (optional for basic animations)");
       ("solution",
        Str "Install TeX Live (https://tug.org/texlive/) or MiKTeX (https://miktex.org/) for advanced mathematical typesetting")] in
  let latex :=
    match detectTeX (tools H) with
    | Throw _ => latexMissing
    | Ok _ =>
        match latexPath (tools H) with
        | Some p =>
            assign latexRequirement
              [("available", Bool true);
               ("message",
                Str "LaTeX distribution found (enables advanced math rendering)");
               ("path", Str p)]
        | None => latexMissing
        end
    end in
  (Obj (setField "latex" (Obj latex)
          (setField "python" (Obj python) (setField "manim" (Obj manim) []))),
   Caches (cachedChromePath c) cachedManim).

(** [Math.round((available / total) * 100)]: the quotient of 0 by 0 is
    NaN; otherwise the nearest whole number, a half going up. The
    rational arithmetic agrees with that of the doubles for the two and
    three requirements that the reports have. *)
Definition percentage (available total : nat) : value :=
  match total with
  | O => NaN
  | S _ =>
      Num (Qfloor (inject_Z (Z.of_nat available) / inject_Z (Z.of_nat total) * 100
                   + (1 # 2)))
  end.

Definition calculateReadiness (requirements : value) : value :=
  let critical := List.filter (λ req, truthy (get req "critical")) (values requirements) in
  let availableCritical := List.filter (λ req, truthy (get req "available")) critical in
  let total := length (keys requirements) in
  let available :=
    length (List.filter (λ req, truthy (get req "available")) (values requirements)) in
  Obj [("ready", Bool (length availableCritical =? length critical)%nat);
       ("criticalMet", Num (Z.of_nat (length availableCritical)));
       ("criticalTotal", Num (Z.of_nat (length critical)));
       ("overallScore", percentage available total);
       ("totalRequirements", Num (Z.of_nat total));
       ("metRequirements", Num (Z.of_nat available))].

(** [performHealthCheck(engine)]; every call that can throw is inside a
    [try] of one of the checks, so the function always returns. *)
Definition performHealthCheck (H : host) (engine : string) (c : caches)
    : value * caches :=
  let results := [("timestamp", Str (now H)); ("engine", Str engine)] in
  let '(results, c) :=
    if String.eqb engine "p5" || String.eqb engine "both" then
      let '(p5, c') := checkP5Requirements H c in (setField "p5" p5 results, c')
    else (results, c) in
  let '(results, c) :=
    if String.eqb engine "manim" || String.eqb engine "both" then
      let '(manim, c') := checkManimRequirements H c in
      (setField "manim" manim results, c')
    else (results, c) in
  let results :=
    if truthy (get (Obj results) "p5") then
      setField "p5Readiness" (calculateReadiness (get (Obj results) "p5")) results
    else results in
  let results :=
    if truthy (get (Obj results) "manim") then
      setField "manimReadiness" (calculateReadiness (get (Obj results) "manim")) results
    else results in
  (Obj results, c).

End HealthCheck.

(* ================================================================= *)
(** ** The health endpoints of api.js and index.js *)

Module Health.
Import JsString Detect Js HealthCheck.

(** [engine || 'both'] for an [engine] that is a string or undefined. *)
Definition orBoth (engine : option string) : string :=
  match engine with
  | Some e => if String.eqb e EmptyString then "both" else e
  | None => "both"
  end.

(** api.js, the handler of 'check-health'. What it returns and the
    caches after the call. *)
Definition checkHealth (H : host) (engine : option string) (c : caches)
    : value * caches :=
  let '(healthResults, c') := performHealthCheck H (orBoth engine) c in
  let p5Available := or (get (get healthResults "p5") "available") (Bool false) in
  let manimAvailable := or (get (get healthResults "manim") "available") (Bool false) in
  let available :=
    match engine with
    | Some e =>
        if String.eqb e "p5" then p5Available
        else if String.eqb e "manim" then manimAvailable
        else or p5Available manimAvailable
    | None => or p5Available manimAvailable
    end in
  (Obj (assign [("success", Bool true); ("available", available)]
          (properties healthResults)),
   c').

(** The index.js that requires the health service: GET /api/health.
    The status and the body of the answer. *)
Definition apiHealth (H : host) (engine : option string) (c : caches)
    : Z * value * caches :=
  let '(healthResults, c') := performHealthCheck H (orBoth engine) c in
  (200, Obj (assign [("success", Bool true)] (properties healthResults)), c').

End Health.

(* ================================================================= *)
(** ** api.js: the handler of 'generate-video' *)

Module Api.
Import JsString Js.

(** [path.basename(p, ext)] for a POSIX path: a path that is the
    extension itself gives the empty string; otherwise the extension is
    removed from a last component that ends with it and is longer than
    it. *)
Definition basenameWithout (p ext : string) : string :=
  let name := String.list_ascii_of_string (Server.basename p) in
  let e := String.list_ascii_of_string ext in
  let keep := (length name - length e)%nat in
  if String.eqb p ext then EmptyString
  else if (length e <? length name)%nat
          && String.eqb (String.string_of_list_ascii (drop keep name)) ext
  then String.string_of_list_ascii (take keep name)
  else Server.basename p.

(** What the handler returns or throws, and the messages it sends as
    'render-log'. [code] is what the awaited [generateCode] gave;
    [renderP5 code] and [renderManim code] are the messages that the
    renderer logs and the way its promise settles. *)
Definition generateVideo (code : result jsstring) (engine : string)
    (renderP5 renderManim : jsstring → list string * outcome)
    : result value * list string :=
  let failed (sent : list string) (msg : string) : result value * list string :=
    (Throw msg, sent ++ ["Error: " +:+ msg]) in
  let started := ["Code generation started..."] in
  match code with
  | Throw msg => failed started msg
  | Ok code =>
      let rendering :=
        started ++ ["Code generation finished - preparing for video rendering";
                    "Video rendering started using " +:+ engine] in
      let rendered :=
        if String.eqb engine "p5" then Some (renderP5 code)
        else if String.eqb engine "manim" then Some (renderManim code)
        else None in
      match rendered with
      | None => failed rendering ("Invalid engine: " +:+ engine)
      | Some (logs, Reject msg) => failed (rendering ++ logs) msg
      | Some (logs, Resolve videoPath) =>
          let filename := basenameWithout videoPath ".mp4" in
          (Ok (Obj [("success", Bool true);
                    ("videoPath", Str ("app-video://" +:+ filename));
                    ("downloadPath", Str ("file://" +:+ videoPath));
                    ("filename", Str (filename +:+ ".mp4"))]),
           rendering ++ logs ++ ["Video generation completed successfully"])
      end
  end.

End Api.

(* ================================================================= *)
(** ** services/testManim.js: [dedent] *)

Module TestManim.
Import JsString Regex.

(** The one-character string of a line feed. *)
Definition LF : string := String (Ascii.ascii_of_nat 10) EmptyString.

(** [/^\n/] and [/\n\s*$/] *)
Definition leadingNewline : regexp := RegExp "^\n" true [Lit LF] false.
Definition trailingBlank : regexp := RegExp "\n\s*$" false [Lit LF; Many Space] true.

(** [s.split('\n')] and [lines.join('\n')] on code units. *)
Fixpoint split_lines (s : jsstring) : list jsstring :=
  match s with
  | [] => [[]]
  | c :: s' =>
      if (c =? 10)%N then [] :: split_lines s'
      else match split_lines s' with
           | l :: ls => (c :: l) :: ls
           | [] => [[c]]
           end
  end.

Fixpoint join_lines (ls : list jsstring) : jsstring :=
  match ls with
  | [] => []
  | [l] => l
  | l :: rest => l ++ 10%N :: join_lines rest
  end.

(** [l.trim()] as a condition: the line is not blank. *)
Definition notBlank (l : jsstring) : bool :=
  match trim l with [] => false | _ :: _ => true end.

(** [l.match(/^ */)[0].length]: the number of leading U+0020. *)
Fixpoint leadingSpaces (l : jsstring) : nat :=
  match l with
  | c :: l' => if (c =? 32)%N then S (leadingSpaces l') else 0%nat
  | [] => 0%nat
  end.

(** [Array.prototype.sort()] without a comparison function orders the
    elements by their string conversions, compared code unit by code
    unit; here the elements are numbers and the strings their decimal
    numerals. *)
Definition before (x y : nat) : bool := String.leb (pretty x) (pretty y).

Fixpoint insert_sorted (x : nat) (l : list nat) : list nat :=
  match l with
  | [] => [x]
  | y :: l' => if before x y then x :: l else y :: insert_sorted x l'
  end.

Definition sort (l : list nat) : list nat := foldr insert_sorted [] l.

(** [l.slice(indent)]; [indent] is [undefined] for an empty array, and
    [slice(undefined)] is the whole line. *)
Definition slice (indent : option nat) (l : jsstring) : jsstring :=
  match indent with
  | Some n => drop n l
  | None => l
  end.

Definition lines_of (str : jsstring) : list jsstring :=
  split_lines (replace_empty trailingBlank (replace_empty leadingNewline str)).

Definition indent_of (lines : list jsstring) : option nat :=
  head (sort (map leadingSpaces (List.filter notBlank lines))).

Definition dedent (str : jsstring) : jsstring :=
  let lines := lines_of str in
  let indent := indent_of lines in
  join_lines (map (slice indent) lines).

End TestManim.

(* ================================================================= *)
(** ** Further inputs used to exercise the definitions *)

Module Examples.
Import JsString Server Js HealthCheck.

(** A host from which every tool has been removed. *)
Definition nothing_installed : Detect.world :=
  Detect.World None None (λ _, false) (λ _, None) None false "linux" "/home/user"
    (join "/") (λ _, None) None.

(** A host where chrome-launcher reports a beta channel before the
    stable one. *)
Definition two_channels : Detect.world :=
  Detect.World None None (λ _, true) (λ _, None)
    (Some ["/opt/google/chrome-beta/chrome"; "/opt/google/chrome/chrome"])
    false "linux" "/home/user" (join "/") (λ _, None) None.

(** A sketch of two seconds whose code has been generated. *)
Definition run_scheduled : list label :=
  [ PostGenerate "r1" "a circle" "p5" (Some 2%Q);
    CodegenSettles "r1" (Codegen.Responds (Some Scenarios.sketch_ok)) ].

Definition state_scheduled : state :=
  default init (run (index_utils Scenarios.prompts0) init run_scheduled).

(** A host without any of the tools, whose Node modules load. *)
Definition host_bare : host :=
  Host nothing_installed Detect.detectChrome (λ _, None)
    "2025-01-01T00:00:00.000Z".

(** A host whose TeX distribution installs pdflatex and no latex. *)
Definition host_pdflatex : host :=
  Host (Detect.World None None (λ _, false)
          (λ name, if String.eqb name "pdflatex" then Some "/usr/bin/pdflatex" else None)
          None false "linux" "/home/user" (join "/") (λ _, None) None)
    Detect.detectChrome (λ _, None) "2025-01-01T00:00:00.000Z".

End Examples.

(* ================================================================= *)
(** * Properties *)

(** ** Code generation *)

Section CodegenFacts.
Import JsString Regex Codegen.

Example cleanCode_fenced :
  cleanCode (lit "  ```javascript
function setup() {}
```
") = lit "function setup() {}".
Proof. vm_compute. reflexivity. Qed.

Example banned_axes :
  validateManimCode (lit "ax = Axes  (x_range=[0,1])")
  = Throw "Generated Manim code contains prohibited construct: /Axes\s*\(/".
Proof. vm_compute. reflexivity. Qed.

Example banned_import :
  validateManimCode (lit "import   numpy as np")
  = Throw "Generated Manim code contains prohibited construct: /import\s+numpy/".
Proof. vm_compute. reflexivity. Qed.

Example allowed_text :
  validateManimCode (lit "class GeneratedScene(Scene): Text('Tex')") = Ok tt.
Proof. vm_compute. reflexivity. Qed.


Lemma validateAgainst_ok patterns code :
  validateAgainst patterns code = Ok tt →
  ∀ re, re ∈ patterns → test re code = false.
Proof.
  induction patterns as [|p ps IH]; intros Hv re Hin.
  - inversion Hin.
  - simpl in Hv. destruct (test p code) eqn:Hp; [discriminate|].
    apply elem_of_cons in Hin as [->|Hin]; [done|]. by apply IH.
Qed.


Lemma generateCode_p5_shape P api prompt contents raw :
  contentsFor P "p5" prompt = Some contents →
  api "gemini-2.0-flash" contents = Responds (Some raw) →
  startsWith (trim (cleanCode raw)) (lit "function setup()") = false →
  generateCode P api prompt "p5"
  = Throw "Invalid p5.js generation: must start with 'function setup()'".
Proof.
  intros Hc Hapi Hs. unfold generateCode. rewrite Hc, Hapi.
  cbn [String.eqb Ascii.eqb Bool.eqb]. unfold validateGeneratedCode.
  rewrite Hs. reflexivity.
Qed.

Lemma generateCode_services_p5_shape api prompt raw :
  (∀ messages, api "gemini-2.5-pro" messages = Responds (Some raw)) →
  startsWith (trim (cleanCode raw)) (lit "function setup()") = false →
  generateCode_services api prompt "p5"
  = Throw "Invalid p5.js generation: must start with 'function setup()'".
Proof.
  intros Hapi Hs. unfold generateCode_services.
  cbn [String.eqb Ascii.eqb Bool.eqb]. rewrite Hapi.
  unfold validateGeneratedCode. rewrite Hs. reflexivity.
Qed.

End CodegenFacts.

(** ** Tool detectors *)

Section DetectFacts.
Import JsString Detect Scenarios.

Lemma envOverride_executable w p :
  p ≠ EmptyString → executable w p = true → envOverride w (Some p) = Some p.
Proof.
  intros Hp He. unfold envOverride, truthy. destruct p; [done|]. by rewrite He.
Qed.



(** C8, amended. While no path is cached, a detector whose environment
    variable names an executable returns exactly that path and caches
    it, whatever the other discovery methods would find; once a path is
    cached, the detector returns the cached path. *)
Theorem C8_env_override_first w cached p :
  p ≠ EmptyString → executable w p = true →
  let expected :=
    match truthy cached with
    | Some q => (Ok q, cached)
    | None => (Ok p, Some p)
    end in
  (env_MANIM_PATH w = Some p → detectManim w cached = expected)
  ∧ (env_CHROME_PATH w = Some p →
     detectChrome w cached = expected
     ∧ detectChrome_electron w cached = expected).
Proof.
  intros Hp He expected. subst expected.
  pose proof (envOverride_executable w p Hp He) as Henv.
  split; [intros Hm|intros Hc; split];
    unfold detectManim, detectChrome, detectChrome_electron;
    destruct (truthy cached); try done;
    rewrite ?Hm, ?Hc, Henv; done.
Qed.

Lemma C8_witness :
  executable world_later "/opt/chrome/chrome" = true
  ∧ env_CHROME_PATH world_later = Some "/opt/chrome/chrome"
  ∧ detectChrome_electron world_later None
    = (Ok "/opt/chrome/chrome", Some "/opt/chrome/chrome").
Proof.
  split; [reflexivity|]. split; [reflexivity|].
  apply (C8_env_override_first world_later None "/opt/chrome/chrome");
    [discriminate|reflexivity|reflexivity].
Defined.

(** A first call made before the file named by CHROME_PATH is there
    finds Chromium on the PATH and caches it; a later call, with
    CHROME_PATH naming an executable, still returns the cached path. *)
Lemma C8_counterexample :
  detectChrome world_first None
  = (Ok "/usr/bin/chromium", Some "/usr/bin/chromium")
  ∧ env_CHROME_PATH world_later = Some "/opt/chrome/chrome"
  ∧ executable world_later "/opt/chrome/chrome" = true
  ∧ fst (detectChrome world_later (snd (detectChrome world_first None)))
    = Ok "/usr/bin/chromium"
  ∧ fst (detectManim world_later (snd (detectManim world_first None)))
    = Ok "/usr/bin/manim".
Proof. repeat split; vm_compute; reflexivity. Qed.



End DetectFacts.

(** ** The Manim renderer *)

Section ManimFacts.
Import JsString Manim Scenarios.

(** *** The media tree *)

Lemma assoc_remove name fs : assoc name (remove name fs) = None.
Proof.
  induction fs as [|[k n] fs IH]; [done|].
  unfold remove in *. simpl.
  destruct (String.eqb k name) eqn:E; simpl; [done|]. by rewrite E.
Qed.

Lemma assoc_remove_ne k name fs :
  k ≠ name → assoc k (remove name fs) = assoc k fs.
Proof.
  intros Hne. induction fs as [|[k' n] fs IH]; [done|].
  unfold remove in *. simpl.
  destruct (String.eqb k' name) eqn:E; simpl.
  - apply String.eqb_eq in E as ->.
    destruct (String.eqb name k) eqn:E'; [|done].
    apply String.eqb_eq in E'. congruence.
  - by rewrite IH.
Qed.

Lemma length_append (s1 s2 : string) :
  String.length (s1 +:+ s2) = (String.length s1 + String.length s2)%nat.
Proof. induction s1 as [|c s1 IH]; simpl; [done|]. by rewrite IH. Qed.

Lemma finalName_ne runId : finalName runId ≠ runId.
Proof.
  unfold finalName. intros H. apply (f_equal String.length) in H.
  rewrite length_append in H. simpl in H. lia.
Qed.

Lemma exists_remove name fs : exists_ (remove name fs) [name] = false.
Proof. unfold exists_. simpl. by rewrite assoc_remove. Qed.

Lemma exists_outDir fs name :
  exists_ fs [name] = match assoc name fs with Some _ => true | None => false end.
Proof. unfold exists_. simpl. by destruct (assoc name fs) as [[]|]. Qed.

Lemma assoc_put name n fs : assoc name (put name n fs) = Some n.
Proof.
  induction fs as [|[k old] fs IH]; simpl.
  - by rewrite String.eqb_refl.
  - destruct (String.eqb k name) eqn:E; simpl.
    + by rewrite String.eqb_refl.
    + by rewrite E.
Qed.

(** *** Steps 1 and 2 *)

Lemma prepare_spec D code runId fs :
  ∃ fs1 t,
    prepare D code runId fs = (Ok tt, fs1, t)
    ∧ exists_ fs1 (outDir runId) = true
    ∧ ∀ e, e ∈ t → ¬ searches runId e.
Proof.
  unfold prepare, mbind, M_bind, emit, existsSync, logFn, emit, mkdirSync, mret, M_ret.
  unfold outDir. rewrite exists_outDir.
  destruct (assoc runId fs) as [n|] eqn:Ha; simpl; eexists _, _;
    (split; [reflexivity|]); (split; [rewrite exists_outDir|]).
  - by rewrite Ha.
  - intros e He. repeat (apply elem_of_cons in He as [->|He]);
      try (by apply elem_of_nil in He); simpl; try tauto;
      unfold commonLocations; rewrite !elem_of_cons, elem_of_nil;
      intros H; repeat destruct H as [H|H]; try discriminate; done.
  - by rewrite Ha, assoc_put.
  - intros e He. repeat (apply elem_of_cons in He as [->|He]);
      try (by apply elem_of_nil in He); simpl; try tauto;
      unfold commonLocations; rewrite !elem_of_cons, elem_of_nil;
      intros H; repeat destruct H as [H|H]; try discriminate; done.
Qed.

(** *** The close handler *)

Lemma firstExisting_none D locations fs :
  (∀ loc, loc ∈ locations → exists_ fs loc = false) →
  firstExisting D locations fs
  = (Ok None, fs, map (λ loc, Fs (ExistsSync loc)) locations).
Proof.
  induction locations as [|loc rest IH]; intros Hnone; [done|].
  simpl. unfold mbind, M_bind, existsSync.
  rewrite (Hnone loc) by apply list_elem_of_here.
  rewrite IH; [done|]. intros l Hl. apply Hnone. by apply list_elem_of_further.
Qed.

(** The short-circuit branch. *)
Lemma onClose_short_circuit D runId stderrData fs :
  exists_ fs (finalVideoPath runId) = true →
  ∃ fs' t,
    onClose D runId (Some 0) stderrData fs
    = (Resolve (abs D (finalVideoPath runId)), fs', t)
    ∧ exists_ fs' (outDir runId) = false
    ∧ exists_ fs' (finalVideoPath runId) = true
    ∧ ∀ e, e ∈ t → ¬ searches runId e.
Proof.
  intros Hfinal.
  unfold onClose, processOutput, mbind, M_bind, existsSync, logFn, emit,
    rmSync, mret, M_ret.
  rewrite Hfinal.
  destruct (exists_ fs (outDir runId)) eqn:Hout; simpl; eexists _, _;
    (split; [reflexivity|]); (split; [try apply exists_remove; try done|]);
    (split; [try done; unfold finalVideoPath in *;
             rewrite exists_outDir in *; by rewrite assoc_remove_ne
               by apply finalName_ne|]);
    intros e He; repeat (apply elem_of_cons in He as [->|He]);
    try (by apply elem_of_nil in He); simpl; try tauto;
    unfold commonLocations, finalVideoPath, outDir;
    rewrite !elem_of_cons, elem_of_nil;
    intros H; repeat destruct H as [H|H]; try discriminate; done.
Qed.

(** The branch "No video files found in output directory": it rejects
    and does not touch the media tree. *)
Lemma onClose_no_output D runId stderrData fs items t1 t2 :
  exists_ fs (finalVideoPath runId) = false →
  lookup fs (outDir runId) = Some (Dir items) →
  findIn D (outDir runId) (Dir items) = (Ok None, t1) →
  (∀ loc, loc ∈ commonLocations runId → exists_ fs loc = false) →
  partialIn D (outDir runId) (Dir items) = (Ok [], t2) →
  ∃ t,
    onClose D runId (Some 0) stderrData fs
    = (Reject ("Could not find GeneratedScene.mp4 in " +:+ abs D (outDir runId)
               +:+ ". Manim may have failed silently."), fs, t).
Proof.
  intros Hfinal Hdir Hfind Hcommon Hpartial.
  cbv beta iota zeta delta
    [onClose processOutput mbind M_bind existsSync logFn emit
     findManimVideo checkForPartialFiles try_catch readdirSync mret M_ret].
  rewrite Hfinal, Hdir, Hfind, (firstExisting_none D _ fs Hcommon), Hdir, Hpartial.
  cbv beta iota zeta delta [length Nat.ltb Nat.leb]. rewrite Hdir.
  cbv beta iota zeta. eexists. reflexivity.
Qed.

(** The branch of partial files without a video in the media
    directory: it removes the working directory and rejects. *)
Lemma onClose_incomplete D runId stderrData fs items partials t1 t2 :
  exists_ fs (finalVideoPath runId) = false →
  lookup fs (outDir runId) = Some (Dir items) →
  findIn D (outDir runId) (Dir items) = (Ok None, t1) →
  (∀ loc, loc ∈ commonLocations runId → exists_ fs loc = false) →
  partialIn D (outDir runId) (Dir items) = (Ok partials, t2) →
  partials ≠ [] →
  exists_ fs [rootVideoName] = false →
  ∃ t,
    onClose D runId (Some 0) stderrData fs
    = (Reject "Manim rendering incomplete: Final video assembly failed. This may be due to complex animations or system resource constraints. Try simplifying the prompt.",
       remove runId fs, t).
Proof.
  intros Hfinal Hdir Hfind Hcommon Hpartial Hsome Hroot.
  cbv beta iota zeta delta
    [onClose processOutput mbind M_bind existsSync logFn emit
     findManimVideo checkForPartialFiles rmSync mret M_ret].
  rewrite Hfinal, Hdir, Hfind, (firstExisting_none D _ fs Hcommon), Hdir, Hpartial.
  destruct partials as [|first more]; [done|].
  cbv beta iota zeta delta [length Nat.ltb Nat.leb]. rewrite Hroot.
  cbv beta iota zeta. eexists. reflexivity.
Qed.

(** The recursive search finds the video: it is copied to the canonical
    path and the working directory is removed. *)
Lemma onClose_found D runId stderrData fs items p data t1 :
  exists_ fs (finalVideoPath runId) = false →
  lookup fs (outDir runId) = Some (Dir items) →
  findIn D (outDir runId) (Dir items) = (Ok (Some p), t1) →
  lookup fs p = Some (File data) →
  ∃ t,
    onClose D runId (Some 0) stderrData fs
    = (Resolve (abs D (finalVideoPath runId)),
       remove runId (put (finalName runId) (File data) fs), t)
    ∧ exists_ (remove runId (put (finalName runId) (File data) fs)) (outDir runId)
      = false.
Proof.
  intros Hfinal Hdir Hfind Hfile.
  assert (assoc (finalName runId) fs = None) as Hnone.
  { unfold finalVideoPath in Hfinal. rewrite exists_outDir in Hfinal.
    by destruct (assoc (finalName runId) fs). }
  assert (exists_ fs p = true) as Hthere by (unfold exists_; by rewrite Hfile).
  cbv beta iota zeta delta
    [onClose processOutput mbind M_bind existsSync logFn emit
     findManimVideo copyFileSync rmSync mret M_ret].
  rewrite Hfinal, Hdir, Hfind, Hthere, Hfile, Hnone.
  cbv beta iota zeta. eexists. split; [reflexivity|]. apply exists_remove.
Qed.

(** The exit code is not zero: the working directory is removed. *)
Lemma onClose_nonzero D runId code stderrData fs :
  code ≠ Some 0 →
  ∃ fs' t,
    onClose D runId code stderrData fs = (Reject (errorMessage stderrData), fs', t)
    ∧ exists_ fs' (outDir runId) = false.
Proof.
  intros Hcode.
  assert (onClose D runId code stderrData fs
          = match (logFn ("Rendering failed with exit code " +:+ showCode code
                          +:+ ": " +:+ errorMessage stderrData);;
                   logFn "Full error output:";;
                   logFn stderrData;;
                   present ← existsSync (outDir runId);
                   if (present : bool) then rmSync runId else mret tt) fs with
            | (_, fs', t) => (Reject (errorMessage stderrData), fs', t)
            end) as ->.
  { destruct code as [[|?|?]|]; done. }
  unfold mbind, M_bind, existsSync, logFn, emit, rmSync, mret, M_ret.
  destruct (exists_ fs (outDir runId)) eqn:Hout; simpl; eexists _, _;
    (split; [reflexivity|]); [apply exists_remove|done].
Qed.

(** *** The whole call *)

Lemma generateWithManim_close D code runId cmd output effect exitCode fs :
  ∃ t0 : list event,
    (∀ e : event, e ∈ t0 → ¬ searches runId e)
    ∧ generateWithManim D code runId (Ok cmd) (Runs output effect exitCode) fs
      = let '(settled, fs2, t3) :=
          onClose D runId exitCode (stderrOf output)
            (treeAtClose D code runId effect fs) in
        (settled, fs2, t0 ++ t3).
Proof.
  destruct (prepare_spec D code runId fs) as (fs1 & t & Hprep & _ & Ht).
  unfold generateWithManim, treeAtClose. rewrite Hprep.
  cbv beta iota zeta delta [fst snd].
  destruct (onClose _ _ _ _ _) as [[settled fs2] t3].
  exists ((t ++ [Log "Manim executable found"; Log "Starting Manim rendering...";
                 Spawn cmd ["-qk"; "--disable_caching";
                            SCRIPTS_DIR D +:+ "/" +:+ runId +:+ ".py";
                            "GeneratedScene"; "-o"; abs D (outDir runId)]])
          ++ map (λ c, Log (dataLog c)) output).
  split; [|by rewrite <- !app_assoc].
  intros e. rewrite !elem_of_app, list_elem_of_fmap.
  intros [[He| He]|He]; [by apply Ht| |].
  - repeat (apply elem_of_cons in He as [->|He]); try (by apply elem_of_nil in He);
      simpl; tauto.
  - destruct He as (c & -> & _). simpl. tauto.
Qed.

(** When the process cannot be started, or when no Manim executable is
    found, the call rejects and the directory made in step 1 stays. *)
Lemma spawn_failure_keeps_directory D code runId cmd msg fs :
  ∃ fs1 t,
    generateWithManim D code runId (Ok cmd) (SpawnFails msg) fs
    = (Reject ("Failed to start Manim: " +:+ msg), fs1, t)
    ∧ exists_ fs1 (outDir runId) = true.
Proof.
  destruct (prepare_spec D code runId fs) as (fs1 & t & Hprep & Hdir & _).
  unfold generateWithManim. rewrite Hprep. eexists _, _. split; [reflexivity|done].
Qed.

Lemma detection_failure_keeps_directory D code runId msg p fs :
  ∃ fs1 t,
    generateWithManim D code runId (Throw msg) p fs = (Reject msg, fs1, t)
    ∧ exists_ fs1 (outDir runId) = true.
Proof.
  destruct (prepare_spec D code runId fs) as (fs1 & t & Hprep & Hdir & _).
  unfold generateWithManim. rewrite Hprep. eexists _, _. split; [reflexivity|done].
Qed.

(** *** The claims on the Manim renderer *)

(** C1, where the code departs from it. When the CLI exits with code
    zero, the video of the job is not in place, neither the recursive
    search nor the common locations give a video, and no partial file
    is found, the call rejects with "Could not find GeneratedScene.mp4"
    and leaves the media tree as the process left it: the working
    directory still exists after the call. *)
Theorem C1_no_output_keeps_directory
    D code runId cmd output effect fs items t1 t2 :
  let fs1 := treeAtClose D code runId effect fs in
  exists_ fs1 (finalVideoPath runId) = false →
  lookup fs1 (outDir runId) = Some (Dir items) →
  findIn D (outDir runId) (Dir items) = (Ok None, t1) →
  (∀ loc, loc ∈ commonLocations runId → exists_ fs1 loc = false) →
  partialIn D (outDir runId) (Dir items) = (Ok [], t2) →
  ∃ trace,
    generateWithManim D code runId (Ok cmd) (Runs output effect (Some 0)) fs
    = (Reject ("Could not find GeneratedScene.mp4 in " +:+ abs D (outDir runId)
               +:+ ". Manim may have failed silently."), fs1, trace)
    ∧ exists_ fs1 (outDir runId) = true.
Proof.
  intros fs1 Hfinal Hdir Hfind Hcommon Hpartial.
  destruct (generateWithManim_close D code runId cmd output effect (Some 0) fs)
    as (t0 & _ & ->).
  destruct (onClose_no_output D runId (stderrOf output) fs1 items t1 t2
              Hfinal Hdir Hfind Hcommon Hpartial) as (t & Hclose).
  fold fs1. rewrite Hclose. eexists. split; [reflexivity|].
  unfold exists_. by rewrite Hdir.
Qed.

Lemma C1_witness :
  treeAtClose dirs0 [] "job1" (λ fs, fs) [] = [("job1", Dir [])]
  ∧ ∃ trace,
      generateWithManim dirs0 [] "job1" (Ok "/usr/bin/manim") proc_silent []
      = (Reject "Could not find GeneratedScene.mp4 in /app/media/videos/job1. Manim may have failed silently.",
         [("job1", Dir [])], trace)
      ∧ exists_ [("job1", Dir [])] (outDir "job1") = true.
Proof.
  split; [reflexivity|].
  eapply (C1_no_output_keeps_directory dirs0 [] "job1" "/usr/bin/manim" []
            (λ fs, fs) [] []); try reflexivity.
  intros loc Hloc. unfold commonLocations in Hloc.
  repeat (apply elem_of_cons in Hloc as [->|Hloc]); try reflexivity.
  by apply elem_of_nil in Hloc.
Defined.

(** C5, amended. When the CLI exits with code zero, the video of the
    job is not yet at its canonical path, neither the recursive search
    nor the common locations give a video, partial files are found,
    and no GeneratedScene.mp4 lies directly in the media directory, the
    call rejects with the "incomplete render" error and the working
    directory does not exist afterwards. *)
Theorem C5_incomplete_render
    D code runId cmd output effect fs items partials t1 t2 :
  let fs1 := treeAtClose D code runId effect fs in
  exists_ fs1 (finalVideoPath runId) = false →
  lookup fs1 (outDir runId) = Some (Dir items) →
  findIn D (outDir runId) (Dir items) = (Ok None, t1) →
  (∀ loc, loc ∈ commonLocations runId → exists_ fs1 loc = false) →
  partialIn D (outDir runId) (Dir items) = (Ok partials, t2) →
  partials ≠ [] →
  exists_ fs1 [rootVideoName] = false →
  ∃ fs' trace,
    generateWithManim D code runId (Ok cmd) (Runs output effect (Some 0)) fs
    = (Reject "Manim rendering incomplete: Final video assembly failed. This may be due to complex animations or system resource constraints. Try simplifying the prompt.",
       fs', trace)
    ∧ exists_ fs' (outDir runId) = false.
Proof.
  intros fs1 Hfinal Hdir Hfind Hcommon Hpartial Hsome Hroot.
  destruct (generateWithManim_close D code runId cmd output effect (Some 0) fs)
    as (t0 & _ & ->).
  destruct (onClose_incomplete D runId (stderrOf output) fs1 items partials t1 t2
              Hfinal Hdir Hfind Hcommon Hpartial Hsome Hroot) as (t & Hclose).
  fold fs1. rewrite Hclose. eexists _, _. split; [reflexivity|].
  apply exists_remove.
Qed.

Lemma C5_witness :
  treeAtClose dirs0 [] "job1" (put "job1" partial_tree) [] = [("job1", partial_tree)]
  ∧ fst (partialIn dirs0 (outDir "job1") partial_tree)
    = Ok [["job1"; "videos"; "partial_movie_files"; "uncached_00000.mp4"]]
  ∧ ∃ fs' trace,
      generateWithManim dirs0 [] "job1" (Ok "/usr/bin/manim") proc_partial []
      = (Reject "Manim rendering incomplete: Final video assembly failed. This may be due to complex animations or system resource constraints. Try simplifying the prompt.",
         fs', trace)
      ∧ exists_ fs' (outDir "job1") = false.
Proof.
  split; [reflexivity|]. split; [reflexivity|].
  eapply (C5_incomplete_render dirs0 [] "job1" "/usr/bin/manim" _
            (put "job1" partial_tree) []); try reflexivity.
  - intros loc Hloc. unfold commonLocations in Hloc.
    repeat (apply elem_of_cons in Hloc as [->|Hloc]); try reflexivity.
    by apply elem_of_nil in Hloc.
  - discriminate.
Defined.

(** With a GeneratedScene.mp4 lying directly in the media directory,
    the same render does not reject: the stray file is taken as the
    video of the job. *)
Lemma C5_counterexample :
  let fs1 := treeAtClose dirs0 [] "job1" (put "job1" partial_tree) stray_root in
  exists_ fs1 (finalVideoPath "job1") = false
  ∧ fst (findIn dirs0 (outDir "job1") partial_tree) = Ok None
  ∧ (∀ loc, loc ∈ commonLocations "job1" → exists_ fs1 loc = false)
  ∧ fst (partialIn dirs0 (outDir "job1") partial_tree)
    = Ok [["job1"; "videos"; "partial_movie_files"; "uncached_00000.mp4"]]
  ∧ ∃ trace,
      generateWithManim dirs0 [] "job1" (Ok "/usr/bin/manim") proc_partial stray_root
      = (Resolve "/app/media/videos/job1.mp4", [("job1.mp4", File "stray")], trace).
Proof.
  split; [reflexivity|]. split; [reflexivity|]. split; [|split; [reflexivity|]].
  - intros loc Hloc. unfold commonLocations in Hloc.
    repeat (apply elem_of_cons in Hloc as [->|Hloc]); try reflexivity.
    by apply elem_of_nil in Hloc.
  - eexists. vm_compute. reflexivity.
Qed.

(** C6. When the CLI exits with code zero and the video of the job is
    already at its canonical path, the call resolves to that path, which
    is still there afterwards, and makes none of the calls of the
    search: it lists and inspects no directory and tests none of the
    common locations. *)
Theorem C6_short_circuit D code runId cmd output effect fs :
  exists_ (treeAtClose D code runId effect fs) (finalVideoPath runId) = true →
  ∃ fs' trace,
    generateWithManim D code runId (Ok cmd) (Runs output effect (Some 0)) fs
    = (Resolve (abs D (finalVideoPath runId)), fs', trace)
    ∧ exists_ fs' (finalVideoPath runId) = true
    ∧ ∀ e, e ∈ trace → ¬ searches runId e.
Proof.
  intros Hfinal.
  destruct (generateWithManim_close D code runId cmd output effect (Some 0) fs)
    as (t0 & Ht0 & ->).
  destruct (onClose_short_circuit D runId (stderrOf output) _ Hfinal)
    as (fs' & t & Hclose & _ & Hthere & Ht).
  rewrite Hclose. exists fs', (t0 ++ t). split; [reflexivity|]. split; [done|].
  intros e [He|He]%elem_of_app; [by apply Ht0|by apply Ht].
Qed.

Lemma C6_witness :
  exists_ (treeAtClose dirs0 [] "job1" (put "job1" partial_tree) already_rendered)
    (finalVideoPath "job1") = true
  ∧ ∃ fs' trace,
      generateWithManim dirs0 [] "job1" (Ok "/usr/bin/manim") proc_again already_rendered
      = (Resolve "/app/media/videos/job1.mp4", fs', trace)
      ∧ exists_ fs' (finalVideoPath "job1") = true
      ∧ ∀ e, e ∈ trace → ¬ searches "job1" e.
Proof.
  split; [reflexivity|].
  apply (C6_short_circuit dirs0 [] "job1" "/usr/bin/manim" []
           (put "job1" partial_tree) already_rendered).
  reflexivity.
Defined.

End ManimFacts.

(** ** The p5 renderer *)

Section P5Facts.
Import JsString P5 Scenarios.


Lemma screenshots_app t1 t2 : screenshots (t1 ++ t2) = screenshots t1 ++ screenshots t2.
Proof.
  induction t1 as [|e t1 IH]; [done|]. destruct e; simpl; by rewrite ?IH.
Qed.

(** For a whole number [i], [i < x] is [i < ⌈x⌉]. *)
Lemma lt_ceiling (i : Z) (x : Q) : (inject_Z i < x)%Q → i < Qceiling x.
Proof.
  intros H. rewrite Zlt_Qlt. eapply Qlt_le_trans; [exact H|]. apply Qle_ceiling.
Qed.









End P5Facts.

(** ** The job table and the log stream *)

Section ServerFacts.
Import JsString Server.
Variable V : variant.

(** *** [sendLogs] writes the lines not yet sent *)

Lemma sendLoop_drop fuel allLogs i s :
  (i ≤ length allLogs)%nat → (length allLogs - i ≤ fuel)%nat →
  sendLoop fuel allLogs i s = (length allLogs, s ++ map Data (drop i allLogs)).
Proof.
  revert i s. induction fuel as [|fuel IH]; intros i s Hi Hfuel; simpl.
  - assert (i = length allLogs) as -> by lia.
    by rewrite drop_all, app_nil_r.
  - destruct (allLogs !! i) as [log|] eqn:Hlog.
    + pose proof (lookup_lt_Some _ _ _ Hlog).
      rewrite IH by lia.
      rewrite (drop_S _ _ _ Hlog). simpl. by rewrite <- app_assoc.
    + apply lookup_ge_None in Hlog.
      assert (i = length allLogs) as -> by lia.
      by rewrite drop_all, app_nil_r.
Qed.

Lemma sendLogs_all j c :
  (lastIndex c ≤ length (logs j))%nat →
  sendLogs j c
  = Client (c_runId c) (length (logs j))
      (sent c ++ map Data (drop (lastIndex c) (logs j))) (polling c).
Proof.
  intros Hi. unfold sendLogs. by rewrite sendLoop_drop by lia.
Qed.



(** After [sendLogs] a stream in order has the whole log. *)
Lemma sendLogs_streamOk j c :
  (lastIndex c ≤ length (logs j))%nat →
  sent c = map Data (take (lastIndex c) (logs j)) →
  sent (sendLogs j c) = map Data (logs j)
  ∧ lastIndex (sendLogs j c) = length (logs j)
  ∧ polling (sendLogs j c) = polling c
  ∧ c_runId (sendLogs j c) = c_runId c.
Proof.
  intros Hi Hs. rewrite sendLogs_all by done. simpl.
  rewrite Hs, <- map_app, take_drop. done.
Qed.

(** *** Every step keeps the state consistent *)

Lemma rendererCalled_app st r o :
  rendererCalled (State (jobs st) (tasks st) (clients st) (out st ++ o)) r
  = rendererCalled st r || existsb (isCall r) o.
Proof. unfold rendererCalled. simpl. by rewrite existsb_app. Qed.

Lemma streamOk_grow j j' c :
  streamOk j c → jstatus j = pending →
  (∃ extra, logs j' = logs j ++ extra) →
  streamOk j' c.
Proof.
  intros [Hi Hs] Hp [extra He]. split.
  - rewrite He, length_app. lia.
  - destruct Hs as [Hs|(_ & Hd & _)]; [|congruence].
    left. rewrite He, take_app_le by done. done.
Qed.

(** A step of the handler or of the callback of job [r]: it appends to
    the log of [r], moves on in the job's phases and may call the
    renderer for [r]. *)
Lemma consistent_alter st r ph ph' f o :
  consistent st →
  tasks st !! r = Some ph → ph ≠ Finished →
  (∀ j, ∃ extra, logs (f j) = logs j ++ extra) →
  (∀ j, jstatus j = pending → (jstatus (f j) = done ↔ ph' = Finished)) →
  (∀ r', existsb (isCall r') o = true → r' = r) →
  (rendererCalled st r = true ∨ existsb (isCall r) o = true →
   ph' = Rendering ∨ ph' = Finished) →
  consistent (State (alter f r (jobs st)) (<[r := ph']> (tasks st))
                    (clients st) (out st ++ o)).
Proof.
  intros [Hids Hdone Hcall Hstr] Hph Hne Hlogs Hst Ho Hr.
  assert (∃ j, jobs st !! r = Some j) as [j Hj].
  { destruct (jobs st !! r) eqn:E; [eauto|]. apply Hids in E. congruence. }
  assert (jstatus j = pending) as Hpend.
  { destruct (jstatus j) eqn:E; [done|].
    destruct (Hdone r j ph Hj Hph) as [H _]. by specialize (H E). }
  split; simpl.
  - intros r'. destruct (decide (r = r')) as [<-|Hn].
    + rewrite lookup_alter_eq, lookup_insert_eq, Hj. simpl. split; discriminate.
    + rewrite lookup_alter_ne, lookup_insert_ne by done. apply Hids.
  - intros r' j' p'. destruct (decide (r = r')) as [<-|Hn].
    + rewrite lookup_alter_eq, lookup_insert_eq, Hj. simpl.
      intros [= <-] [= <-]. by apply Hst.
    + rewrite lookup_alter_ne, lookup_insert_ne by done. apply Hdone.
  - intros r'.
    change (rendererCalled (State (jobs st) (tasks st) (clients st) (out st ++ o)) r' = true
            → <[r:=ph']> (tasks st) !! r' = Some Rendering
              ∨ <[r:=ph']> (tasks st) !! r' = Some Finished).
    rewrite rendererCalled_app, orb_true_iff.
    destruct (decide (r = r')) as [<-|Hn].
    + rewrite lookup_insert_eq. intros H. destruct (Hr H) as [->| ->]; eauto.
    + rewrite lookup_insert_ne by done. intros [H|H]; [by apply Hcall|].
      apply Ho in H. congruence.
  - intros i c Hc. destruct (Hstr i c Hc) as (jc & Hjc & Hok).
    destruct (decide (r = c_runId c)) as [Heq|Hn].
    + rewrite <- Heq in *. rewrite lookup_alter_eq, Hj. simpl.
      exists (f j). split; [done|].
      assert (jc = j) as -> by congruence.
      by apply (streamOk_grow j).
    + rewrite lookup_alter_ne by done. eauto.
Qed.


Lemma isCall_eq r r' e code d : isCall r' (CallRenderer e code r d) = true → r' = r.
Proof. simpl. intros H. symmetry. by apply String.eqb_eq. Qed.

Lemma not_called st r ph :
  consistent st → tasks st !! r = Some ph → ph ≠ Rendering → ph ≠ Finished →
  rendererCalled st r = false.
Proof.
  intros Hc Hph H1 H2. destruct (rendererCalled st r) eqn:E; [|done].
  destruct (called_rendering st Hc r E); congruence.
Qed.

Lemma state_eta st : st = State (jobs st) (tasks st) (clients st) (out st).
Proof. by destruct st. Qed.

(** A step that changes one stream only. *)
Lemma consistent_client st i c c' :
  consistent st → clients st !! i = Some c →
  c_runId c' = c_runId c →
  (∀ j, jobs st !! c_runId c = Some j → streamOk j c → streamOk j c') →
  consistent (State (jobs st) (tasks st) (<[i := c']> (clients st)) (out st)).
Proof.
  intros [Hids Hdone Hcall Hstr] Hc Hid Hok. split; simpl; try done.
  intros k ck Hk. destruct (decide (i = k)) as [<-|Hn].
  - rewrite list_lookup_insert_eq in Hk by apply (lookup_lt_Some _ _ _ Hc).
    injection Hk as <-. destruct (Hstr i c Hc) as (j & Hj & Hs).
    exists j. rewrite Hid. split; [done|]. by apply Hok.
  - rewrite list_lookup_insert_ne in Hk by done. by apply (Hstr k).
Qed.

Lemma consistent_step st l st' :
  consistent st →
  (∀ r, r ∈ posted [l] → jobs st !! r = None) →
  step V st l = Some st' →
  consistent st'.
Proof.
  intros Hc Hfresh Hstep.
  destruct l as [r prompt engine d|r resp|r|r msg|r o|r|i|i]; simpl in Hstep.
  - (* PostGenerate *)
    injection Hstep as <-.
    assert (jobs st !! r = None) as Hj by (apply Hfresh; simpl; set_solver).
    assert (tasks st !! r = None) as Ht by (by apply (same_ids st Hc)).
    destruct Hc as [Hids Hdone Hcall Hstr]. split; simpl.
    + intros r'. destruct (decide (r = r')) as [<-|Hn].
      * rewrite !lookup_insert_eq. split; discriminate.
      * rewrite !lookup_insert_ne by done. apply Hids.
    + intros r' j' p'. destruct (decide (r = r')) as [<-|Hn].
      * rewrite !lookup_insert_eq. intros [= <-] [= <-]. simpl. split; discriminate.
      * rewrite !lookup_insert_ne by done. apply Hdone.
    + intros r' H. change (rendererCalled st r' = true) in H.
      destruct (decide (r = r')) as [<-|Hn].
      * destruct (Hcall r H); congruence.
      * rewrite lookup_insert_ne by done. by apply Hcall.
    + intros i c Hi. destruct (Hstr i c Hi) as (j & Hjc & Hok).
      exists j. split; [|done].
      rewrite lookup_insert_ne; [done|]. intros Heq. rewrite <- Heq in Hjc. congruence.
  - (* CodegenSettles *)
    destruct (tasks st !! r) as [[p e d| | | |]|] eqn:Hph; try discriminate.
    destruct (codegen V p e resp) as [code|msg]; injection Hstep as <-.
    + apply (consistent_alter st r _ _ _ _ Hc Hph); try done.
      * intros j. by exists ["Code generation completed"].
      * intros j Hp. simpl. rewrite Hp. split; discriminate.
      * rewrite (not_called st r _ Hc Hph) by done. simpl. intros [|]; discriminate.
    + rewrite <- (alter_id id (jobs st) r) at 1 by done.
      apply (consistent_alter st r _ _ _ _ Hc Hph); try done.
      * intros j. exists []. by rewrite app_nil_r.
      * intros j Hp. simpl. rewrite Hp. split; discriminate.
      * rewrite (not_called st r _ Hc Hph) by done. simpl. intros [|]; discriminate.
  - (* RunImmediate *)
    destruct (tasks st !! r) as [[| e code d | | |]|] eqn:Hph; try discriminate.
    destruct (String.eqb e "p5" || String.eqb e "manim"); injection Hstep as <-.
    + apply (consistent_alter st r _ _ _ _ Hc Hph); try done.
      * intros j. by eexists.
      * intros j Hp. simpl. rewrite Hp. split; discriminate.
      * intros r'. simpl. rewrite orb_false_r. intros H. by apply isCall_eq in H.
      * intros _. by left.
    + rewrite alter_alter_eq, <- (app_nil_r (out st)).
      apply (consistent_alter st r _ _ _ _ Hc Hph); try done.
      * intros j. simpl. rewrite <- app_assoc. by eexists.
      * intros _. by right.
  - (* RendererLogs *)
    destruct (tasks st !! r) as [[| | | |]|] eqn:Hph; try discriminate.
    injection Hstep as <-.
    rewrite <- (insert_id (tasks st) r Rendering) by done.
    rewrite <- (app_nil_r (out st)).
    apply (consistent_alter st r _ _ _ _ Hc Hph); try done.
    + intros j. by eexists.
    + intros j Hp. simpl. rewrite Hp. split; discriminate.
    + intros _. by left.
  - (* RendererSettles *)
    destruct (tasks st !! r) as [[| | | |]|] eqn:Hph; try discriminate.
    injection Hstep as <-.
    rewrite <- (app_nil_r (out st)).
    apply (consistent_alter st r _ _ _ _ Hc Hph); try done.
    + intros j. destruct o; by eexists.
    + intros j Hp. by destruct o.
    + intros _. by right.
  - (* GetLogs *)
    destruct (jobs st !! r) as [j|] eqn:Hj; injection Hstep as <-.
    + destruct Hc as [Hids Hdone Hcall Hstr]. split; simpl; try done.
      intros i c Hi. apply lookup_app_Some in Hi as [Hi|[_ Hi]]; [by apply (Hstr i)|].
      apply list_lookup_singleton_Some in Hi as [_ <-].
      destruct (sendLogs_streamOk j (Client r 0 [] true)) as (Hs & Hl & Hp & Hr);
        simpl; [lia|done|].
      exists j. rewrite Hr. simpl. split; [done|].
      split; [lia|]. left. rewrite Hs, Hl. by rewrite firstn_all.
    + destruct Hc as [Hids Hdone Hcall Hstr]. split; simpl; try done.
      intros r' H. apply Hcall. unfold rendererCalled in *. simpl in H.
      rewrite existsb_app in H. simpl in H. by rewrite !orb_false_r in H.
  - (* Tick *)
    destruct (clients st !! i) as [c|] eqn:Hi; [|discriminate].
    destruct (polling c) eqn:Hpoll; [|discriminate].
    destruct (jobs st !! c_runId c) as [j|] eqn:Hj; [|discriminate].
    injection Hstep as <-.
    apply (consistent_client st i c); try done.
    + by destruct (jstatus j); unfold sendLogs;
        destruct (sendLoop _ _ _ _).
    + intros j' Hj' [Hle Hs]. assert (j' = j) as -> by congruence.
      destruct Hs as [Hs|(Hp & _)]; [|congruence].
      destruct (sendLogs_streamOk j c Hle Hs) as (Hs' & Hl' & Hp' & Hr').
      destruct (jstatus j) eqn:Hst; split; simpl; try lia.
      * left. rewrite Hs', Hl'. by rewrite firstn_all.
      * right. by rewrite Hs'.
  - (* Disconnect *)
    destruct (clients st !! i) as [c|] eqn:Hi; [|discriminate].
    injection Hstep as <-.
    apply (consistent_client st i c); try done.
    intros j _ [Hle Hs]. split; [done|]. simpl.
    destruct Hs as [Hs|(Hp & Hd & Hs)]; [by left|by right].
Qed.


Lemma consistent_init : consistent init.
Proof.
  split; unfold init; simpl.
  - intros r. by rewrite !lookup_empty.
  - intros r j ph. by rewrite lookup_empty.
  - intros r. unfold rendererCalled. simpl. discriminate.
  - intros i c. by rewrite lookup_nil.
Qed.

(** *** What a step does to the jobs *)

Lemma alter_job st r' ph f :
  consistent st → tasks st !! r' = Some ph → ph ≠ Finished →
  (∀ j, logs j `prefix_of` logs (f j)) →
  ∀ r j, jobs st !! r = Some j →
    ∃ j1, alter f r' (jobs st) !! r = Some j1
          ∧ logs j `prefix_of` logs j1 ∧ (jstatus j = done → j1 = j).
Proof.
  intros Hc Hph Hne Hf r j Hj. destruct (decide (r' = r)) as [->|Hn].
  - rewrite lookup_alter_eq, Hj. simpl. exists (f j). split; [done|].
    split; [done|]. intros Hd.
    destruct (done_finished st Hc r j ph Hj Hph) as [H _]. by specialize (H Hd).
  - rewrite lookup_alter_ne by done. by exists j.
Qed.

(** A step keeps every job, only appends to its log, and leaves a job
    that is done as it is. *)
Lemma step_job st l st1 :
  consistent st →
  (∀ r, r ∈ posted [l] → jobs st !! r = None) →
  step V st l = Some st1 →
  ∀ r j, jobs st !! r = Some j →
    ∃ j1, jobs st1 !! r = Some j1
          ∧ logs j `prefix_of` logs j1 ∧ (jstatus j = done → j1 = j).
Proof.
  intros Hc Hfresh Hstep r j Hj.
  assert (∃ j1, jobs st !! r = Some j1 ∧ logs j `prefix_of` logs j1
                ∧ (jstatus j = done → j1 = j)) as Hsame by (by exists j).
  destruct l as [r' prompt engine d|r' resp|r'|r' msg|r' o|r'|i|i]; simpl in Hstep.
  - injection Hstep as <-. simpl.
    rewrite lookup_insert_ne; [done|]. intros ->.
    rewrite Hfresh in Hj; [done|]. simpl. apply list_elem_of_here.
  - destruct (tasks st !! r') as [[p e d| | | |]|] eqn:Hph; try discriminate.
    destruct (codegen V p e resp); injection Hstep as <-; simpl; [|done].
    apply (alter_job st r' _ _ Hc Hph); [done| |done].
    intros j'. by apply prefix_app_r.
  - destruct (tasks st !! r') as [[| e code d | | |]|] eqn:Hph; try discriminate.
    destruct (String.eqb e "p5" || String.eqb e "manim");
      injection Hstep as <-; simpl.
    + apply (alter_job st r' _ _ Hc Hph); [done| |done].
      intros j'. by apply prefix_app_r.
    + rewrite alter_alter_eq.
      apply (alter_job st r' _ _ Hc Hph); [done| |done].
      intros j'. simpl. rewrite <- app_assoc. by apply prefix_app_r.
  - destruct (tasks st !! r') as [[| | | |]|] eqn:Hph; try discriminate.
    injection Hstep as <-; simpl.
    apply (alter_job st r' _ _ Hc Hph); [done| |done].
    intros j'. by apply prefix_app_r.
  - destruct (tasks st !! r') as [[| | | |]|] eqn:Hph; try discriminate.
    injection Hstep as <-; simpl.
    apply (alter_job st r' _ _ Hc Hph); [done| |done].
    intros j'. destruct o; by apply prefix_app_r.
  - destruct (jobs st !! r'); by injection Hstep as <-.
  - destruct (clients st !! i) as [c|]; [|discriminate].
    destruct (polling c); [|discriminate].
    destruct (jobs st !! c_runId c); [|discriminate].
    by injection Hstep as <-.
  - destruct (clients st !! i) as [c|]; [|discriminate].
    by injection Hstep as <-.
Qed.

(** Only a request adds a job. *)
Lemma step_jobs_none st l st1 r :
  step V st l = Some st1 → jobs st !! r = None → r ∉ posted [l] →
  jobs st1 !! r = None.
Proof.
  intros Hstep Hj Hr.
  destruct l as [r' prompt engine d|r' resp|r'|r' msg|r' o|r'|i|i]; simpl in Hstep.
  - injection Hstep as <-. simpl. rewrite lookup_insert_ne; [done|].
    intros ->. apply Hr. simpl. set_solver.
  - destruct (tasks st !! r') as [[p e d| | | |]|]; try discriminate.
    destruct (codegen V p e resp); injection Hstep as <-; simpl; [|done].
    by rewrite lookup_alter_None.
  - destruct (tasks st !! r') as [[| e code d | | |]|]; try discriminate.
    destruct (String.eqb e "p5" || String.eqb e "manim");
      injection Hstep as <-; simpl; by rewrite !lookup_alter_None.
  - destruct (tasks st !! r') as [[| | | |]|]; try discriminate.
    injection Hstep as <-; simpl. by rewrite lookup_alter_None.
  - destruct (tasks st !! r') as [[| | | |]|]; try discriminate.
    injection Hstep as <-; simpl. by rewrite lookup_alter_None.
  - destruct (jobs st !! r'); by injection Hstep as <-.
  - destruct (clients st !! i) as [c|]; [|discriminate].
    destruct (polling c); [|discriminate].
    destruct (jobs st !! c_runId c); [|discriminate].
    by injection Hstep as <-.
  - destruct (clients st !! i) as [c|]; [|discriminate].
    by injection Hstep as <-.
Qed.

Lemma step_jobs_posted st l st1 r :
  step V st l = Some st1 → r ∈ posted [l] → is_Some (jobs st1 !! r).
Proof.
  intros Hstep Hr. destruct l; simpl in Hr; try by inversion Hr.
  apply list_elem_of_singleton in Hr as ->.
  simpl in Hstep. injection Hstep as <-. simpl. rewrite lookup_insert_eq. eauto.
Qed.

Lemma posted_cons l ls : posted (l :: ls) = posted [l] ++ posted ls.
Proof. by destruct l. Qed.

Lemma posted_app ls1 ls2 : posted (ls1 ++ ls2) = posted ls1 ++ posted ls2.
Proof.
  induction ls1 as [|l ls1 IH]; [done|].
  rewrite <- app_comm_cons, (posted_cons l), (posted_cons l ls1), IH.
  by rewrite app_assoc.
Qed.

Lemma freshIds_step st l ls st1 :
  freshIds st (l :: ls) → step V st l = Some st1 →
  (∀ r, r ∈ posted [l] → jobs st !! r = None) ∧ freshIds st1 ls.
Proof.
  unfold freshIds. rewrite posted_cons. intros [Hnd Hnone] Hstep.
  apply NoDup_app in Hnd as (Hnd1 & Hdisj & Hnd2).
  split; [intros r Hr; apply Hnone; set_solver|].
  split; [done|]. intros r Hr.
  apply (step_jobs_none st l); [done| |].
  - apply Hnone. set_solver.
  - intros Hr'. by apply (Hdisj r).
Qed.

(** *** Runs *)

Lemma run_app st ls1 ls2 :
  run V st (ls1 ++ ls2)
  = match run V st ls1 with Some st1 => run V st1 ls2 | None => None end.
Proof.
  revert st. induction ls1 as [|l ls1 IH]; intros st; simpl; [done|].
  destruct (step V st l); [apply IH|done].
Qed.

(** A property kept by every step holds at the end of a run. *)
Lemma run_invariant (I : state → Prop) :
  (∀ st l st1,
     consistent st → I st → (∀ r, r ∈ posted [l] → jobs st !! r = None) →
     step V st l = Some st1 → I st1) →
  ∀ ls st st',
    consistent st → I st → freshIds st ls → run V st ls = Some st' →
    consistent st' ∧ I st'.
Proof.
  intros Hkeep. induction ls as [|l ls IH]; intros st st' Hc HI Hf Hrun.
  - injection Hrun as <-. done.
  - simpl in Hrun. destruct (step V st l) as [st1|] eqn:Hstep; [|discriminate].
    destruct (freshIds_step _ _ _ _ Hf Hstep) as [Hl Hf1].
    apply (IH st1); [by apply (consistent_step st l)|by eapply Hkeep|done|done].
Qed.

Lemma consistent_run ls st st' :
  consistent st → freshIds st ls → run V st ls = Some st' → consistent st'.
Proof.
  intros Hc Hf Hrun.
  by destruct (run_invariant (λ _, True) ltac:(done) ls st st' Hc I Hf Hrun).
Qed.

Lemma freshIds_init ls : NoDup (posted ls) → freshIds init ls.
Proof. intros H. split; [done|]. intros r _. apply lookup_empty. Qed.

Lemma freshIds_app st ls1 ls2 st1 :
  freshIds st (ls1 ++ ls2) → run V st ls1 = Some st1 →
  freshIds st ls1 ∧ freshIds st1 ls2.
Proof.
  revert st. induction ls1 as [|l ls1 IH]; intros st Hf Hrun.
  - injection Hrun as <-. split; [|done]. split; [constructor|]. intros r Hr. inversion Hr.
  - simpl in Hrun. destruct (step V st l) as [st2|] eqn:Hstep; [|discriminate].
    rewrite <- app_comm_cons in Hf.
    destruct (freshIds_step _ _ _ _ Hf Hstep) as [Hl Hf2].
    destruct (IH st2 Hf2 Hrun) as [Hf3 Hf4]. split; [|done].
    destruct Hf as [Hnd Hnone]. rewrite posted_cons, posted_app in Hnd, Hnone.
    unfold freshIds. rewrite posted_cons. split.
    + rewrite app_assoc in Hnd. by apply NoDup_app in Hnd as (? & _ & _).
    + intros r Hr. apply Hnone. rewrite app_assoc, elem_of_app. by left.
Qed.

Lemma step_jobs_some st l st1 r :
  step V st l = Some st1 → is_Some (jobs st !! r) → is_Some (jobs st1 !! r).
Proof.
  intros Hstep Hj.
  destruct l as [r' prompt engine d|r' resp|r'|r' msg|r' o|r'|i|i];
    simpl in Hstep;
    repeat match type of Hstep with
           | context [match ?x with _ => _ end] => destruct x
           end;
    try discriminate; injection Hstep as <-; simpl;
    rewrite ?lookup_alter_is_Some; try done.
  rewrite lookup_insert_is_Some. destruct (decide (r' = r)); eauto.
Qed.

Lemma run_jobs_some ls st st' r :
  run V st ls = Some st' → is_Some (jobs st !! r) → is_Some (jobs st' !! r).
Proof.
  revert st. induction ls as [|l ls IH]; intros st Hrun Hj.
  - by injection Hrun as <-.
  - simpl in Hrun. destruct (step V st l) as [st1|] eqn:Hstep; [|discriminate].
    apply (IH st1 Hrun). by apply (step_jobs_some st l).
Qed.

(** The jobs of the table are those of the requests of the run. *)
Lemma run_jobs ls st st' r :
  run V st ls = Some st' →
  jobs st !! r = None →
  (is_Some (jobs st' !! r) ↔ r ∈ posted ls).
Proof.
  revert st. induction ls as [|l ls IH]; intros st Hrun Hj.
  - injection Hrun as <-. rewrite Hj. split; [by intros [? ?]|by intros ?%elem_of_nil].
  - simpl in Hrun. destruct (step V st l) as [st1|] eqn:Hstep; [|discriminate].
    rewrite posted_cons, elem_of_app.
    destruct (decide (r ∈ posted [l])) as [Hin|Hout].
    + split; [by left|]. intros _.
      apply (run_jobs_some ls st1); [done|]. by apply (step_jobs_posted st l).
    + rewrite <- (IH st1 Hrun); [tauto|].
      by apply (step_jobs_none st l).
Qed.

(** *** The statuses of a job along a run *)

Lemma statusTrace_head st ls r :
  ∃ tl, statusTrace V st ls r = statusOf st r :: tl.
Proof. destruct ls; simpl; eauto. Qed.

Lemma shape_head (a b c : nat) (s : status) tl :
  replicate a None ++ replicate b (Some pending) ++ replicate c (Some done)
  = Some s :: tl →
  a = 0%nat ∧ (s = done → b = 0%nat).
Proof.
  destruct a; [|discriminate]. split; [done|]. intros ->.
  destruct b; [done|discriminate].
Qed.

Lemma statusTrace_shape ls st r :
  consistent st → freshIds st ls →
  ∃ a b c : nat,
    statusTrace V st ls r
    = replicate a None ++ replicate b (Some pending) ++ replicate c (Some done).
Proof.
  assert (∀ o : option status, ∃ a b c : nat,
            [o] = replicate a None ++ replicate b (Some pending)
                  ++ replicate c (Some done)) as Hone.
  { intros [[]|]; [by exists 0%nat, 1%nat, 0%nat
                  |by exists 0%nat, 0%nat, 1%nat
                  |by exists 1%nat, 0%nat, 0%nat]. }
  revert st. induction ls as [|l ls IH]; intros st Hc Hf; simpl; [apply Hone|].
  destruct (step V st l) as [st1|] eqn:Hstep; [|apply Hone].
  destruct (freshIds_step _ _ _ _ Hf Hstep) as [Hl Hf1].
  pose proof (consistent_step st l st1 Hc Hl Hstep) as Hc1.
  destruct (IH st1 Hc1 Hf1) as (a & b & c & Hshape).
  destruct (statusTrace_head st1 ls r) as [tl Htl].
  rewrite Hshape. unfold statusOf at 1.
  destruct (jobs st !! r) as [j|] eqn:Hj; simpl.
  - destruct (step_job st l st1 Hc Hl Hstep r j Hj) as (j1 & Hj1 & _ & Hdone).
    rewrite Hshape in Htl. unfold statusOf in Htl. rewrite Hj1 in Htl. simpl in Htl.
    destruct (shape_head _ _ _ _ _ Htl) as [-> Hb].
    destruct (jstatus j) eqn:Hs.
    + by exists 0%nat, (S b), c.
    + rewrite (Hdone eq_refl) in Hb. rewrite (Hb Hs).
      by exists 0%nat, 0%nat, (S c).
  - by exists (S a), b, c.
Qed.

(** *** A job whose code generation failed *)

Lemma failed_step st l st1 r :
  consistent st → (∀ r, r ∈ posted [l] → jobs st !! r = None) →
  tasks st !! r = Some Failed → step V st l = Some st1 →
  tasks st1 !! r = Some Failed.
Proof.
  intros Hc Hfresh Hr Hstep.
  destruct l as [r' prompt engine d|r' resp|r'|r' msg|r' o|r'|i|i];
    simpl in Hstep.
  - injection Hstep as <-. simpl. rewrite lookup_insert_ne; [done|].
    intros ->. assert (jobs st !! r = None) as Hj by (apply Hfresh; simpl; set_solver).
    apply (same_ids st Hc) in Hj. congruence.
  - destruct (tasks st !! r') as [[p e d| | | |]|] eqn:Hph; try discriminate.
    assert (r' ≠ r) by congruence.
    destruct (codegen V p e resp); injection Hstep as <-; simpl;
      by rewrite lookup_insert_ne.
  - destruct (tasks st !! r') as [[| e code d | | |]|] eqn:Hph; try discriminate.
    assert (r' ≠ r) by congruence.
    destruct (String.eqb e "p5" || String.eqb e "manim");
      injection Hstep as <-; simpl; by rewrite lookup_insert_ne.
  - destruct (tasks st !! r') as [[| | | |]|] eqn:Hph; try discriminate.
    by injection Hstep as <-.
  - destruct (tasks st !! r') as [[| | | |]|] eqn:Hph; try discriminate.
    assert (r' ≠ r) by congruence.
    injection Hstep as <-; simpl; by rewrite lookup_insert_ne.
  - destruct (jobs st !! r'); by injection Hstep as <-.
  - destruct (clients st !! i) as [c|]; [|discriminate].
    destruct (polling c); [|discriminate].
    destruct (jobs st !! c_runId c); [|discriminate].
    by injection Hstep as <-.
  - destruct (clients st !! i) as [c|]; [|discriminate].
    by injection Hstep as <-.
Qed.

Lemma failed_pending st r :
  consistent st → tasks st !! r = Some Failed →
  statusOf st r = Some pending ∧ rendererCalled st r = false.
Proof.
  intros Hc Hr. split.
  - unfold statusOf. destruct (jobs st !! r) as [j|] eqn:Hj.
    + simpl. destruct (jstatus j) eqn:Hs; [done|].
      by apply (done_finished st Hc r j Failed Hj Hr) in Hs.
    + apply (same_ids st Hc) in Hj. congruence.
  - by apply (not_called st r Failed).
Qed.

(** It stays pending, and no renderer is ever called for it. *)
Lemma failed_stays ls st st' r :
  consistent st → tasks st !! r = Some Failed →
  freshIds st ls → run V st ls = Some st' →
  tasks st' !! r = Some Failed
  ∧ statusOf st' r = Some pending ∧ rendererCalled st' r = false.
Proof.
  intros Hc Hr Hf Hrun.
  destruct (run_invariant (λ s, tasks s !! r = Some Failed)
              (λ s l s1 Hs Hrs Hl Hstep, failed_step s l s1 r Hs Hl Hrs Hstep)
              ls st st' Hc Hr Hf Hrun) as [Hc' Hr'].
  split; [done|]. by apply failed_pending.
Qed.

(** The handler answers 400 when [generateCode] throws. *)
Lemma codegen_throws_step st r prompt engine d response msg :
  tasks st !! r = Some (AwaitCodegen prompt engine d) →
  codegen V prompt engine response = Throw msg →
  ∃ st1, step V st (CodegenSettles r response) = Some st1
         ∧ tasks st1 !! r = Some Failed
         ∧ out st1 = out st ++ [RespondError 400 msg].
Proof.
  intros Hph Hgen. simpl. rewrite Hph, Hgen. eexists. split; [done|].
  simpl. by rewrite lookup_insert_eq.
Qed.

Lemma step_out st l st1 : step V st l = Some st1 → out st `prefix_of` out st1.
Proof.
  intros Hstep.
  destruct l as [r' prompt engine d|r' resp|r'|r' msg|r' o|r'|i|i];
    simpl in Hstep;
    repeat match type of Hstep with
           | context [match ?x with _ => _ end] => destruct x
           | context [if ?x then _ else _] => destruct x
           end;
    try discriminate; injection Hstep as <-; simpl;
    try done; by apply prefix_app_r.
Qed.

Lemma run_out ls st st' : run V st ls = Some st' → out st `prefix_of` out st'.
Proof.
  revert st. induction ls as [|l ls IH]; intros st Hrun.
  - by injection Hrun as <-.
  - simpl in Hrun. destruct (step V st l) as [st1|] eqn:Hstep; [|discriminate].
    etrans; [by apply (step_out st l)|by apply IH].
Qed.

(** A job whose code generation throws gets the answer 400 and no
    renderer, whatever happens before and after. *)
Lemma rejected_never_rendered ls1 ls2 st1 st r prompt engine d response msg :
  NoDup (posted (ls1 ++ CodegenSettles r response :: ls2)) →
  run V init ls1 = Some st1 →
  tasks st1 !! r = Some (AwaitCodegen prompt engine d) →
  codegen V prompt engine response = Throw msg →
  run V init (ls1 ++ CodegenSettles r response :: ls2) = Some st →
  RespondError 400 msg ∈ out st
  ∧ rendererCalled st r = false ∧ statusOf st r = Some pending.
Proof.
  intros Hnd Hrun1 Hph Hgen Hrun.
  apply freshIds_init in Hnd.
  destruct (freshIds_app _ _ _ _ Hnd Hrun1) as [Hf1 Hf2].
  pose proof (consistent_run ls1 init st1 consistent_init Hf1 Hrun1) as Hc1.
  rewrite run_app, Hrun1 in Hrun. cbn [run] in Hrun.
  destruct (codegen_throws_step st1 r _ _ _ _ _ Hph Hgen) as (st2 & Hstep & Hph2 & Hout).
  rewrite Hstep in Hrun.
  destruct (freshIds_step _ _ _ _ Hf2 Hstep) as [Hl Hf3].
  pose proof (consistent_step _ _ _ Hc1 Hl Hstep) as Hc2.
  destruct (failed_stays ls2 st2 st r Hc2 Hph2 Hf3 Hrun) as (_ & Hp & Hn).
  split; [|done].
  apply (elem_of_prefix (out st2)); [|by apply (run_out ls2)].
  rewrite Hout. set_solver.
Qed.

(** *** The claims on the job table and on the log stream *)

(** C2, amended. In a run of the server in which uuidv4() never repeats
    an id: the jobs of the table are exactly those of the requests; the
    statuses a job goes through are absent, then pending, then done, so
    its status changes from pending to done at most once and never
    back; a job whose callback has returned is done, and the steps that
    lead there can always be taken once code generation has succeeded,
    on the success and on the failure path of rendering; a job whose
    code generation failed stays pending. *)
Theorem C2_job_status_lifecycle ls st :
  NoDup (posted ls) → run V init ls = Some st →
  (∀ r, is_Some (jobs st !! r) ↔ r ∈ posted ls)
  ∧ (∀ r, ∃ a b c : nat,
       statusTrace V init ls r
       = replicate a None ++ replicate b (Some pending) ++ replicate c (Some done))
  ∧ (∀ r, tasks st !! r = Some Finished → statusOf st r = Some done)
  ∧ (∀ r prompt engine d response,
       tasks st !! r = Some (AwaitCodegen prompt engine d) →
       ∃ st1, step V st (CodegenSettles r response) = Some st1 ∧
         match codegen V prompt engine response with
         | Ok code => tasks st1 !! r = Some (Scheduled engine code d)
         | Throw _ => tasks st1 !! r = Some Failed
         end)
  ∧ (∀ r engine code d,
       tasks st !! r = Some (Scheduled engine code d) →
       ∃ st1, step V st (RunImmediate r) = Some st1 ∧
         (tasks st1 !! r = Some Rendering ∨ tasks st1 !! r = Some Finished))
  ∧ (∀ r o,
       tasks st !! r = Some Rendering →
       ∃ st1, step V st (RendererSettles r o) = Some st1 ∧
         tasks st1 !! r = Some Finished)
  ∧ (∀ r, tasks st !! r = Some Failed →
       ∀ ls' st', freshIds st ls' → run V st ls' = Some st' →
         statusOf st' r = Some pending).
Proof.
  intros Hnd Hrun. pose proof (freshIds_init ls Hnd) as Hf.
  pose proof (consistent_run ls init st consistent_init Hf Hrun) as Hc.
  repeat split.
  - by apply (run_jobs ls init st r Hrun).
  - by apply (run_jobs ls init st r Hrun).
  - intros r. by apply statusTrace_shape; [apply consistent_init|].
  - intros r Hr. unfold statusOf.
    destruct (jobs st !! r) as [j|] eqn:Hj.
    + simpl. f_equal. by apply (done_finished st Hc r j Finished Hj Hr).
    + apply (same_ids st Hc) in Hj. congruence.
  - intros r prompt engine d response Hr. simpl. rewrite Hr.
    destruct (codegen V prompt engine response); eexists; (split; [done|]);
      simpl; by rewrite lookup_insert_eq.
  - intros r engine code d Hr. simpl. rewrite Hr.
    destruct (String.eqb engine "p5" || String.eqb engine "manim");
      eexists; (split; [done|]); simpl; rewrite lookup_insert_eq; eauto.
  - intros r o Hr. simpl. rewrite Hr. eexists. split; [done|].
    simpl. by rewrite lookup_insert_eq.
  - intros r Hr ls' st' Hf' Hrun'.
    by destruct (failed_stays ls' st st' r Hc Hr Hf' Hrun') as (_ & ? & _).
Qed.


End ServerFacts.

Section ServerClaims.
Import JsString Regex Codegen Server Scenarios.

Lemma C2_witness :
  NoDup (posted run_ok)
  ∧ run (index_utils prompts0) init run_ok = Some state_ok
  ∧ tasks state_ok !! "r1" = Some Finished
  ∧ statusOf state_ok "r1" = Some done
  ∧ statusTrace (index_utils prompts0) init run_ok "r1"
    = replicate 1 None ++ replicate 6 (Some pending) ++ replicate 1 (Some done).
Proof.
  assert (NoDup (posted run_ok)) as Hnd by (simpl; apply NoDup_singleton).
  assert (run (index_utils prompts0) init run_ok = Some state_ok) as Hrun
    by (vm_compute; reflexivity).
  split; [exact Hnd|]. split; [exact Hrun|].
  assert (tasks state_ok !! "r1" = Some Finished) as Hfin
    by (vm_compute; reflexivity).
  split; [exact Hfin|].
  destruct (C2_job_status_lifecycle (index_utils prompts0) run_ok state_ok Hnd Hrun)
    as (_ & _ & Hdone & _).
  split; [exact (Hdone "r1" Hfin)|]. vm_compute. reflexivity.
Defined.

(** The job of a request whose code generation fails has its handler
    returned and stays pending in every later state: not every job
    reaches the status done. *)
Lemma C2_counterexample :
  run (index_utils prompts0) init run_rejected = Some state_rejected
  ∧ tasks state_rejected !! "r1" = Some Failed
  ∧ ∀ ls' st', freshIds state_rejected ls' →
      run (index_utils prompts0) state_rejected ls' = Some st' →
      statusOf st' "r1" = Some pending.
Proof.
  assert (run (index_utils prompts0) init run_rejected = Some state_rejected)
    as Hrun by (vm_compute; reflexivity).
  assert (tasks state_rejected !! "r1" = Some Failed) as Hf
    by (vm_compute; reflexivity).
  split; [done|]. split; [done|]. intros ls' st' Hfresh Hrun'.
  assert (consistent state_rejected) as Hc.
  { apply (consistent_run (index_utils prompts0) run_rejected init);
      [apply consistent_init| |done].
    apply freshIds_init. simpl. apply NoDup_singleton. }
  by destruct (failed_stays _ ls' state_rejected st' "r1" Hc Hf Hfresh Hrun')
    as (_ & ? & _).
Qed.


(** *** Validation of generated code in the request handler *)




(** C7. When the cleaned and trimmed code does not begin with
    [function setup()], generateCode with engine p5 throws the
    validation error, in the service of utils/ and in the one of
    services/; the handler answers 400 with it, and in no continuation
    of the run is a renderer called for the job. *)
Theorem C7_p5_shape_rejected P api api' prompt contents raw :
  contentsFor P "p5" prompt = Some contents →
  api "gemini-2.0-flash" contents = Responds (Some raw) →
  (∀ messages, api' "gemini-2.5-pro" messages = Responds (Some raw)) →
  startsWith (trim (cleanCode raw)) (lit "function setup()") = false →
  let msg := "Invalid p5.js generation: must start with 'function setup()'" in
  generateCode P api prompt "p5" = Throw msg
  ∧ generateCode_services api' prompt "p5" = Throw msg
  ∧ ∀ V, V = index_utils P ∨ V = index_services →
      ∀ ls1 ls2 st1 st r d,
        NoDup (posted (ls1 ++ CodegenSettles r (Responds (Some raw)) :: ls2)) →
        run V init ls1 = Some st1 →
        tasks st1 !! r = Some (AwaitCodegen prompt "p5" d) →
        run V init (ls1 ++ CodegenSettles r (Responds (Some raw)) :: ls2) = Some st →
        RespondError 400 msg ∈ out st ∧ rendererCalled st r = false.
Proof.
  intros Hc Hapi Hapi' Hs msg.
  split; [by apply (generateCode_p5_shape P api prompt contents raw)|].
  split; [by apply (generateCode_services_p5_shape api' prompt raw)|].
  intros V HV ls1 ls2 st1 st r d Hnd Hrun1 Hph Hrun.
  assert (codegen V prompt "p5" (Responds (Some raw)) = Throw msg) as Hthrow.
  { destruct HV as [-> | ->].
    - by apply (generateCode_p5_shape P _ prompt contents raw).
    - by apply (generateCode_services_p5_shape _ prompt raw). }
  destruct (rejected_never_rendered V ls1 ls2 st1 st r _ _ _ _ _
              Hnd Hrun1 Hph Hthrow Hrun) as (? & ? & _).
  done.
Qed.

Lemma C7_witness :
  contentsFor prompts0 "p5" "a circle"
  = Some ("p5 rules" +:+ "
" +:+ "Sketch description: a circle")
  ∧ startsWith (trim (cleanCode sketch_bad)) (lit "function setup()") = false
  ∧ generateCode prompts0 (λ _ _, Responds (Some sketch_bad)) "a circle" "p5"
    = Throw "Invalid p5.js generation: must start with 'function setup()'"
  ∧ RespondError 400 "Invalid p5.js generation: must start with 'function setup()'"
    ∈ out state_rejected
  ∧ rendererCalled state_rejected "r1" = false.
Proof.
  split; [reflexivity|]. split; [vm_compute; reflexivity|].
  destruct (C7_p5_shape_rejected prompts0 (λ _ _, Responds (Some sketch_bad))
              (λ _ _, Responds (Some sketch_bad)) "a circle" _ sketch_bad
              eq_refl eq_refl (λ _, eq_refl))
    as (Hthrow & _ & Hserver).
  - vm_compute. reflexivity.
  - split; [exact Hthrow|].
    eapply (Hserver (index_utils prompts0) (or_introl eq_refl)
              [PostGenerate "r1" "a circle" "p5" None] [] _ state_rejected "r1" None).
    + simpl. apply NoDup_singleton.
    + reflexivity.
    + vm_compute. reflexivity.
    + vm_compute. reflexivity.
Defined.

End ServerClaims.

(* ================================================================= *)
(** * Further properties of the code *)

(** ** Code generation: what [cleanCode] and [generateCode] return *)

Section CodegenMore.
Import JsString Regex Codegen Markdown.

Lemma stripPrefix_app p s : stripPrefix p (p ++ s) = Some s.
Proof. induction p as [|a p IH]; simpl; [by destruct s|]. by rewrite N.eqb_refl. Qed.

Lemma stripPrefix_Some p s r : stripPrefix p s = Some r → s = p ++ r.
Proof.
  revert s. induction p as [|a p IH]; intros s; simpl.
  - destruct s; congruence.
  - destruct s as [|b s]; [done|]. destruct (N.eqb_spec a b) as [->|]; [|done].
    intros H. by rewrite (IH _ H).
Qed.

Lemma trimStart_space ws s :
  Forall (λ c, isWhiteSpace c = true) ws → trimStart (ws ++ s) = trimStart s.
Proof. induction 1 as [|c ws Hc _ IH]; simpl; [done|]. by rewrite Hc. Qed.

Lemma trimStart_all ws :
  Forall (λ c, isWhiteSpace c = true) ws → trimStart ws = [].
Proof. intros H. rewrite <- (app_nil_r ws). by rewrite trimStart_space. Qed.

Lemma trimStart_snoc l x :
  ¬ Forall (λ c, isWhiteSpace c = true) (l ++ [x]) →
  trimStart (l ++ [x]) = trimStart l ++ [x].
Proof.
  induction l as [|c l IH]; simpl; intros Hn.
  - destruct (isWhiteSpace x) eqn:Hx; [|done]. destruct Hn. by repeat constructor.
  - destruct (isWhiteSpace c) eqn:Hc; [|done]. apply IH. intros H. apply Hn.
    by constructor.
Qed.

Lemma trimEnd_all ws :
  Forall (λ c, isWhiteSpace c = true) ws → trimEnd ws = [].
Proof.
  intros H. unfold trimEnd. rewrite trimStart_all; [done|]. by apply Forall_rev.
Qed.

Lemma trimEnd_cons x s :
  ¬ Forall (λ c, isWhiteSpace c = true) (x :: s) →
  trimEnd (x :: s) = x :: trimEnd s.
Proof.
  intros Hn. unfold trimEnd. simpl rev. rewrite trimStart_snoc.
  - by rewrite rev_app_distr.
  - intros H. apply Hn. apply Forall_rev in H. rewrite rev_app_distr in H.
    simpl in H. by rewrite rev_involutive in H.
Qed.

Lemma trimEnd_space s ws :
  Forall (λ c, isWhiteSpace c = true) ws → trimEnd (s ++ ws) = trimEnd s.
Proof.
  intros H. unfold trimEnd. rewrite rev_app_distr, trimStart_space; [done|].
  by apply Forall_rev.
Qed.

(** Greedy repetition: what the continuation finds after the longest
    run is what the repetition finds. *)
Lemma star_greedy p k ws s r :
  Forall (λ c, p c = true) ws → star p k s = Some r → star p k (ws ++ s) = Some r.
Proof.
  induction 1 as [|c ws Hc _ IH]; intros Hs; simpl; [done|].
  by rewrite Hc, IH.
Qed.

Lemma star_stop p k s :
  match s with c :: _ => p c = false | [] => True end → star p k s = k s.
Proof. destruct s as [|c s]; simpl; [done|]. by intros ->. Qed.

(** When the continuation fails after every run of the class, so does
    the repetition. *)
Lemma star_none p k s :
  (∀ n, Forall (λ c, p c = true) (take n s) → k (drop n s) = None) →
  star p k s = None.
Proof.
  induction s as [|c s IH]; intros Hk; simpl.
  - apply (Hk 0%nat). constructor.
  - destruct (p c) eqn:Hc.
    + rewrite IH.
      * apply (Hk 0%nat). constructor.
      * intros n Hn. apply (Hk (S n)). simpl. by constructor.
    + apply (Hk 0%nat). constructor.
Qed.

Lemma star_Some p k s r :
  star p k s = Some r →
  ∃ n, Forall (λ c, p c = true) (take n s) ∧ k (drop n s) = Some r.
Proof.
  revert r. induction s as [|c s IH]; intros r; simpl.
  - intros H. exists 0%nat. split; [constructor|done].
  - destruct (p c) eqn:Hc.
    + destruct (star p k s) as [r'|] eqn:Hs.
      * intros [= <-]. destruct (IH _ eq_refl) as (n & Hn & Hk).
        exists (S n). split; [by constructor|done].
      * intros H. exists 0%nat. split; [constructor|done].
    + intros H. exists 0%nat. split; [constructor|done].
Qed.

Lemma star_space_rest s :
  star isWhiteSpace (matchHere [] false) s = Some (trimStart s).
Proof.
  induction s as [|c s IH]; [done|]. cbn [star trimStart].
  destruct (isWhiteSpace c); [by rewrite IH|done].
Qed.

(** The closing pattern at the start of a text that ends with the
    fence: it matches exactly when only white space precedes the fence. *)
Lemma fence_at_end r x : matchHere [Lit "```"] true r = Some x → r = fence ∧ x = [].
Proof.
  cbn [matchHere]. destruct (stripPrefix (lit "```") r) as [r'|] eqn:Hr; [|done].
  apply stripPrefix_Some in Hr. destruct r'; [|done].
  intros [= <-]. by rewrite app_nil_r in Hr.
Qed.

Lemma closing_unfold s :
  matchHere [Many Space; Lit "```"] true s
  = star isWhiteSpace (matchHere [Lit "```"] true) s.
Proof. reflexivity. Qed.

Lemma closing_here_space ws :
  Forall (λ c, isWhiteSpace c = true) ws →
  matchHere [Many Space; Lit "```"] true (ws ++ fence) = Some [].
Proof.
  intros H. rewrite closing_unfold. apply star_greedy; [done|]. reflexivity.
Qed.

Lemma closing_here_none s :
  ¬ Forall (λ c, isWhiteSpace c = true) s →
  matchHere [Many Space; Lit "```"] true (s ++ fence) = None.
Proof.
  intros Hn. rewrite closing_unfold. apply star_none. intros n Hws.
  destruct (decide (n < length s)%nat) as [Hlt|Hge].
  - rewrite drop_app_le by lia.
    destruct (matchHere [Lit "```"] true (drop n s ++ fence)) as [x|] eqn:Hr; [|done].
    apply fence_at_end in Hr as [Hr _].
    apply (f_equal length) in Hr. rewrite !length_app, length_drop in Hr.
    simpl in Hr. lia.
  - destruct Hn. rewrite take_app_ge in Hws by lia.
    by apply Forall_app in Hws as [? _].
Qed.

Lemma search_eq r atEnd s :
  search r atEnd s
  = match matchHere r atEnd s with
    | Some rest => Some ([], rest)
    | None =>
        match s with
        | [] => None
        | c :: s' =>
            match search r atEnd s' with
            | Some (before, after) => Some (c :: before, after)
            | None => None
            end
        end
    end.
Proof. by destruct s. Qed.

Lemma replace_closing s :
  replace_empty closingFence (s ++ fence) = trimEnd s.
Proof.
  unfold replace_empty, exec. cbn [anchorStart anchorEnd atoms closingFence].
  induction s as [|x s IH].
  - reflexivity.
  - destruct (decide (Forall (λ c, isWhiteSpace c = true) (x :: s))) as [Hall|Hn].
    + rewrite search_eq, (closing_here_space _ Hall). by rewrite trimEnd_all.
    + rewrite search_eq, (closing_here_none _ Hn). rewrite trimEnd_cons by done.
      rewrite <- IH. rewrite <- app_comm_cons.
      destruct (search _ true (s ++ fence)) as [[before after]|] eqn:Hs; [done|].
      exfalso. revert Hs. clear. induction s as [|y t IHt]; [done|].
      rewrite search_eq. rewrite <- app_comm_cons.
      destruct (matchHere _ true (y :: t ++ fence)); [done|].
      destruct (search _ true (t ++ fence)) as [[]|]; [done|]. by intros _; apply IHt.
Qed.

(** Opening fence. *)
Lemma replace_opening lang rest :
  Forall (λ c, isWordChar c = true) lang →
  match rest with c :: _ => isWordChar c = false | [] => True end →
  replace_empty openingFence (fence ++ lang ++ rest) = trimStart rest.
Proof.
  intros Hlang Hrest. unfold replace_empty, exec.
  cbn [anchorStart anchorEnd atoms openingFence].
  change (matchHere [Lit "```"; Many Word; Many Space] false (fence ++ lang ++ rest))
    with (match stripPrefix fence (fence ++ lang ++ rest) with
          | Some s' => star isWordChar (star isWhiteSpace (matchHere [] false)) s'
          | None => None
          end).
  rewrite stripPrefix_app.
  rewrite (star_greedy _ _ lang rest (trimStart rest) Hlang); [done|].
  rewrite star_stop by done. apply star_space_rest.
Qed.

Lemma replace_opening_none s :
  startsWith s fence = false → replace_empty openingFence s = s.
Proof.
  unfold startsWith, replace_empty, exec. cbn [anchorStart anchorEnd atoms openingFence].
  intros H.
  change (matchHere [Lit "```"; Many Word; Many Space] false s)
    with (match stripPrefix fence s with
          | Some s' => star isWordChar (star isWhiteSpace (matchHere [] false)) s'
          | None => None
          end).
  by destruct (stripPrefix fence s).
Qed.

Lemma search_closing_Some s before after :
  search [Many Space; Lit "```"] true s = Some (before, after) →
  ∃ ws, s = before ++ ws ++ fence ∧ after = [].
Proof.
  revert before after. induction s as [|c s IH]; intros before after; rewrite search_eq.
  - destruct (matchHere _ true []) as [r|] eqn:Hm; [|done].
    intros [= <- <-]. rewrite closing_unfold in Hm.
    apply star_Some in Hm as (n & _ & Hm). apply fence_at_end in Hm as [Hm _].
    by destruct n.
  - destruct (matchHere _ true (c :: s)) as [r|] eqn:Hm.
    + intros [= <- <-]. rewrite closing_unfold in Hm.
      apply star_Some in Hm as (n & _ & Hm). apply fence_at_end in Hm as [Hm ->].
      exists (take n (c :: s)). split; [|done]. simpl. rewrite <- Hm.
      by rewrite take_drop.
    + destruct (search _ true s) as [[b a]|] eqn:Hs; [|done].
      intros [= <- <-]. destruct (IH _ _ eq_refl) as (ws & -> & ->).
      by exists ws.
Qed.

Lemma replace_closing_none s :
  (∀ pre, s ≠ pre ++ fence) → replace_empty closingFence s = s.
Proof.
  intros Hno. unfold replace_empty, exec. cbn [anchorStart anchorEnd atoms closingFence].
  destruct (search _ true s) as [[before after]|] eqn:Hs; [|done].
  apply search_closing_Some in Hs as (ws & -> & _).
  destruct (Hno (before ++ ws)). by rewrite app_assoc.
Qed.

Lemma trimStart_fence s : trimStart (fence ++ s) = fence ++ s.
Proof. reflexivity. Qed.

Lemma trim_fenced ws1 body ws2 :
  Forall (λ c, isWhiteSpace c = true) ws1 →
  Forall (λ c, isWhiteSpace c = true) ws2 →
  trim (ws1 ++ fence ++ body ++ fence ++ ws2) = fence ++ body ++ fence.
Proof.
  intros H1 H2. unfold trim. rewrite trimStart_space by done.
  rewrite trimStart_fence.
  rewrite !app_assoc. rewrite trimEnd_space by done.
  unfold trimEnd. rewrite !rev_app_distr. simpl rev at 1.
  simpl. by rewrite <- !app_assoc, !rev_app_distr, rev_involutive.
Qed.

(** X2. cleanCode removes a Markdown fence: for a text made of white
    space, ``` followed by word characters (the language, possibly
    none), a line feed, the code, ``` and white space, it returns the
    code trimmed at both ends. *)
Theorem X2_cleanCode_strips_fence ws1 lang code ws2 :
  Forall (λ c, isWhiteSpace c = true) ws1 →
  Forall (λ c, isWordChar c = true) lang →
  Forall (λ c, isWhiteSpace c = true) ws2 →
  cleanCode (ws1 ++ lit "```" ++ lang ++ [10%N] ++ code ++ lit "```" ++ ws2)
  = trim code.
Proof.
  intros H1 Hlang H2. unfold cleanCode.
  change (lit "```") with fence.
  replace (ws1 ++ fence ++ lang ++ [10%N] ++ code ++ fence ++ ws2)
    with (ws1 ++ fence ++ (lang ++ [10%N] ++ code) ++ fence ++ ws2)
    by (by rewrite <- !app_assoc).
  rewrite trim_fenced by done.
  replace (fence ++ (lang ++ [10%N] ++ code) ++ fence)
    with (fence ++ lang ++ (10%N :: code ++ fence))
    by (by rewrite <- !app_assoc).
  rewrite replace_opening by done.
  cbn [trimStart]. change (isWhiteSpace 10) with true. cbv iota.
  assert (trimStart (code ++ fence) = trimStart code ++ fence) as ->.
  { clear. induction code as [|c code IH]; [done|]. simpl.
    destruct (isWhiteSpace c); [apply IH|done]. }
  by rewrite replace_closing.
Qed.

Lemma X2_cleanCode_strips_fence_witness :
  cleanCode (lit "  " ++ lit "```" ++ lit "python" ++ [10%N]
             ++ lit "  x = 1  " ++ lit "```" ++ lit " ")
  = lit "x = 1".
Proof.
  apply (X2_cleanCode_strips_fence (lit "  ") (lit "python") (lit "  x = 1  ") (lit " "));
    repeat constructor.
Defined.

(** X3. For a text whose trimmed form does not start with ``` and does
    not end with ```, cleanCode returns the trimmed text. *)
Theorem X3_cleanCode_plain_text raw :
  startsWith (trim raw) (lit "```") = false →
  (∀ pre, trim raw ≠ pre ++ lit "```") →
  cleanCode raw = trim raw.
Proof.
  intros Hs He. unfold cleanCode.
  rewrite replace_opening_none by done. by apply replace_closing_none.
Qed.

Lemma X3_cleanCode_plain_text_witness :
  cleanCode (lit " function setup() {} ") = lit "function setup() {}".
Proof.
  apply (X3_cleanCode_plain_text (lit " function setup() {} ")); [reflexivity|].
  intros pre H. apply (f_equal (@rev N)) in H. rewrite rev_app_distr in H.
  vm_compute in H. discriminate.
Defined.

Lemma validateGeneratedCode_ok code engine :
  validateGeneratedCode code engine = Ok tt →
  (engine = "p5" → startsWith (trim code) (lit "function setup()") = true)
  ∧ (engine = "manim" → includes (trim code) (lit "class GeneratedScene") = true).
Proof.
  unfold validateGeneratedCode. intros H. split; intros ->.
  - cbn [String.eqb Ascii.eqb Bool.eqb andb] in H.
    by destruct (startsWith _ _).
  - cbn [String.eqb Ascii.eqb Bool.eqb andb] in H.
    by destruct (includes _ _).
Qed.

Lemma contentsFor_Some P engine prompt contents :
  contentsFor P engine prompt = Some contents → engine = "p5" ∨ engine = "manim".
Proof.
  unfold contentsFor.
  destruct (String.eqb_spec engine "p5"); [by left|].
  destruct (String.eqb_spec engine "manim"); [by right|done].
Qed.

(** X1. When generateCode of utils/codegenService.js returns code, the
    engine is 'p5' or 'manim', the code is cleanCode of the text that
    the API answered to the assembled prompt on model gemini-2.0-flash,
    and it has passed validation: for p5 its trimmed text starts with
    'function setup()'; for manim it contains 'class GeneratedScene' and
    none of the banned patterns matches it. *)
Theorem X1_generateCode_returns_validated_code P api prompt engine code :
  generateCode P api prompt engine = Ok code →
  ∃ contents raw,
    contentsFor P engine prompt = Some contents
    ∧ api "gemini-2.0-flash" contents = Responds (Some raw)
    ∧ code = cleanCode raw
    ∧ ((engine = "p5" ∧ startsWith (trim code) (lit "function setup()") = true)
       ∨ (engine = "manim"
          ∧ includes (trim code) (lit "class GeneratedScene") = true
          ∧ ∀ re, re ∈ bannedPatterns → test re code = false)).
Proof.
  unfold generateCode.
  destruct (contentsFor P engine prompt) as [contents|] eqn:Hc; [|done].
  destruct (api _ contents) as [[raw|]|msg] eqn:Hapi; try done.
  destruct (if String.eqb engine "manim" then validateManimCode (cleanCode raw)
            else Ok tt) as [[]|] eqn:Hban; [|done].
  destruct (validateGeneratedCode (cleanCode raw) engine) as [[]|] eqn:Hval; [|done].
  intros [= <-]. exists contents, raw. repeat split; try done.
  apply validateGeneratedCode_ok in Hval as [Hp5 Hmanim].
  destruct (contentsFor_Some _ _ _ _ Hc) as [->| ->].
  - left. split; [done|]. by apply Hp5.
  - right. split; [done|]. split; [by apply Hmanim|].
    cbn [String.eqb Ascii.eqb Bool.eqb] in Hban.
    by apply validateAgainst_ok.
Qed.

Lemma X1_generateCode_returns_validated_code_witness :
  generateCode Scenarios.prompts0 (λ _ _, Responds (Some Scenarios.sketch_ok))
    "a circle" "p5" = Ok Scenarios.sketch_ok
  ∧ startsWith (trim Scenarios.sketch_ok) (lit "function setup()") = true.
Proof.
  assert (generateCode Scenarios.prompts0 (λ _ _, Responds (Some Scenarios.sketch_ok))
            "a circle" "p5" = Ok Scenarios.sketch_ok) as H by (vm_compute; reflexivity).
  split; [exact H|].
  destruct (X1_generateCode_returns_validated_code _ _ _ _ _ H)
    as (contents & raw & _ & _ & _ & [[_ Hs]|[He _]]); [exact Hs|discriminate He].
Defined.

End CodegenMore.

(** ** Tool detectors: caching and what is returned *)

Section DetectMore.
Import JsString Detect Scenarios Examples.

Lemma truthy_Some x p : truthy x = Some p → x = Some p ∧ p ≠ EmptyString.
Proof. destruct x as [[|c s]|]; try done. by intros [= <-]. Qed.

Lemma truthy_nonempty p : p ≠ EmptyString → truthy (Some p) = Some p.
Proof. by destruct p. Qed.

Lemma envOverride_Some w x p :
  envOverride w x = Some p → p ≠ EmptyString ∧ executable w p = true.
Proof.
  unfold envOverride. destruct (truthy x) as [q|] eqn:Hq; [|done].
  apply truthy_Some in Hq as [_ Hne].
  destruct (executable w q) eqn:He; [|done]. by intros [= <-].
Qed.

Lemma whichFirst_accepts w accept names p :
  whichFirst w accept names = Some p → accept p = true.
Proof.
  induction names as [|name rest IH]; [done|]. cbn [whichFirst].
  destruct (which_sync w name) as [q|]; [|done].
  destruct (accept q) eqn:Hq; [by intros [= <-]|done].
Qed.

Lemma scanPath_executable w chromePath p :
  scanPath w chromePath = Some p → executable w p = true.
Proof.
  unfold scanPath, checkFileExists. destruct (str_includes chromePath "*").
  - destruct (split_on _ chromePath) as [|basePath [|suffix rest]]; try done.
    destruct (readdir w basePath) as [dirs|]; [|done].
    intros H. by apply find_some in H as [_ H].
  - destruct (executable w chromePath) eqn:He; [by intros [= <-]|done].
Qed.

Lemma scanPaths_executable w paths p :
  scanPaths w paths = Some p → executable w p = true.
Proof.
  induction paths as [|chromePath rest IH]; [done|]. cbn [scanPaths].
  destruct (scanPath w chromePath) as [q|] eqn:Hq; [|done].
  intros [= <-]. by apply (scanPath_executable w chromePath).
Qed.

(** X5. When the Electron detectChrome is not answered from its cache
    and returns a path, that path has passed checkFileExists (it exists
    and is executable) and is the new cache. *)
Theorem X5_electron_detectChrome_checks_the_file w cached p cache' :
  truthy cached = None →
  detectChrome_electron w cached = (Ok p, cache') →
  executable w p = true ∧ cache' = Some p.
Proof.
  intros Hcache. unfold detectChrome_electron. rewrite Hcache.
  destruct (envOverride w (env_CHROME_PATH w)) as [q|] eqn:Henv.
  { intros [= <- <-]. by apply envOverride_Some in Henv as [_ ?]. }
  destruct (byLauncherDev w) as [q|] eqn:Hdev.
  { intros [= <- <-]. split; [|done]. unfold byLauncherDev in Hdev.
    destruct (isDev w); [|done]. destruct (byLauncher w) as [stable|]; [|done].
    unfold checkFileExists in Hdev.
    destruct (executable w stable) eqn:He; [by injection Hdev as <-|done]. }
  destruct (whichFirst w _ _) as [q|] eqn:Hwhich.
  { intros [= <- <-]. split; [|done]. by apply whichFirst_accepts in Hwhich. }
  destruct (scanPaths w _) as [q|] eqn:Hscan.
  { intros [= <- <-]. split; [|done]. by apply scanPaths_executable in Hscan. }
  destruct (byRegistry w) as [q|] eqn:Hreg; [|done].
  intros [= <- <-]. split; [|done]. unfold byRegistry in Hreg.
  destruct (String.eqb (platform w) "win32"); [|done].
  destruct (reg_query w) as [output|]; [|done].
  destruct (regPath output) as [q'|]; [|done]. unfold checkFileExists in Hreg.
  destruct (executable w q') eqn:He; [by injection Hreg as <-|done].
Qed.

Lemma X5_electron_detectChrome_checks_the_file_witness :
  truthy None = None
  ∧ detectChrome_electron world_first None
    = (Ok "/usr/bin/chromium", Some "/usr/bin/chromium")
  ∧ executable world_first "/usr/bin/chromium" = true.
Proof.
  split; [reflexivity|]. split; [reflexivity|].
  apply (X5_electron_detectChrome_checks_the_file world_first None "/usr/bin/chromium"
           (Some "/usr/bin/chromium")); reflexivity.
Defined.

(** X4. Once detectManim or either detectChrome has returned a non-empty
    path, every later call returns that same path and keeps the cache,
    whatever the environment variables, the PATH and the files have
    become; a call that throws leaves the cache as it was. *)
Theorem X4_detected_path_is_cached w w' cached p cache' :
  p ≠ EmptyString →
  (detectManim w cached = (Ok p, cache') → detectManim w' cache' = (Ok p, cache'))
  ∧ (detectChrome w cached = (Ok p, cache') →
     detectChrome w' cache' = (Ok p, cache'))
  ∧ (detectChrome_electron w cached = (Ok p, cache') →
     detectChrome_electron w' cache' = (Ok p, cache'))
  ∧ (∀ msg c,
       detectManim w cached = (Throw msg, c)
       ∨ detectChrome w cached = (Throw msg, c)
       ∨ detectChrome_electron w cached = (Throw msg, c) →
       c = cached).
Proof.
  intros Hne. pose proof (truthy_nonempty p Hne) as Ht.
  split; [|split; [|split]].
  - unfold detectManim at 1.
    destruct (truthy cached) as [q|] eqn:Hq.
    { intros [= <- <-]. unfold detectManim. by rewrite Hq. }
    destruct (envOverride w _); [|destruct (which_sync w "manim");
      [|destruct (which_sync w "manimce");
        [|by destruct (which_sync w "python3"), (which_sync w "python")]]];
      intros [= <- <-]; unfold detectManim; by rewrite Ht.
  - unfold detectChrome at 1.
    destruct (truthy cached) as [q|] eqn:Hq.
    { intros [= <- <-]. unfold detectChrome. by rewrite Hq. }
    destruct (envOverride w _); [|destruct (byLauncher w);
      [|destruct (whichFirst w _ _); [|done]]];
      intros [= <- <-]; unfold detectChrome; by rewrite Ht.
  - unfold detectChrome_electron at 1.
    destruct (truthy cached) as [q|] eqn:Hq.
    { intros [= <- <-]. unfold detectChrome_electron. by rewrite Hq. }
    destruct (envOverride w _); [|destruct (byLauncherDev w);
      [|destruct (whichFirst w _ _); [|destruct (scanPaths w _);
        [|destruct (byRegistry w); [|done]]]]];
      intros [= <- <-]; unfold detectChrome_electron; by rewrite Ht.
  - intros msg c [H|[H|H]]; revert H.
    + unfold detectManim. destruct (truthy cached); [done|].
      destruct (envOverride w _); [done|]. destruct (which_sync w "manim"); [done|].
      destruct (which_sync w "manimce"); [done|].
      by destruct (which_sync w "python3"), (which_sync w "python"); intros [= _ <-].
    + unfold detectChrome. destruct (truthy cached); [done|].
      destruct (envOverride w _); [done|]. destruct (byLauncher w); [done|].
      destruct (whichFirst w _ _); [done|]. by intros [= _ <-].
    + unfold detectChrome_electron. destruct (truthy cached); [done|].
      destruct (envOverride w _); [done|]. destruct (byLauncherDev w); [done|].
      destruct (whichFirst w _ _); [done|]. destruct (scanPaths w _); [done|].
      destruct (byRegistry w); [done|]. by intros [= _ <-].
Qed.

(** Chromium is found on the PATH; after it has been removed the
    detector still answers with its path. *)
Lemma X4_detected_path_is_cached_witness :
  detectChrome world_first None = (Ok "/usr/bin/chromium", Some "/usr/bin/chromium")
  ∧ detectChrome nothing_installed (Some "/usr/bin/chromium")
    = (Ok "/usr/bin/chromium", Some "/usr/bin/chromium")
  ∧ fst (detectChrome nothing_installed None)
    = Throw "Chrome executable not found. Please install Chrome or set CHROME_PATH environment variable.".
Proof.
  split; [reflexivity|]. split; [|reflexivity].
  apply (X4_detected_path_is_cached world_first nothing_installed None "/usr/bin/chromium"
           (Some "/usr/bin/chromium")); [discriminate|reflexivity].
Defined.

Lemma find_stable (installs : list string) :
  match List.find (λ p, negb (isBetaOrDev p)) installs with
  | Some q => q ∈ installs ∧ isBetaOrDev q = false
  | None => ∀ q, q ∈ installs → isBetaOrDev q = true
  end.
Proof.
  destruct (List.find _ installs) as [q|] eqn:Hf.
  - apply find_some in Hf as [Hin Hq]. split; [by apply list_elem_of_In|].
    by apply negb_true_iff.
  - intros q Hq. apply list_elem_of_In in Hq.
    pose proof (find_none _ _ Hf q Hq) as H. by apply negb_false_iff in H.
Qed.

(** X6. utils/detectChrome.js with an empty cache and no usable
    CHROME_PATH, when chrome-launcher reports a non-empty list of
    non-empty installation paths: it returns and caches one of them, one
    that does not match /beta|dev/i if there is any, and the first of
    the list if all match. *)
Theorem X6_detectChrome_prefers_stable w cached installs :
  truthy cached = None → envOverride w (env_CHROME_PATH w) = None →
  installations w = Some installs → installs ≠ [] → EmptyString ∉ installs →
  ∃ p, detectChrome w cached = (Ok p, Some p)
    ∧ p ∈ installs
    ∧ ((∃ q, q ∈ installs ∧ isBetaOrDev q = false) → isBetaOrDev p = false)
    ∧ ((∀ q, q ∈ installs → isBetaOrDev q = true) → head installs = Some p).
Proof.
  intros Hcache Henv Hinst Hne Hempty.
  unfold detectChrome, byLauncher. rewrite Hcache, Henv, Hinst.
  destruct installs as [|first more]; [done|].
  unfold stableInstall. pose proof (find_stable (first :: more)) as Hfind.
  destruct (List.find _ (first :: more)) as [q|].
  - destruct Hfind as [Hin Hq].
    rewrite truthy_nonempty by (intros ->; done).
    exists q. split; [done|]. split; [done|]. split; [done|].
    intros Hall. rewrite (Hall q Hin) in Hq. done.
  - cbn [truthy head]. exists first. split; [done|].
    split; [apply list_elem_of_here|]. split; [|done].
    intros (q & Hin & Hq). rewrite (Hfind q Hin) in Hq. done.
Qed.

Lemma X6_detectChrome_prefers_stable_witness :
  ∃ p, detectChrome two_channels None = (Ok p, Some p)
    ∧ p = "/opt/google/chrome/chrome".
Proof.
  destruct (X6_detectChrome_prefers_stable two_channels None
              ["/opt/google/chrome-beta/chrome"; "/opt/google/chrome/chrome"])
    as (p & Hp & Hin & Hstable & _); try done.
  { intros Hin. repeat (apply elem_of_cons in Hin as [Hin|Hin]; [discriminate|]).
    by apply elem_of_nil in Hin. }
  exists p. split; [exact Hp|].
  assert (isBetaOrDev p = false) as Hb.
  { apply Hstable. exists "/opt/google/chrome/chrome".
    split; [apply list_elem_of_further, list_elem_of_here|reflexivity]. }
  repeat (apply elem_of_cons in Hin as [->|Hin]); try done.
  by apply elem_of_nil in Hin.
Defined.

End DetectMore.

(** ** The two walks of the media tree *)

Section TreeFacts.
Import JsString Manim MediaTree.

Lemma findIn_Dir D dir items :
  findIn D dir (Dir items)
  = let '(r, t) := findItems D dir items in
    (r, [Fs (ExistsSync dir); Log ("Searching in directory: " +:+ abs D dir);
         Fs (ReaddirSync dir);
         Log ("Found items: " +:+ join ", " (map fst items))] ++ t).
Proof. reflexivity. Qed.

Lemma partialIn_Dir D dir items :
  partialIn D dir (Dir items)
  = let '(r, t) := partialItems D dir items in
    (r, [Fs (ExistsSync dir); Fs (ReaddirSync dir)] ++ t).
Proof. reflexivity. Qed.

Lemma node_nested_ind (P : node → Prop) :
  (∀ data, P (File data)) →
  (∀ items, Forall (λ e, P (snd e)) items → P (Dir items)) →
  ∀ n, P n.
Proof.
  intros HF HD. fix IH 1. intros [data|items]; [apply HF|].
  apply HD. induction items as [|[k c] items IHi]; constructor; [apply IH|apply IHi].
Qed.

Lemma wellFormed_cons item child rest :
  wellFormed (Dir ((item, child) :: rest)) = true →
  existsb (String.eqb item) (map fst rest) = false
  ∧ wellFormed child = true ∧ wellFormed (Dir rest) = true.
Proof.
  cbn [wellFormed map fst distinct]. intros H.
  apply andb_prop in H as [H1 H2]. apply andb_prop in H1 as [H1 H1'].
  apply andb_prop in H2 as [H2 H2']. apply negb_true_iff in H1.
  repeat split; try done. by rewrite H1', H2'.
Qed.

Lemma assoc_named k item rest n :
  assoc k rest = Some n → existsb (String.eqb item) (map fst rest) = false → item ≠ k.
Proof.
  induction rest as [|[k' n'] rest IH]; [done|]. cbn [assoc map fst existsb].
  rewrite orb_false_iff. intros Ha [Hk' Hrest].
  destruct (String.eqb_spec k' k) as [->|].
  - by apply String.eqb_neq.
  - by apply IH.
Qed.

Lemma lookup_step item n rest k rel :
  lookup ((item, n) :: rest) (k :: rel)
  = if String.eqb item k then
      match n with
      | Dir sub => lookup sub rel
      | File data => match rel with [] => Some (File data) | _ :: _ => None end
      end
    else lookup rest (k :: rel).
Proof. cbn [lookup assoc]. destruct (String.eqb item k); reflexivity. Qed.

Lemma lookup_file_cons fs rel data :
  lookup fs rel = Some (File data) →
  ∃ k rel' n, rel = k :: rel' ∧ assoc k fs = Some n.
Proof.
  destruct rel as [|k rel']; [done|]. cbn [lookup].
  destruct (assoc k fs) as [n|] eqn:Ha; [|done]. intros _. by exists k, rel', n.
Qed.

Lemma lookup_skip item n rest rel data :
  existsb (String.eqb item) (map fst rest) = false →
  lookup rest rel = Some (File data) →
  lookup ((item, n) :: rest) rel = Some (File data).
Proof.
  intros Hd Hl. destruct (lookup_file_cons _ _ _ Hl) as (k & rel' & m & -> & Ha).
  rewrite lookup_step. pose proof (assoc_named _ _ _ _ Ha Hd) as Hne.
  apply String.eqb_neq in Hne. by rewrite Hne.
Qed.

Lemma last_cons_some {A} (x : A) l y : last l = Some y → last (x :: l) = Some y.
Proof. destruct l; [done|]. done. Qed.

Lemma findItems_spec D dir items :
  Forall (λ e, ∀ dir sub, snd e = Dir sub →
            ∃ r t, findIn D dir (Dir sub) = (Ok r, t) ∧ finds dir sub r) items →
  ∃ r t, findItems D dir items = (Ok r, t) ∧ finds dir items r.
Proof.
  induction items as [|[item child] rest IH]; intros Hch.
  - exists None, []. split; [done|]. intros [|k rel] data; done.
  - apply Forall_cons in Hch as [Hchild Hrest].
    destruct (IH Hrest) as (r & t & Hloop & Hr). clear IH.
    assert (match r with
            | Some p =>
                wellFormed (Dir ((item, child) :: rest)) = true →
                ∃ rel data, p = dir ++ rel
                  ∧ lookup ((item, child) :: rest) rel = Some (File data)
                  ∧ last rel = Some "GeneratedScene.mp4"
            | None => True
            end) as Hsome.
    { destruct r as [p|]; [|done]. intros Hwf.
      apply wellFormed_cons in Hwf as (Hd & _ & Hwf).
      destruct (Hr Hwf) as (rel & data & -> & Hl & Hlast).
      exists rel, data. split; [done|]. split; [|done]. by apply lookup_skip. }
    destruct child as [d|sub].
    + cbn [findItems]. destruct (String.eqb_spec item "GeneratedScene.mp4") as [->|Hne].
      * eexists _, _. split; [reflexivity|]. intros _.
        exists ["GeneratedScene.mp4"], d. split; [done|]. split; [|done].
        rewrite lookup_step. by rewrite String.eqb_refl.
      * fold (findItems D dir). rewrite Hloop. eexists _, _. split; [reflexivity|].
        destruct r as [p|]; [exact Hsome|].
        intros [|k rel] data; [done|]. rewrite lookup_step.
        destruct (String.eqb_spec item k) as [<-|].
        -- destruct rel; [|done]. intros _ [=]. done.
        -- apply Hr.
    + destruct (Hchild (dir ++ [item]) sub eq_refl) as (r1 & t1 & Hin & Hr1).
      cbn [findItems]. fold (findItems D dir). rewrite Hin.
      destruct r1 as [p1|].
      * eexists _, _. split; [reflexivity|]. intros Hwf.
        apply wellFormed_cons in Hwf as (_ & Hwf & _).
        destruct (Hr1 Hwf) as (rel & data & -> & Hl & Hlast).
        exists (item :: rel), data. split; [by rewrite <- app_assoc|].
        split; [|by apply last_cons_some].
        rewrite lookup_step. by rewrite String.eqb_refl.
      * rewrite Hloop. eexists _, _. split; [reflexivity|].
        destruct r as [p|]; [exact Hsome|].
        intros [|k rel] data; [done|]. rewrite lookup_step.
        destruct (String.eqb_spec item k) as [<-|].
        -- intros Hl. destruct rel as [|k' rel']; [done|].
           change (last (item :: k' :: rel')) with (last (k' :: rel')).
           by apply (Hr1 _ _ Hl).
        -- apply Hr.
Qed.

Lemma findIn_spec D n :
  ∀ dir sub, n = Dir sub →
    ∃ r t, findIn D dir (Dir sub) = (Ok r, t) ∧ finds dir sub r.
Proof.
  induction n as [data|items IH] using node_nested_ind; intros dir sub; [done|].
  intros [= <-]. rewrite findIn_Dir.
  destruct (findItems_spec D dir items IH) as (r & t & -> & Hr).
  eexists _, _. split; [reflexivity|exact Hr].
Qed.

Lemma partialItems_spec D dir items :
  Forall (λ e, ∀ dir sub, snd e = Dir sub →
            ∃ ps t, partialIn D dir (Dir sub) = (Ok ps, t) ∧ lists dir sub ps) items →
  ∃ ps t, partialItems D dir items = (Ok ps, t) ∧ lists dir items ps.
Proof.
  induction items as [|[item child] rest IH]; intros Hch.
  - exists [], []. split; [done|]. split.
    + intros [|k rel] data name; done.
    + intros _ p Hp. by apply elem_of_nil in Hp.
  - apply Forall_cons in Hch as [Hchild Hrest].
    destruct (IH Hrest) as (more & t & Hloop & Hall & Honly). clear IH.
    assert (wellFormed (Dir ((item, child) :: rest)) = true →
            ∀ p, p ∈ more →
              ∃ rel data name, p = dir ++ rel
                ∧ lookup ((item, child) :: rest) rel = Some (File data)
                ∧ last rel = Some name ∧ isPartialName name = true) as Hmore.
    { intros Hwf p Hp. apply wellFormed_cons in Hwf as (Hd & _ & Hwf).
      destruct (Honly Hwf p Hp) as (rel & data & name & -> & Hl & Hlast & Hn).
      exists rel, data, name. split; [done|]. split; [by apply lookup_skip|done]. }
    destruct child as [d|sub].
    + cbn [partialItems]. fold (partialItems D dir). rewrite Hloop.
      eexists _, _. split; [reflexivity|]. split.
      * intros [|k rel] data name; [done|]. rewrite lookup_step.
        destruct (String.eqb_spec item k) as [<-|].
        -- destruct rel; [|done]. intros _ [= <-] ->. apply list_elem_of_here.
        -- intros Hl Hlast Hn. pose proof (Hall _ _ _ Hl Hlast Hn) as Hin.
           destruct (isPartialName item); [by apply list_elem_of_further|done].
      * intros Hwf p Hp. destruct (isPartialName item) eqn:Hitem; [|by apply Hmore].
        apply elem_of_cons in Hp as [->|Hp]; [|by apply Hmore].
        exists [item], d, item. split; [done|]. split; [|done].
        rewrite lookup_step. by rewrite String.eqb_refl.
    + destruct (Hchild (dir ++ [item]) sub eq_refl) as (inner & t1 & Hin & Hall1 & Honly1).
      cbn [partialItems]. fold (partialItems D dir). rewrite Hin, Hloop.
      eexists _, _. split; [reflexivity|]. split.
      * intros [|k rel] data name; [done|]. rewrite lookup_step.
        destruct (String.eqb_spec item k) as [<-|].
        -- intros Hl Hlast Hn. destruct rel as [|k' rel']; [done|].
           change (last (item :: k' :: rel')) with (last (k' :: rel')) in Hlast.
           apply elem_of_app. left.
           replace (dir ++ item :: k' :: rel') with ((dir ++ [item]) ++ k' :: rel')
             by (by rewrite <- app_assoc).
           by apply (Hall1 _ _ _ Hl Hlast Hn).
        -- intros Hl Hlast Hn. apply elem_of_app. right. by apply (Hall _ _ _ Hl Hlast Hn).
      * intros Hwf p Hp. apply elem_of_app in Hp as [Hp|Hp]; [|by apply Hmore].
        apply wellFormed_cons in Hwf as (_ & Hwf & _).
        destruct (Honly1 Hwf p Hp) as (rel & data & name & -> & Hl & Hlast & Hn).
        exists (item :: rel), data, name. split; [by rewrite <- app_assoc|].
        split; [|split; [by apply last_cons_some|done]].
        rewrite lookup_step. by rewrite String.eqb_refl.
Qed.

Lemma partialIn_spec D n :
  ∀ dir sub, n = Dir sub →
    ∃ ps t, partialIn D dir (Dir sub) = (Ok ps, t) ∧ lists dir sub ps.
Proof.
  induction n as [data|items IH] using node_nested_ind; intros dir sub; [done|].
  intros [= <-]. rewrite partialIn_Dir.
  destruct (partialItems_spec D dir items IH) as (ps & t & -> & Hps).
  eexists _, _. split; [reflexivity|exact Hps].
Qed.

End TreeFacts.

(** ** The Manim renderer: the branches of the close handler *)

Section ManimMore.
Import JsString Manim MediaTree Scenarios.

Lemma wellFormed_assoc fs k n :
  wellFormed (Dir fs) = true → assoc k fs = Some n → wellFormed n = true.
Proof.
  induction fs as [|[k' n'] fs IH]; [done|]. intros Hwf.
  apply wellFormed_cons in Hwf as (_ & Hn & Hfs). cbn [assoc].
  destruct (String.eqb k' k); [by intros [= <-]|by apply IH].
Qed.

Lemma assoc_put_ne k name n fs : k ≠ name → assoc k (put name n fs) = assoc k fs.
Proof.
  intros Hne. induction fs as [|[k' old] fs IH]; cbn [put assoc].
  - destruct (String.eqb_spec name k); [congruence|done].
  - destruct (String.eqb_spec k' name) as [->|]; cbn [assoc].
    + destruct (String.eqb_spec name k); [congruence|done].
    + by rewrite IH.
Qed.


Lemma lookup_under fs runId rel data :
  lookup fs (runId :: rel) = Some (File data) → rel ≠ [] →
  ∃ items, lookup fs (outDir runId) = Some (Dir items)
           ∧ assoc runId fs = Some (Dir items)
           ∧ lookup items rel = Some (File data).
Proof.
  cbn [lookup outDir]. destruct (assoc runId fs) as [[d|items]|]; [|by eauto|done].
  by destruct rel.
Qed.

Lemma last_Some_ne {A} (l : list A) x : last l = Some x → l ≠ [].
Proof. by destruct l. Qed.

(** X9. In a media directory whose listings hold every name once: when
    the Manim CLI exits with code zero, the video of the job is not yet
    at its canonical path and a regular file named GeneratedScene.mp4
    lies anywhere below the working directory of the job,
    generateWithManim resolves with <MEDIA_DIR>/<runId>.mp4; afterwards
    that file holds the content of a GeneratedScene.mp4 found below the
    working directory, the working directory is gone and every other
    entry of the media directory is as before. *)
Theorem X9_rendered_video_is_moved D code runId cmd output effect fs rel data0 :
  let fs1 := treeAtClose D code runId effect fs in
  wellFormed (Dir fs1) = true →
  exists_ fs1 (finalVideoPath runId) = false →
  lookup fs1 (runId :: rel) = Some (File data0) →
  last rel = Some "GeneratedScene.mp4" →
  ∃ found data trace,
    let fs2 := remove runId (put (finalName runId) (File data) fs1) in
    lookup fs1 (runId :: found) = Some (File data)
    ∧ last found = Some "GeneratedScene.mp4"
    ∧ generateWithManim D code runId (Ok cmd) (Runs output effect (Some 0)) fs
      = (Resolve (abs D (finalVideoPath runId)), fs2, trace)
    ∧ lookup fs2 (finalVideoPath runId) = Some (File data)
    ∧ exists_ fs2 (outDir runId) = false
    ∧ ∀ k, k ≠ runId → k ≠ finalName runId → assoc k fs2 = assoc k fs1.
Proof.
  intros fs1 Hwf Hfinal Hfile Hlast.
  destruct (lookup_under _ _ _ _ Hfile (last_Some_ne _ _ Hlast))
    as (items & Hdir & Ha & Hrel).
  destruct (findIn_spec D (Dir items) (outDir runId) items eq_refl)
    as (r & t1 & Hfind & Hr).
  destruct r as [p|]; [|by destruct (Hr _ _ Hrel)].
  destruct (Hr (wellFormed_assoc _ _ _ Hwf Ha)) as (found & data & -> & Hl & Hlf).
  assert (lookup fs1 (outDir runId ++ found) = Some (File data)) as Hp.
  { cbn [outDir app lookup]. rewrite Ha. exact Hl. }
  destruct (generateWithManim_close D code runId cmd output effect (Some 0) fs)
    as (t0 & _ & ->). fold fs1.
  destruct (onClose_found D runId (stderrOf output) fs1 items _ data t1
              Hfinal Hdir Hfind Hp) as (t & -> & Hgone).
  exists found, data, (t0 ++ t). cbv zeta.
  split; [exact Hp|]. split; [done|]. split; [done|].
  split; [|split; [done|]].
  - cbn [finalVideoPath lookup].
    rewrite assoc_remove_ne by apply finalName_ne. by rewrite assoc_put.
  - intros k Hk1 Hk2. rewrite assoc_remove_ne by done. by rewrite assoc_put_ne.
Qed.

Lemma X9_rendered_video_is_moved_witness :
  ∃ found data trace,
    lookup [("job1", Dir [("videos", Dir [("GeneratedScene.mp4", File "mp4")])])]
      ("job1" :: found) = Some (File data)
    ∧ generateWithManim dirs0 [] "job1" (Ok "/usr/bin/manim")
        (Runs [] (put "job1" (Dir [("videos", Dir [("GeneratedScene.mp4", File "mp4")])]))
           (Some 0)) []
      = (Resolve "/app/media/videos/job1.mp4", [("job1.mp4", File data)], trace).
Proof.
  destruct (X9_rendered_video_is_moved dirs0 [] "job1" "/usr/bin/manim" []
              (put "job1" (Dir [("videos", Dir [("GeneratedScene.mp4", File "mp4")])]))
              [] ["videos"; "GeneratedScene.mp4"] "mp4")
    as (found & data & trace & H1 & _ & H2 & _); try reflexivity.
  exists found, data, trace. split; [exact H1|exact H2].
Defined.

Lemma firstExisting_some D locations fs :
  (∃ loc, loc ∈ locations ∧ exists_ fs loc = true) →
  ∃ loc0 t0,
    firstExisting D locations fs = (Ok (Some loc0), fs, t0)
    ∧ loc0 ∈ locations ∧ exists_ fs loc0 = true.
Proof.
  induction locations as [|loc rest IH]; intros (l & Hl & He).
  - by apply elem_of_nil in Hl.
  - cbn [firstExisting]. unfold mbind, M_bind, existsSync.
    destruct (exists_ fs loc) eqn:Hloc.
    + eexists loc, _. split; [reflexivity|]. split; [apply list_elem_of_here|done].
    + apply elem_of_cons in Hl as [->|Hl]; [congruence|].
      destruct IH as (loc0 & t0 & -> & Hin & Hex); [by exists l|].
      eexists loc0, _. split; [reflexivity|]. split; [by apply list_elem_of_further|done].
Qed.

Lemma lookup_outDir fs runId items rel :
  lookup fs (outDir runId) = Some (Dir items) →
  lookup fs (runId :: rel) = lookup items rel.
Proof.
  cbn [lookup outDir]. destruct (assoc runId fs) as [[d|sub]|]; try done.
  by intros [= ->].
Qed.

(** X10. After the recursive search of the working directory has found
    nothing, none of the five common locations holds a regular file; if
    one of them exists all the same (as a directory), the call rejects
    with 'Error processing Manim output: ...', the media directory is
    unchanged and the working directory is kept. *)
Theorem X10_common_locations_add_no_video D code runId cmd output effect fs items t :
  let fs1 := treeAtClose D code runId effect fs in
  exists_ fs1 (finalVideoPath runId) = false →
  lookup fs1 (outDir runId) = Some (Dir items) →
  findIn D (outDir runId) (Dir items) = (Ok None, t) →
  (∀ loc data, loc ∈ commonLocations runId → lookup fs1 loc ≠ Some (File data))
  ∧ ((∃ loc, loc ∈ commonLocations runId ∧ exists_ fs1 loc = true) →
     ∃ msg trace,
       generateWithManim D code runId (Ok cmd) (Runs output effect (Some 0)) fs
       = (Reject ("Error processing Manim output: " +:+ msg), fs1, trace)
       ∧ exists_ fs1 (outDir runId) = true).
Proof.
  intros fs1 Hfinal Hdir Hfind.
  destruct (findIn_spec D (Dir items) (outDir runId) items eq_refl)
    as (r & t1 & Hfind' & Hr).
  rewrite Hfind in Hfind'. injection Hfind' as <- <-. cbn [finds] in Hr.
  assert (∀ loc data, loc ∈ commonLocations runId → lookup fs1 loc ≠ Some (File data))
    as Hnofile.
  { intros loc data Hloc Hl. unfold commonLocations in Hloc.
    repeat (apply elem_of_cons in Hloc as [->|Hloc]);
      try (by apply elem_of_nil in Hloc);
      rewrite (lookup_outDir _ _ items) in Hl by done;
      by apply (Hr _ _ Hl). }
  split; [exact Hnofile|].
  intros Hsome.
  destruct (firstExisting_some D _ fs1 Hsome) as (loc0 & t0 & Hfirst & Hin & Hex).
  assert (∃ sub, lookup fs1 loc0 = Some (Dir sub)) as [sub Hsub].
  { unfold exists_ in Hex. destruct (lookup fs1 loc0) as [[data|sub]|] eqn:Hl; try done.
    - by destruct (Hnofile loc0 data Hin).
    - by exists sub. }
  destruct (generateWithManim_close D code runId cmd output effect (Some 0) fs)
    as (tp & _ & ->). fold fs1.
  cbv beta iota zeta delta
    [onClose processOutput mbind M_bind existsSync logFn emit
     findManimVideo copyFileSync rmSync mret M_ret].
  rewrite Hfinal, Hdir, Hfind, Hfirst, Hex, Hsub.
  cbv beta iota zeta. eexists _, _. split; [reflexivity|].
  unfold exists_. by rewrite Hdir.
Qed.

Lemma X10_common_locations_add_no_video_witness :
  let tree := [("job1", Dir [("GeneratedScene.mp4", Dir [])])] in
  treeAtClose dirs0 [] "job1" (λ _, tree) [] = tree
  ∧ fst (findIn dirs0 (outDir "job1") (Dir [("GeneratedScene.mp4", Dir [])])) = Ok None
  ∧ exists_ tree ["job1"; "GeneratedScene.mp4"] = true
  ∧ ∃ msg trace,
      generateWithManim dirs0 [] "job1" (Ok "/usr/bin/manim")
        (Runs [] (λ _, tree) (Some 0)) []
      = (Reject ("Error processing Manim output: " +:+ msg), tree, trace)
      ∧ exists_ tree (outDir "job1") = true.
Proof.
  intros tree. split; [reflexivity|]. split; [reflexivity|]. split; [reflexivity|].
  eapply (X10_common_locations_add_no_video dirs0 [] "job1" "/usr/bin/manim" [] (λ _, tree) []);
    [reflexivity|reflexivity|reflexivity|].
  exists ["job1"; "GeneratedScene.mp4"]. split; [|reflexivity].
  apply list_elem_of_here.
Defined.



(** X12. When the CLI exits with code zero, no video is found below the
    working directory or at a common location, partial files are found
    and a regular file GeneratedScene.mp4 lies directly in the media
    directory, generateWithManim resolves with <MEDIA_DIR>/<runId>.mp4:
    that file then holds the content of the file of the media directory,
    which is deleted, and the working directory is gone. *)
Theorem X12_root_video_is_taken D code runId cmd output effect fs items partials t1 t2 data :
  let fs1 := treeAtClose D code runId effect fs in
  exists_ fs1 (finalVideoPath runId) = false →
  lookup fs1 (outDir runId) = Some (Dir items) →
  findIn D (outDir runId) (Dir items) = (Ok None, t1) →
  (∀ loc, loc ∈ commonLocations runId → exists_ fs1 loc = false) →
  partialIn D (outDir runId) (Dir items) = (Ok partials, t2) →
  partials ≠ [] →
  lookup fs1 [rootVideoName] = Some (File data) →
  ∃ trace,
    let fs2 := remove runId
                 (remove rootVideoName (put (finalName runId) (File data) fs1)) in
    generateWithManim D code runId (Ok cmd) (Runs output effect (Some 0)) fs
    = (Resolve (abs D (finalVideoPath runId)), fs2, trace)
    ∧ lookup fs2 (finalVideoPath runId) = Some (File data)
    ∧ exists_ fs2 [rootVideoName] = false
    ∧ exists_ fs2 (outDir runId) = false.
Proof.
  intros fs1 Hfinal Hdir Hfind Hcommon Hpartial Hsome Hroot.
  assert (assoc (finalName runId) fs1 = None) as Hnone.
  { unfold finalVideoPath in Hfinal. rewrite exists_outDir in Hfinal.
    by destruct (assoc (finalName runId) fs1). }
  assert (assoc rootVideoName fs1 = Some (File data)) as Haroot.
  { cbn [lookup] in Hroot. by destruct (assoc rootVideoName fs1) as [[]|]. }
  assert (rootVideoName ≠ finalName runId) as Hne by congruence.
  assert (rootVideoName ≠ runId) as Hne2.
  { intros E. cbn [lookup outDir] in Hdir. rewrite <- E, Haroot in Hdir. done. }
  assert (exists_ fs1 [rootVideoName] = true) as Hex by (unfold exists_; by rewrite Hroot).
  destruct (generateWithManim_close D code runId cmd output effect (Some 0) fs)
    as (t0 & _ & ->). fold fs1.
  cbv beta iota zeta delta
    [onClose processOutput mbind M_bind existsSync logFn emit
     findManimVideo checkForPartialFiles copyFileSync unlinkSync rmSync mret M_ret].
  rewrite Hfinal, Hdir, Hfind, (firstExisting_none D _ fs1 Hcommon), Hdir, Hpartial.
  destruct partials as [|first more]; [done|].
  cbv beta iota zeta delta [length Nat.ltb Nat.leb].
  rewrite Hex, Hroot, Hnone. cbv beta iota zeta.
  rewrite (assoc_put_ne _ _ _ _ Hne), Haroot. cbv beta iota zeta.
  eexists. split; [reflexivity|]. split; [|split].
  - cbn [finalVideoPath lookup].
    rewrite assoc_remove_ne by apply finalName_ne.
    rewrite assoc_remove_ne by congruence. by rewrite assoc_put.
  - rewrite exists_outDir. rewrite assoc_remove_ne by done. by rewrite assoc_remove.
  - apply exists_remove.
Qed.

Lemma X12_root_video_is_taken_witness :
  lookup (treeAtClose dirs0 [] "job1" (put "job1" partial_tree) stray_root)
    [rootVideoName] = Some (File "stray")
  ∧ ∃ trace,
      generateWithManim dirs0 [] "job1" (Ok "/usr/bin/manim") proc_partial stray_root
      = (Resolve "/app/media/videos/job1.mp4", [("job1.mp4", File "stray")], trace).
Proof.
  split; [reflexivity|].
  edestruct (X12_root_video_is_taken dirs0 [] "job1" "/usr/bin/manim"
               [Stderr "Animation 0: 100%|##########| 30/30"]
               (put "job1" partial_tree) stray_root)
    as (trace & H & _); try reflexivity.
  - intros loc Hloc. unfold commonLocations in Hloc.
    repeat (apply elem_of_cons in Hloc as [->|Hloc]); try reflexivity.
    by apply elem_of_nil in Hloc.
  - discriminate.
  - exists trace. exact H.
Defined.

Lemma findManimVideo_reads D dir fs : snd (fst (findManimVideo D dir fs)) = fs.
Proof.
  unfold findManimVideo. destruct (lookup fs dir); [|done]. by destruct (findIn D dir n).
Qed.

Lemma checkForPartialFiles_reads D dir fs :
  snd (fst (checkForPartialFiles D dir fs)) = fs.
Proof.
  unfold checkForPartialFiles. destruct (lookup fs dir); [|done].
  by destruct (partialIn D dir n).
Qed.

Lemma firstExisting_reads D locations fs :
  ∃ r t, firstExisting D locations fs = (Ok r, fs, t).
Proof.
  induction locations as [|loc rest IH]; [by eexists _, _|].
  cbn [firstExisting]. unfold mbind, M_bind, existsSync.
  destruct (exists_ fs loc); [by eexists _, _|].
  destruct IH as (r & t & ->). by eexists _, _.
Qed.

Lemma exists_final_kept runId fs :
  exists_ fs (finalVideoPath runId) = true →
  exists_ (remove runId fs) (finalVideoPath runId) = true.
Proof.
  unfold finalVideoPath. rewrite !exists_outDir.
  by rewrite assoc_remove_ne by apply finalName_ne.
Qed.

Lemma exists_put name n fs : exists_ (put name n fs) [name] = true.
Proof. rewrite exists_outDir. by rewrite assoc_put. Qed.

(** Reading a sequence of calls backwards from its result. *)
Lemma bind_Ok {A B} (m : M A) (f : A → M B) fs r fs' t :
  (m ≫= f) fs = (Ok r, fs', t) →
  ∃ a fs1 t1 t2, m fs = (Ok a, fs1, t1) ∧ f a fs1 = (Ok r, fs', t2) ∧ t = t1 ++ t2.
Proof.
  unfold mbind, M_bind. destruct (m fs) as [[[a|msg] fs1] t1]; [|done].
  destruct (f a fs1) as [[r2 fs2] t2] eqn:Hf. intros [= -> -> <-].
  by exists a, fs1, t1, t2.
Qed.

Lemma existsSync_Ok p fs b fs1 t :
  existsSync p fs = (Ok b, fs1, t) → b = exists_ fs p ∧ fs1 = fs.
Proof. unfold existsSync. by intros [= <- <- _]. Qed.

Lemma logFn_Ok msg fs u fs1 t : logFn msg fs = (Ok u, fs1, t) → fs1 = fs.
Proof. unfold logFn, emit. by intros [= _ <- _]. Qed.

Lemma mret_Ok {A} (a b : A) fs fs1 t :
  @mret M _ A a fs = (Ok b, fs1, t) → b = a ∧ fs1 = fs.
Proof. unfold mret, M_ret. by intros [= <- <- _]. Qed.

Lemma rmSync_Ok name fs u fs1 t :
  rmSync name fs = (Ok u, fs1, t) → fs1 = remove name fs.
Proof. unfold rmSync. by intros [= _ <- _]. Qed.

Lemma copyFileSync_Ok D src name fs u fs1 t :
  copyFileSync D src name fs = (Ok u, fs1, t) →
  ∃ data, lookup fs src = Some (File data) ∧ fs1 = put name (File data) fs.
Proof.
  unfold copyFileSync. destruct (lookup fs src) as [[data|sub]|]; [|done|done].
  destruct (assoc name fs) as [[d|sub]|]; [| done |]; intros [= _ <- _]; by exists data.
Qed.

Lemma unlinkSync_Ok D name fs u fs1 t :
  unlinkSync D name fs = (Ok u, fs1, t) → fs1 = remove name fs.
Proof.
  unfold unlinkSync. destruct (assoc name fs) as [[d|sub]|]; [|done|done].
  by intros [= _ <- _].
Qed.

Lemma findManimVideo_Ok D dir fs r fs1 t :
  findManimVideo D dir fs = (r, fs1, t) → fs1 = fs.
Proof. intros H. pose proof (findManimVideo_reads D dir fs) as E. by rewrite H in E. Qed.

Lemma checkForPartialFiles_Ok D dir fs r fs1 t :
  checkForPartialFiles D dir fs = (r, fs1, t) → fs1 = fs.
Proof.
  intros H. pose proof (checkForPartialFiles_reads D dir fs) as E. by rewrite H in E.
Qed.

Lemma firstExisting_Ok D locations fs r fs1 t :
  firstExisting D locations fs = (r, fs1, t) → fs1 = fs.
Proof. destruct (firstExisting_reads D locations fs) as (r' & t' & ->). by intros [= _ <- _]. Qed.

(** One call of a sequence read backwards; a call that only logs or
    reads leaves the tree as it was. *)
Ltac unbind H a Ha :=
  let fsn := fresh "fs" in let t1 := fresh "t" in let t2 := fresh "t" in
  let Ht := fresh "Ht" in
  apply bind_Ok in H as (a & fsn & ? & ? & Ha & H & Ht);
  try first
    [ apply existsSync_Ok in Ha as [-> ->]
    | apply logFn_Ok in Ha as ->
    | apply rmSync_Ok in Ha as ->
    | apply unlinkSync_Ok in Ha as ->
    | apply findManimVideo_Ok in Ha as ->
    | apply checkForPartialFiles_Ok in Ha as ->
    | apply firstExisting_Ok in Ha as -> ].

(** Whenever the handler of [close] resolves, it is with the canonical
    path, which then exists, and the working directory is gone. *)
Lemma processOutput_resolves D runId fs v fs' t :
  processOutput D runId fs = (Ok (Resolve v), fs', t) →
  v = abs D (finalVideoPath runId)
  ∧ exists_ fs' (finalVideoPath runId) = true
  ∧ exists_ fs' (outDir runId) = false.
Proof.
  unfold processOutput. intros H. unbind H found0 Hfound0.
  destruct (exists_ fs (finalVideoPath runId)) eqn:Hfinal.
  - unbind H u1 Hlog. unbind H present Hpresent.
    apply bind_Ok in H as (u2 & fs2 & ? & ? & Hrm & H & _).
    apply mret_Ok in H as [[= ->] ->].
    split; [done|].
    destruct (exists_ fs (outDir runId)) eqn:Hout.
    + apply rmSync_Ok in Hrm as ->.
      split; [by apply exists_final_kept|apply exists_remove].
    + by apply mret_Ok in Hrm as [_ ->].
  - unbind H u1 Hlog. unbind H nested Hnested.
    apply bind_Ok in H as (mv & fs2 & ? & ? & Hmv & H & _).
    assert (fs2 = fs) as ->.
    { destruct nested; [by apply mret_Ok in Hmv as [_ ->]|
                        by apply firstExisting_Ok in Hmv]. }
    apply bind_Ok in H as (usable & fs3 & ? & ? & Husable & H & _).
    assert (fs3 = fs) as ->.
    { destruct mv as [p|].
      - unbind Husable there Hthere. by apply mret_Ok in Husable as [_ ->].
      - by apply mret_Ok in Husable as [_ ->]. }
    destruct usable as [p|].
    + apply bind_Ok in H as (u2 & fs4 & ? & ? & Hcopy & H & _).
      unbind H u3 Hrm. unbind H u4 Hlog2. apply mret_Ok in H as [[= ->] ->].
      apply copyFileSync_Ok in Hcopy as (data & Hsrc & ->).
      split; [done|]. split; [|apply exists_remove].
      apply exists_final_kept. apply exists_put.
    + unbind H partialFiles Hpartial. destruct (0 <? length partialFiles)%nat.
      * unbind H u2 Hlog2. unbind H u3 Hlog3. unbind H inRoot HinRoot.
        destruct (exists_ fs [rootVideoName]) eqn:Hroot.
        -- unbind H u4 Hlog4.
           apply bind_Ok in H as (u5 & fs4 & ? & ? & Hcopy & H & _).
           unbind H u6 Hunlink. unbind H u7 Hrm. unbind H u8 Hlog5.
           apply mret_Ok in H as [[= ->] ->].
           apply copyFileSync_Ok in Hcopy as (data & Hsrc & ->).
           split; [done|]. split; [|apply exists_remove].
           apply exists_final_kept. unfold finalVideoPath.
           rewrite exists_outDir. rewrite assoc_remove_ne.
           ++ by rewrite assoc_put.
           ++ intros E. unfold finalVideoPath in Hfinal. rewrite E in Hfinal. congruence.
        -- unbind H u4 Hrm. by apply mret_Ok in H as [[=] _].
      * unbind H u2 Hlog2.
        apply bind_Ok in H as (u3 & fs4 & ? & ? & Htry & H & _).
        by apply mret_Ok in H as [[=] _].
Qed.

Lemma generateWithManim_resolves D code runId manimCmd p fs v fs' trace :
  generateWithManim D code runId manimCmd p fs = (Resolve v, fs', trace) →
  v = abs D (finalVideoPath runId)
  ∧ exists_ fs' (finalVideoPath runId) = true
  ∧ exists_ fs' (outDir runId) = false.
Proof.
  destruct (prepare_spec D code runId fs) as (fs1 & t & Hprep & _ & _).
  unfold generateWithManim. rewrite Hprep.
  destruct manimCmd as [cmd|msg]; [|done].
  destruct p as [msg|output effect exitCode]; [done|].
  destruct (onClose D runId exitCode (stderrOf output) (effect fs1))
    as [[settled fs2] t3] eqn:Hclose.
  intros [= -> -> _].
  destruct (decide (exitCode = Some 0)) as [->|Hcode].
  - unfold onClose in Hclose.
    destruct ((logFn "Manim rendering completed successfully";;
               processOutput D runId) (effect fs1)) as [[[settled|msg] fs3] t4] eqn:Hp;
      [|done].
    injection Hclose as -> -> _. unbind Hp u Hlog.
    by apply processOutput_resolves in Hp.
  - destruct (onClose_nonzero D runId exitCode (stderrOf output) (effect fs1) Hcode)
      as (fs3 & t4 & Hc & _). congruence.
Qed.

End ManimMore.

Section WalkFacts.
Import JsString Manim MediaTree Scenarios.

(** X7. findManimVideo on an existing directory (whose listings hold
    every name once) does not throw and does not change the files; it
    returns null exactly when no regular file named GeneratedScene.mp4
    lies below the directory at any depth, and otherwise the path of
    such a file. *)
Theorem X7_findManimVideo_complete D dir fs items :
  lookup fs dir = Some (Dir items) → wellFormed (Dir items) = true →
  ∃ r trace,
    findManimVideo D dir fs = (Ok r, fs, trace)
    ∧ (∀ p, r = Some p →
         ∃ rel data, p = dir ++ rel ∧ lookup items rel = Some (File data)
                     ∧ last rel = Some "GeneratedScene.mp4")
    ∧ (r = None ↔
       ∀ rel data, lookup items rel = Some (File data) →
                   last rel ≠ Some "GeneratedScene.mp4").
Proof.
  intros Hdir Hwf. unfold findManimVideo. rewrite Hdir.
  destruct (findIn_spec D (Dir items) dir items eq_refl) as (r & t & -> & Hr).
  exists r, t. split; [done|]. destruct r as [p|]; cbn [finds] in Hr.
  - destruct (Hr Hwf) as (rel & data & -> & Hl & Hlast). split.
    + intros p' [= <-]. by exists rel, data.
    + split; [done|]. intros Hnone. by destruct (Hnone rel data Hl).
  - split; [done|]. split; [by intros _|done].
Qed.

Lemma X7_findManimVideo_complete_witness :
  ∃ trace,
    findManimVideo dirs0 ["job1"] [("job1", partial_tree)]
    = (Ok None, [("job1", partial_tree)], trace).
Proof.
  destruct (X7_findManimVideo_complete dirs0 ["job1"] [("job1", partial_tree)]
              [("videos",
                Dir [("partial_movie_files", Dir [("uncached_00000.mp4", File "part")])])])
    as (r & trace & H & _); [reflexivity..|].
  exists trace. rewrite H. destruct r as [p|]; [discriminate H|done].
Defined.

(** X8. checkForPartialFiles on an existing directory (whose listings
    hold every name once) does not throw and does not change the files;
    the paths it returns are exactly those of the regular files below
    the directory, at any depth, whose name contains 'uncached_' or
    'partial'. *)
Theorem X8_checkForPartialFiles_complete D dir fs items :
  lookup fs dir = Some (Dir items) → wellFormed (Dir items) = true →
  ∃ ps trace,
    checkForPartialFiles D dir fs = (Ok ps, fs, trace)
    ∧ ∀ p, p ∈ ps ↔
        ∃ rel data name,
          p = dir ++ rel ∧ lookup items rel = Some (File data)
          ∧ last rel = Some name ∧ isPartialName name = true.
Proof.
  intros Hdir Hwf. unfold checkForPartialFiles. rewrite Hdir.
  destruct (partialIn_spec D (Dir items) dir items eq_refl) as (ps & t & -> & Hall & Honly).
  exists ps, t. split; [done|]. intros p. split.
  - by apply Honly.
  - intros (rel & data & name & -> & Hl & Hlast & Hname). by eapply Hall.
Qed.

Lemma X8_checkForPartialFiles_complete_witness :
  ∃ ps trace,
    checkForPartialFiles dirs0 ["job1"] [("job1", partial_tree)]
    = (Ok ps, [("job1", partial_tree)], trace)
    ∧ ["job1"; "videos"; "partial_movie_files"; "uncached_00000.mp4"] ∈ ps.
Proof.
  destruct (X8_checkForPartialFiles_complete dirs0 ["job1"] [("job1", partial_tree)]
              [("videos",
                Dir [("partial_movie_files", Dir [("uncached_00000.mp4", File "part")])])])
    as (ps & trace & H & Hps); [reflexivity..|].
  exists ps, trace. split; [exact H|]. apply Hps.
  exists ["videos"; "partial_movie_files"; "uncached_00000.mp4"], "part", "uncached_00000.mp4".
  repeat split; reflexivity.
Defined.

End WalkFacts.

(** ** The p5 renderer: the browser, the encoder and the frames *)

Section P5More.
Import JsString P5 Scenarios.

(** The loop only takes screenshots, calls draw and logs. *)
Lemma captureFrames_only B framesDir totalFrames n :
  ∀ i, Z.to_nat (Qceiling totalFrames - i) = n →
    ∀ e, e ∈ snd (captureFrames B framesDir totalFrames i) →
      (∃ p, e = Screenshot p) ∨ e = EvaluateDraw ∨ (∃ f q, e = LogCaptured f q).
Proof.
  induction n as [|n IH]; intros i Hn e; rewrite captureFrames_equation_1;
    unfold captureFrames_unfold_clause_1;
    destruct (Qlt_le_dec (inject_Z i) totalFrames) as [Hlt|Hge];
    try (cbn [snd]; intros He; by apply elem_of_nil in He).
  - apply lt_ceiling in Hlt. lia.
  - apply lt_ceiling in Hlt.
    destruct (screenshot B i) as [msg|].
    { cbn [snd]. intros He. apply list_elem_of_singleton in He as ->. eauto. }
    destruct (evaluateDraw B i) as [msg|].
    { cbn [snd]. intros He.
      repeat (apply elem_of_cons in He as [->|He]); eauto.
      by apply elem_of_nil in He. }
    specialize (IH (i + 1) ltac:(lia)).
    destruct (captureFrames B framesDir totalFrames (i + 1)) as [r t].
    cbn [fst snd] in *. intros He.
    repeat (apply elem_of_cons in He as [->|He]); eauto 6.
Qed.

Lemma captureFrames_events B framesDir totalFrames e :
  e ∈ snd (captureFrames B framesDir totalFrames 0) →
  (∃ p, e = Screenshot p) ∨ e = EvaluateDraw ∨ (∃ f q, e = LogCaptured f q).
Proof. by apply (captureFrames_only B framesDir totalFrames _ 0 eq_refl). Qed.

Lemma awaitAll_events calls e :
  e ∈ snd (awaitAll calls) → e ∈ map fst calls.
Proof.
  induction calls as [|[e' [msg|]] calls IH]; cbn [awaitAll snd map fst].
  - done.
  - intros He. apply list_elem_of_singleton in He as ->. apply list_elem_of_here.
  - destruct (awaitAll calls) as [r t]. cbn [snd] in *.
    intros [->|He]%elem_of_cons; [apply list_elem_of_here|].
    apply list_elem_of_further. by apply IH.
Qed.

Ltac mem H :=
  repeat first
    [ apply elem_of_app in H as [H|H]
    | apply elem_of_cons in H as [H|H]
    | apply elem_of_nil in H; destruct H
    | apply list_elem_of_fmap in H as (? & H & ?)
    | apply captureFrames_events in H as [(? & H)|[H|(? & ? & H)]] ];
  try discriminate.

Ltac find_mem :=
  first
    [ apply list_elem_of_here
    | apply list_elem_of_further; find_mem
    | apply elem_of_app; left; find_mem
    | apply elem_of_app; right; find_mem ].

(** X14. generateWithP5 removes the frames directory exactly when it
    resolves; it then resolves with <MEDIA_DIR>/<runId>/animation.mp4,
    the encoder has closed with code 0 and the removal is its last
    action; once the encoder has been started, any other way of closing
    rejects with 'ffmpeg error' (and the frames stay). *)
Theorem X14_p5_frames_removed_on_success_only D B E chromePath runId durationSecs :
  let r := generateWithP5 D B E chromePath runId durationSecs in
  ((∃ dir, RmFrames dir ∈ snd r) ↔ ∃ v, fst r = Resolve v)
  ∧ (∀ v, fst r = Resolve v →
       v = (MEDIA_DIR D +:+ "/" +:+ runId) +:+ "/animation.mp4"
       ∧ ffExit E = Some 0
       ∧ last (snd r) = Some (RmFrames (framesDirOf D runId)))
  ∧ ((∃ cmd args, SpawnFfmpeg cmd args ∈ snd r) → ffExit E ≠ Some 0 →
       fst r = Reject "ffmpeg error").
Proof.
  unfold generateWithP5, framesDirOf.
  set (total := (default 4%Q durationSecs * frameRateValue)%Q).
  set (framesDir := (MEDIA_DIR D +:+ "/" +:+ runId) +:+ "/frames").
  destruct chromePath as [chromePath|msg].
  2:{ cbn [fst snd]. split; [split|split].
      - intros [dir H]. mem H.
      - intros [v [=]].
      - intros v [=].
      - intros (cmd & args & H). mem H. }
  match goal with
  | |- context [awaitAll ?c] => pose proof (awaitAll_events c) as Ht2; revert Ht2
  end.
  destruct (awaitAll _) as [[msg|] t2]; cbn [snd map fst]; intros Ht2.
  { cbn [fst snd]. split; [split|split].
    - intros [dir H]. mem H. apply Ht2 in H. mem H.
    - intros [v [=]].
    - intros v [=].
    - intros (cmd & args & H). mem H. apply Ht2 in H. mem H. }
  destruct (captureFrames B framesDir total 0) as [[u|msg] t3] eqn:Hcap.
  2:{ cbn [fst snd]. split; [split|split].
      - intros [dir H]. mem H. + apply Ht2 in H. mem H.
        + assert (RmFrames dir ∈ snd (captureFrames B framesDir total 0)) as H'
            by (by rewrite Hcap). mem H'.
      - intros [v [=]].
      - intros v [=].
      - intros (cmd & args & H). mem H. + apply Ht2 in H. mem H.
        + assert (SpawnFfmpeg cmd args ∈ snd (captureFrames B framesDir total 0)) as H'
            by (by rewrite Hcap). mem H'. }
  assert (∀ e, e ∈ t3 →
            (∃ p, e = Screenshot p) ∨ e = EvaluateDraw ∨ (∃ f q, e = LogCaptured f q))
    as Ht3.
  { intros e He. apply captureFrames_events with B framesDir total. by rewrite Hcap. }
  destruct (close B) as [msg|].
  { cbn [fst snd]. split; [split|split].
    - intros [dir H]. mem H. + apply Ht2 in H. mem H.
      + apply Ht3 in H as [(? & H)|[H|(? & ? & H)]]; discriminate.
    - intros [v [=]].
    - intros v [=].
    - intros (cmd & args & H). mem H. + apply Ht2 in H. mem H.
      + apply Ht3 in H as [(? & H)|[H|(? & ? & H)]]; discriminate. }
  destruct (decide (ffExit E = Some 0)) as [Hexit|Hexit].
  - rewrite Hexit. cbn [fst snd]. split; [split|split].
    + intros _. by eexists.
    + intros _. exists framesDir. find_mem.
    + intros v [= <-]. split; [done|]. split; [done|].
      rewrite app_assoc. replace ([Log "Video encoding complete"; RmFrames framesDir])
        with ([Log "Video encoding complete"] ++ [RmFrames framesDir]) by done.
      rewrite app_assoc. apply last_snoc.
    + intros _ Hne. done.
  - assert (∀ (ok : outcome * list event) t,
              match ffExit E with
              | Some 0 => ok
              | _ => (Reject "ffmpeg error", t)
              end = (Reject "ffmpeg error", t)) as Hrej.
    { intros ok t. destruct (ffExit E) as [[|?|?]|]; done. }
    rewrite Hrej. cbn [fst snd]. split; [split|split].
    + intros [dir H]. mem H. * apply Ht2 in H. mem H.
      * apply Ht3 in H as [(? & H)|[H|(? & ? & H)]]; discriminate.
    + intros [v [=]].
    + intros v [=].
    + done.
Qed.

(** X15. generateWithP5 launches the browser whenever Chrome was
    detected, and calls browser.close() exactly when launch, newPage,
    goto, waitForFunction and every screenshot and draw() of the capture
    loop succeeded, so a failure of any of them leaves the browser open;
    the encoder is started only if the browser has been closed without
    error. *)
Theorem X15_p5_browser_closed_only_after_capture D B E chromePath runId durationSecs :
  let r := generateWithP5 D B E (Ok chromePath) runId durationSecs in
  let totalFrames := (default 4%Q durationSecs * frameRateValue)%Q in
  Launch chromePath ∈ snd r
  ∧ (CloseBrowser ∈ snd r ↔
       launch B = None ∧ newPage B = None ∧ goto B = None
       ∧ waitForFunction B = None
       ∧ fst (captureFrames B (framesDirOf D runId) totalFrames 0) = Ok tt)
  ∧ ((∃ cmd args, SpawnFfmpeg cmd args ∈ snd r) →
       CloseBrowser ∈ snd r ∧ close B = None).
Proof.
  unfold generateWithP5, framesDirOf.
  set (total := (default 4%Q durationSecs * frameRateValue)%Q).
  set (framesDir := (MEDIA_DIR D +:+ "/" +:+ runId) +:+ "/frames").
  cbv zeta. cbn [awaitAll].
  assert (∀ t, Launch chromePath
               ∈ [EnsureDir (SCRIPTS_DIR D); EnsureDir (MEDIA_DIR D);
                  EnsureDir (MEDIA_DIR D +:+ "/" +:+ runId);
                  WriteFile (SCRIPTS_DIR D +:+ "/" +:+ runId +:+ ".js");
                  WriteFile (SCRIPTS_DIR D +:+ "/" +:+ runId +:+ ".html")]
                 ++ [Log ("Found Chrome at " +:+ chromePath)]
                 ++ Launch chromePath :: t) as Hlaunch.
  { intros t. find_mem. }
  destruct (launch B) as [msg|].
  { cbn [fst snd]. split; [apply Hlaunch|]. split; [split|].
    - intros H. mem H.
    - intros (? & _); done.
    - intros (cmd & args & H). mem H. }
  destruct (newPage B) as [msg|].
  { cbn [fst snd]. split; [apply Hlaunch|]. split; [split|].
    - intros H. mem H.
    - intros (_ & ? & _); done.
    - intros (cmd & args & H). mem H. }
  destruct (goto B) as [msg|].
  { cbn [fst snd]. split; [apply Hlaunch|]. split; [split|].
    - intros H. mem H.
    - intros (_ & _ & ? & _); done.
    - intros (cmd & args & H). mem H. }
  destruct (waitForFunction B) as [msg|].
  { cbn [fst snd]. split; [apply Hlaunch|]. split; [split|].
    - intros H. mem H.
    - intros (_ & _ & _ & ? & _); done.
    - intros (cmd & args & H). mem H. }
  destruct (captureFrames B framesDir total 0) as [[u|msg] t3] eqn:Hcap.
  2:{ cbn [fst snd]. split; [apply Hlaunch|]. split; [split|].
      - intros H. mem H.
        assert (CloseBrowser ∈ snd (captureFrames B framesDir total 0)) as H'
          by (by rewrite Hcap). mem H'.
      - intros (_ & _ & _ & _ & ?); done.
      - intros (cmd & args & H). mem H.
        assert (SpawnFfmpeg cmd args ∈ snd (captureFrames B framesDir total 0)) as H'
          by (by rewrite Hcap). mem H'. }
  assert (∀ t, CloseBrowser
               ∈ ([EnsureDir (SCRIPTS_DIR D); EnsureDir (MEDIA_DIR D);
                   EnsureDir (MEDIA_DIR D +:+ "/" +:+ runId);
                   WriteFile (SCRIPTS_DIR D +:+ "/" +:+ runId +:+ ".js");
                   WriteFile (SCRIPTS_DIR D +:+ "/" +:+ runId +:+ ".html")]
                  ++ [Log ("Found Chrome at " +:+ chromePath)]
                  ++ [Launch chromePath; NewPage;
                      Goto ("file://" +:+ SCRIPTS_DIR D +:+ "/" +:+ runId +:+ ".html");
                      WaitForFunction])
                 ++ [EnsureDir framesDir] ++ t3 ++ [CloseBrowser] ++ t) as Hclose.
  { intros t. find_mem. }
  destruct u.
  destruct (close B) as [msg|].
  { cbn [fst snd]. split; [apply Hlaunch|]. split; [split|].
    - done.
    - intros _. apply (Hclose []).
    - intros (cmd & args & H). mem H.
      assert (SpawnFfmpeg cmd args ∈ snd (captureFrames B framesDir total 0)) as H'
        by (by rewrite Hcap). mem H'. }
  split; [|split; [split|]].
  - destruct (ffExit E) as [[|?|?]|]; cbn [snd]; apply Hlaunch.
  - done.
  - intros _.
    destruct (ffExit E) as [[|?|?]|]; cbn [snd];
      find_mem.
  - intros _. split; [|done].
    destruct (ffExit E) as [[|?|?]|]; cbn [snd];
      find_mem.
Qed.

Lemma captureFrames_none B framesDir totalFrames :
  (totalFrames <= 0)%Q → captureFrames B framesDir totalFrames 0 = (Ok tt, []).
Proof.
  intros H. rewrite captureFrames_equation_1. unfold captureFrames_unfold_clause_1.
  destruct (Qlt_le_dec (inject_Z 0) totalFrames) as [Hlt|Hge]; [|done].
  exfalso. apply (Qlt_irrefl 0). eapply Qlt_le_trans; [exact Hlt|exact H].
Qed.

(** X16. With a duration of zero or less and a browser whose calls
    succeed, generateWithP5 takes no screenshot and still starts the
    encoder on the empty frames directory, with the fixed argument list;
    unless the encoder closes with code 0 the call rejects with 'ffmpeg
    error'. *)
Theorem X16_p5_zero_duration_still_encodes D B E chromePath runId durationSecs :
  (default 4%Q durationSecs <= 0)%Q → cooperative B →
  let r := generateWithP5 D B E (Ok chromePath) runId durationSecs in
  screenshots (snd r) = []
  ∧ SpawnFfmpeg (ffmpegPath D)
      ["-y"; "-framerate"; "30"; "-i"; framesDirOf D runId +:+ "/%04d.png";
       "-c:v"; "libx264"; "-pix_fmt"; "yuv420p";
       (MEDIA_DIR D +:+ "/" +:+ runId) +:+ "/animation.mp4"] ∈ snd r
  ∧ (ffExit E ≠ Some 0 → fst r = Reject "ffmpeg error").
Proof.
  intros Hd (Hl & Hn & Hg & Hw & Hs & Hdraw & Hc).
  unfold generateWithP5, framesDirOf. cbv zeta. cbn [awaitAll].
  rewrite Hl, Hn, Hg, Hw, Hc.
  rewrite captureFrames_none.
  2:{ unfold frameRateValue. replace 0%Q with (0 * 30)%Q by reflexivity.
      apply Qmult_le_compat_r; [exact Hd|done]. }
  assert (∀ l, screenshots (map (λ d, Log ("ffmpeg: " +:+ d)) l) = []) as Hlogs.
  { induction l; [done|]. done. }
  split; [|split].
  - destruct (ffExit E) as [[|?|?]|]; cbn [snd];
      rewrite !screenshots_app, ?Hlogs; reflexivity.
  - destruct (ffExit E) as [[|?|?]|]; cbn [snd];
      find_mem.
  - intros Hne. destruct (ffExit E) as [[|?|?]|]; done.
Qed.

Lemma X16_p5_zero_duration_still_encodes_witness :
  (default 4%Q (Some 0%Q) <= 0)%Q
  ∧ cooperative browser_ok
  ∧ screenshots (snd (generateWithP5 p5dirs0 browser_ok (Encoder [] (Some 1))
                        (Ok "/usr/bin/chromium") "r1" (Some 0%Q))) = []
  ∧ fst (generateWithP5 p5dirs0 browser_ok (Encoder [] (Some 1))
           (Ok "/usr/bin/chromium") "r1" (Some 0%Q)) = Reject "ffmpeg error".
Proof.
  assert (default 4%Q (Some 0%Q) <= 0)%Q as Hd by done.
  assert (cooperative browser_ok) as Hb by (by repeat split).
  split; [exact Hd|]. split; [exact Hb|].
  destruct (X16_p5_zero_duration_still_encodes p5dirs0 browser_ok (Encoder [] (Some 1))
              "/usr/bin/chromium" "r1" (Some 0%Q) Hd Hb) as (H1 & _ & H3).
  split; [exact H1|]. by apply H3.
Defined.

End P5More.

(** ** The job table: renderer calls and job logs *)

Section ServerMore.
Import JsString Codegen Server Examples.

Lemma generateCode_engine P api prompt engine code :
  generateCode P api prompt engine = Ok code → engine = "p5" ∨ engine = "manim".
Proof.
  unfold generateCode.
  destruct (contentsFor P engine prompt) as [contents|] eqn:Hc; [|done].
  intros _. by apply (contentsFor_Some P engine prompt contents).
Qed.

Lemma generateCode_services_engine api prompt engine code :
  generateCode_services api prompt engine = Ok code → engine = "p5" ∨ engine = "manim".
Proof.
  unfold generateCode_services.
  destruct (String.eqb_spec engine "p5"); [by left|].
  destruct (String.eqb_spec engine "manim"); [by right|done].
Qed.

(** What holds at the start and is kept by every step holds after a run. *)
Lemma run_preserves V (I : state → Prop) :
  (∀ st l st1, I st → step V st l = Some st1 → I st1) →
  ∀ ls st st', I st → run V st ls = Some st' → I st'.
Proof.
  intros Hstep. induction ls as [|l ls IH]; intros st st' HI; cbn [run].
  - by intros [= <-].
  - destruct (step V st l) as [st1|] eqn:Hs; [|done].
    apply IH. by apply (Hstep st l).
Qed.

(** A queued callback holds code that the service returned. *)
Lemma scheduled_generated V ls st r engine code d :
  run V init ls = Some st →
  tasks st !! r = Some (Scheduled engine code d) →
  ∃ prompt response, codegen V prompt engine response = Ok code.
Proof.
  intros Hrun. revert r engine code d.
  apply (run_preserves V
           (λ st, ∀ r engine code d,
              tasks st !! r = Some (Scheduled engine code d) →
              ∃ prompt response, codegen V prompt engine response = Ok code)
           ) with (ls := ls) (st := init); [|intros ? ? ? ?; unfold init; cbn [tasks]; by rewrite lookup_empty|done].
  clear. intros st l st1 HI Hstep r' engine' code' d'.
  destruct l as [r prompt engine d|r resp|r|r msg|r o|r|i|i]; cbn [step] in Hstep.
  - injection Hstep as <-. cbn [tasks].
    destruct (decide (r = r')) as [<-|Hn];
      [by rewrite lookup_insert_eq|rewrite lookup_insert_ne by done; apply HI].
  - destruct (tasks st !! r) as [[p e d| | | |]|] eqn:Hph; try discriminate.
    destruct (codegen V p e resp) as [code|msg] eqn:Hg; injection Hstep as <-;
      cbn [tasks]; (destruct (decide (r = r')) as [<-|Hn];
        [rewrite lookup_insert_eq|rewrite lookup_insert_ne by done; apply HI]).
    + intros [= <- <- <-]. by exists p, resp.
    + done.
  - destruct (tasks st !! r) as [[| e code d | | |]|] eqn:Hph; try discriminate.
    destruct (String.eqb e "p5" || String.eqb e "manim"); injection Hstep as <-;
      cbn [tasks]; (destruct (decide (r = r')) as [<-|Hn];
        [by rewrite lookup_insert_eq|rewrite lookup_insert_ne by done; apply HI]).
  - destruct (tasks st !! r) as [[| | | |]|] eqn:Hph; try discriminate.
    injection Hstep as <-. apply HI.
  - destruct (tasks st !! r) as [[| | | |]|] eqn:Hph; try discriminate.
    injection Hstep as <-. cbn [tasks].
    destruct (decide (r = r')) as [<-|Hn];
      [by rewrite lookup_insert_eq|rewrite lookup_insert_ne by done; apply HI].
  - destruct (jobs st !! r); injection Hstep as <-; apply HI.
  - destruct (clients st !! i) as [c|]; [|discriminate].
    destruct (polling c); [|discriminate].
    destruct (jobs st !! c_runId c); [|discriminate].
    injection Hstep as <-. apply HI.
  - destruct (clients st !! i) as [c|]; [|discriminate].
    injection Hstep as <-. apply HI.
Qed.

(** X17. In index.js (with either codegenService), a render that has
    been scheduled with setImmediate always has engine 'p5' or 'manim'
    and code that generateCode returned for that engine, so the branch
    'Invalid engine during render' is never taken; when the callback
    runs, the job starts rendering and exactly one renderer call with
    that engine, code and runId is made (with the duration only for p5
    in the index.js that passes it). *)
Theorem X17_scheduled_render_has_checked_code P V ls st r engine code d :
  V = index_utils P ∨ V = index_services →
  run V init ls = Some st →
  tasks st !! r = Some (Scheduled engine code d) →
  (engine = "p5" ∨ engine = "manim")
  ∧ (∃ prompt response, codegen V prompt engine response = Ok code)
  ∧ ∃ st1, step V st (RunImmediate r) = Some st1
      ∧ tasks st1 !! r = Some Rendering
      ∧ out st1
        = out st ++ [CallRenderer engine code r
                       (if passesDuration V && String.eqb engine "p5"
                        then d else None)].
Proof.
  intros HV Hrun Hph.
  destruct (scheduled_generated V ls st r engine code d Hrun Hph)
    as (prompt & response & Hgen).
  assert (engine = "p5" ∨ engine = "manim") as Hengine.
  { destruct HV as [-> | ->]; cbn [codegen index_utils index_services] in Hgen.
    - by apply generateCode_engine in Hgen.
    - by apply generateCode_services_engine in Hgen. }
  split; [done|]. split; [by exists prompt, response|].
  cbn [step]. rewrite Hph.
  assert (String.eqb engine "p5" || String.eqb engine "manim" = true) as ->.
  { destruct Hengine as [-> | ->]; reflexivity. }
  eexists. split; [reflexivity|]. cbn [tasks out].
  split; [by rewrite lookup_insert_eq|done].
Qed.

Lemma X17_scheduled_render_has_checked_code_witness :
  run (index_utils Scenarios.prompts0) init run_scheduled = Some state_scheduled
  ∧ tasks state_scheduled !! "r1"
    = Some (Scheduled "p5" Scenarios.sketch_ok (Some 2%Q))
  ∧ ∃ st1,
      step (index_utils Scenarios.prompts0) state_scheduled (RunImmediate "r1")
      = Some st1
      ∧ out st1
        = out state_scheduled
          ++ [CallRenderer "p5" Scenarios.sketch_ok "r1" (Some 2%Q)].
Proof.
  assert (run (index_utils Scenarios.prompts0) init run_scheduled
          = Some state_scheduled) as Hrun by (vm_compute; reflexivity).
  assert (tasks state_scheduled !! "r1"
          = Some (Scheduled "p5" Scenarios.sketch_ok (Some 2%Q))) as Hph
    by (vm_compute; reflexivity).
  split; [exact Hrun|]. split; [exact Hph|].
  destruct (X17_scheduled_render_has_checked_code Scenarios.prompts0 (index_utils Scenarios.prompts0)
              run_scheduled state_scheduled "r1" "p5" Scenarios.sketch_ok (Some 2%Q)
              (or_introl eq_refl) Hrun Hph)
    as (_ & _ & st1 & Hstep & _ & Hout).
  exists st1. split; [exact Hstep|exact Hout].
Defined.

Lemma filter_none {A} (f : A → bool) l : existsb f l = false → List.filter f l = [].
Proof.
  induction l as [|x l IH]; [done|]. cbn [existsb List.filter].
  destruct (f x); [done|]. exact IH.
Qed.

(** X18. In a run of the server in which uuidv4() never repeats an id, a
    renderer is called at most once for a job, and only for a job that
    was posted; such a job is rendering or finished. *)
Theorem X18_renderer_called_at_most_once V ls st r :
  NoDup (posted ls) → run V init ls = Some st →
  (length (List.filter (isCall r) (out st)) ≤ 1)%nat
  ∧ (rendererCalled st r = true →
     r ∈ posted ls
     ∧ (tasks st !! r = Some Rendering ∨ tasks st !! r = Some Finished)).
Proof.
  intros Hnd Hrun.
  destruct (run_invariant V
              (λ st, ∀ r, (length (List.filter (isCall r) (out st)) ≤ 1)%nat))
    with (ls := ls) (st := init) (st' := st) as [Hc HI];
    [|apply consistent_init|intros ?; cbn; lia|by apply freshIds_init|done|].
  { clear. intros st l st1 Hc HI _ Hstep r'.
    destruct l as [r prompt engine d|r resp|r|r msg|r o|r|i|i]; cbn [step] in Hstep.
    - injection Hstep as <-. apply HI.
    - destruct (tasks st !! r) as [[p e d| | | |]|] eqn:Hph; try discriminate.
      destruct (codegen V p e resp) as [code|msg]; injection Hstep as <-; cbn [out];
        rewrite List.filter_app, length_app; cbn [List.filter isCall length];
        specialize (HI r'); lia.
    - destruct (tasks st !! r) as [[| e code d | | |]|] eqn:Hph; try discriminate.
      destruct (String.eqb e "p5" || String.eqb e "manim"); injection Hstep as <-;
        cbn [out]; [|apply HI].
      rewrite List.filter_app, length_app. cbn [List.filter isCall].
      destruct (String.eqb_spec r r') as [<-|Hn]; cbn [length]; [|specialize (HI r'); lia].
      pose proof (not_called st r _ Hc Hph) as Hno. unfold rendererCalled in Hno.
      rewrite filter_none by (by apply Hno). done.
    - destruct (tasks st !! r) as [[| | | |]|] eqn:Hph; try discriminate.
      injection Hstep as <-. apply HI.
    - destruct (tasks st !! r) as [[| | | |]|] eqn:Hph; try discriminate.
      injection Hstep as <-. apply HI.
    - destruct (jobs st !! r); injection Hstep as <-; cbn [out]; [apply HI|].
      rewrite List.filter_app, length_app. cbn [List.filter isCall length].
      specialize (HI r'). lia.
    - destruct (clients st !! i) as [c|]; [|discriminate].
      destruct (polling c); [|discriminate].
      destruct (jobs st !! c_runId c); [|discriminate].
      injection Hstep as <-. apply HI.
    - destruct (clients st !! i) as [c|]; [|discriminate].
      injection Hstep as <-. apply HI. }
  split; [apply HI|]. intros Hcalled.
  pose proof (called_rendering st Hc r Hcalled) as Hph. split; [|done].
  apply (run_jobs V ls init st r Hrun); [apply lookup_empty|].
  destruct (jobs st !! r) as [j|] eqn:Hj; [by eexists|].
  apply (same_ids st Hc) in Hj. destruct Hph; congruence.
Qed.

Lemma X18_renderer_called_at_most_once_witness :
  NoDup (posted Scenarios.run_ok)
  ∧ run (index_utils Scenarios.prompts0) init Scenarios.run_ok = Some Scenarios.state_ok
  ∧ rendererCalled Scenarios.state_ok "r1" = true
  ∧ (length (List.filter (isCall "r1") (out Scenarios.state_ok)) ≤ 1)%nat.
Proof.
  assert (NoDup (posted Scenarios.run_ok)) as Hnd by (simpl; apply NoDup_singleton).
  assert (run (index_utils Scenarios.prompts0) init Scenarios.run_ok
          = Some Scenarios.state_ok) as Hrun by (vm_compute; reflexivity).
  split; [exact Hnd|]. split; [exact Hrun|]. split; [vm_compute; reflexivity|].
  by destruct (X18_renderer_called_at_most_once (index_utils Scenarios.prompts0) Scenarios.run_ok
                 Scenarios.state_ok "r1" Hnd Hrun) as [H _].
Defined.




End ServerMore.

(** ** The paths that the renderers resolve with *)

Section UrlFacts.
Import JsString Server Scenarios.

Lemma split_on_nonempty sep s : split_on sep s ≠ [].
Proof.
  induction s as [|c s IH]; cbn [split_on]; [done|].
  destruct (Ascii.eqb c sep); [done|]. by destruct (split_on sep s).
Qed.

Lemma split_on_app sep s1 s2 :
  split_on sep (s1 +:+ String sep s2) = split_on sep s1 ++ split_on sep s2.
Proof.
  induction s1 as [|c s1 IH].
  - change (EmptyString +:+ String sep s2) with (String sep s2).
    cbn [split_on app]. by rewrite Ascii.eqb_refl.
  - change (String c s1 +:+ String sep s2) with (String c (s1 +:+ String sep s2)).
    cbn [split_on]. destruct (Ascii.eqb c sep); [by rewrite IH|]. rewrite IH.
    pose proof (split_on_nonempty sep s1). by destruct (split_on sep s1).
Qed.

Lemma split_on_none sep s :
  sep ∉ String.list_ascii_of_string s → split_on sep s = [s].
Proof.
  induction s as [|c s IH]; cbn [split_on String.list_ascii_of_string]; [done|].
  intros Hn. apply not_elem_of_cons in Hn as [Hc Hs].
  destruct (Ascii.eqb_spec c sep); [congruence|]. by rewrite IH.
Qed.

(** [path.basename] of a file name joined to a directory. *)
Lemma basename_join dir name :
  name ≠ EmptyString →
  Ascii.ascii_of_N 47 ∉ String.list_ascii_of_string name →
  basename (dir +:+ "/" +:+ name) = name.
Proof.
  intros Hne Hslash. unfold basename.
  change ("/" +:+ name) with (String (Ascii.ascii_of_N 47) name).
  rewrite split_on_app, (split_on_none _ name Hslash), List.filter_app.
  cbn [List.filter]. destruct (String.eqb_spec name EmptyString); [done|].
  cbn [negb]. by rewrite last_snoc.
Qed.

Lemma generateWithP5_path D B E chromePath runId durationSecs v :
  fst (P5.generateWithP5 D B E chromePath runId durationSecs) = Resolve v →
  v = (P5.MEDIA_DIR D +:+ "/" +:+ runId) +:+ "/animation.mp4".
Proof.
  unfold P5.generateWithP5. destruct chromePath as [cp|msg]; [|done].
  destruct (P5.awaitAll _) as [[msg|] t2]; [done|].
  destruct (P5.captureFrames _ _ _ _) as [[u|msg] t3]; [|done].
  destruct (P5.close B); [done|].
  destruct (P5.ffExit E) as [[|?|?]|]; try done. by intros [= <-].
Qed.

(** X20. Whenever generateWithP5 resolves it is with
    <MEDIA_DIR>/<runId>/animation.mp4, and the index.js that derives the
    address from the file name stores the videoPath
    '/videos/animation.mp4' for the job, the same for every p5 job. *)
Theorem X20_p5_jobs_share_one_address P D B E chromePath runId durationSecs v st j :
  fst (P5.generateWithP5 D B E chromePath runId durationSecs) = Resolve v →
  tasks st !! runId = Some Rendering → jobs st !! runId = Some j →
  v = (P5.MEDIA_DIR D +:+ "/" +:+ runId) +:+ "/animation.mp4"
  ∧ ∃ st1,
      step (index_utils P) st (RendererSettles runId (Resolve v)) = Some st1
      ∧ jobs st1 !! runId
        = Some (Job (logs j ++ ["Rendering complete"]) done
                    (Some "/videos/animation.mp4")).
Proof.
  intros Hv Hph Hj. apply generateWithP5_path in Hv as ->. split; [done|].
  cbn [step]. rewrite Hph. eexists. split; [reflexivity|].
  cbn [jobs]. rewrite lookup_alter_eq, Hj. cbn [fmap option_fmap option_map].
  do 3 f_equal. cbn [storedPath index_utils].
  change "/animation.mp4" with ("/" +:+ "animation.mp4").
  rewrite basename_join; [done|done|].
  intros H. cbn [String.list_ascii_of_string] in H.
  repeat (apply elem_of_cons in H as [H|H]; [discriminate|]).
  by apply elem_of_nil in H.
Qed.

Lemma X20_p5_jobs_share_one_address_witness :
  fst (P5.generateWithP5 p5dirs0 browser_ok encoder_ok (Ok "/usr/bin/chromium")
         "r7" (Some 1%Q)) = Resolve "/app/media/videos/r7/animation.mp4"
  ∧ ∃ st1,
      step (index_utils prompts0)
        (State {["r7" := Job [] pending None]} {["r7" := Rendering]} [] [])
        (RendererSettles "r7" (Resolve "/app/media/videos/r7/animation.mp4"))
      = Some st1
      ∧ jobs st1 !! "r7"
        = Some (Job ["Rendering complete"] done (Some "/videos/animation.mp4")).
Proof.
  assert (fst (P5.generateWithP5 p5dirs0 browser_ok encoder_ok (Ok "/usr/bin/chromium")
                 "r7" (Some 1%Q)) = Resolve "/app/media/videos/r7/animation.mp4") as H
    by (vm_compute; reflexivity).
  split; [exact H|].
  assert (tasks (State {["r7" := Job [] pending None]} {["r7" := Rendering]} [] [])
            !! "r7" = Some Rendering) as Hph by (vm_compute; reflexivity).
  assert (jobs (State {["r7" := Job [] pending None]} {["r7" := Rendering]} [] [])
            !! "r7" = Some (Job [] pending None)) as Hj by (vm_compute; reflexivity).
  by destruct (X20_p5_jobs_share_one_address prompts0 p5dirs0 browser_ok encoder_ok
                 (Ok "/usr/bin/chromium") "r7" (Some 1%Q) _ _ _ H Hph Hj)
    as [_ Hstep].
Defined.

Lemma list_ascii_app s1 s2 :
  String.list_ascii_of_string (s1 +:+ s2)
  = String.list_ascii_of_string s1 ++ String.list_ascii_of_string s2.
Proof.
  induction s1 as [|c s1 IH]; [done|].
  change (String c s1 +:+ s2) with (String c (s1 +:+ s2)).
  cbn [String.list_ascii_of_string app]. by rewrite IH.
Qed.

(** X13. Whenever generateWithManim resolves, the value is
    <MEDIA_DIR>/<runId>.mp4, that file exists and the working directory
    of the job does not; for a runId without '/', index.js stores the
    address /videos/<runId>.mp4 for it. *)
Theorem X13_manim_resolves_with_canonical_path P D code runId manimCmd p fs v fs' trace :
  Manim.generateWithManim D code runId manimCmd p fs = (Resolve v, fs', trace) →
  v = Manim.MEDIA_DIR D +:+ "/" +:+ runId +:+ ".mp4"
  ∧ Manim.exists_ fs' (Manim.finalVideoPath runId) = true
  ∧ Manim.exists_ fs' (Manim.outDir runId) = false
  ∧ (Ascii.ascii_of_N 47 ∉ String.list_ascii_of_string runId →
     storedPath (index_utils P) v = "/videos/" +:+ runId +:+ ".mp4").
Proof.
  intros H. apply generateWithManim_resolves in H as (-> & Hfinal & Hgone).
  split; [reflexivity|]. split; [done|]. split; [done|].
  intros Hslash. cbn [storedPath index_utils]. f_equal.
  change (Manim.abs D (Manim.finalVideoPath runId))
    with (Manim.MEDIA_DIR D +:+ "/" +:+ (runId +:+ ".mp4")).
  apply basename_join.
  - intros E. apply (f_equal String.length) in E.
    rewrite length_append in E. cbn in E. lia.
  - rewrite list_ascii_app. intros Hin. apply elem_of_app in Hin as [Hin|Hin]; [done|].
    cbn [String.list_ascii_of_string] in Hin.
    repeat (apply elem_of_cons in Hin as [Hin|Hin]; [discriminate|]).
    by apply elem_of_nil in Hin.
Qed.

Lemma X13_manim_resolves_with_canonical_path_witness :
  ∃ fs' trace,
    Manim.generateWithManim dirs0 [] "job1" (Ok "/usr/bin/manim") proc_again
      already_rendered
    = (Resolve "/app/media/videos/job1.mp4", fs', trace)
    ∧ Manim.exists_ fs' (Manim.finalVideoPath "job1") = true
    ∧ Manim.exists_ fs' (Manim.outDir "job1") = false
    ∧ storedPath (index_utils prompts0) "/app/media/videos/job1.mp4"
      = "/videos/job1.mp4".
Proof.
  eexists _, _. split; [vm_compute; reflexivity|].
  destruct (X13_manim_resolves_with_canonical_path prompts0 dirs0 [] "job1" (Ok "/usr/bin/manim") proc_again
              already_rendered "/app/media/videos/job1.mp4" _ _ eq_refl)
    as (_ & H1 & H2 & H3).
  split; [exact H1|]. split; [exact H2|]. apply H3.
  intros Hin. cbn [String.list_ascii_of_string] in Hin.
  repeat (apply elem_of_cons in Hin as [Hin|Hin]; [discriminate|]).
  by apply elem_of_nil in Hin.
Defined.

End UrlFacts.

(** ** The health report *)

Section HealthFacts.
Import JsString Detect Js HealthCheck Health Examples.

Lemma field_setField_ne k key v fields :
  k ≠ key → field k (setField key v fields) = field k fields.
Proof.
  intros Hne. induction fields as [|[k' old] fields IH]; cbn [setField field].
  - destruct (String.eqb_spec key k); [congruence|done].
  - destruct (String.eqb_spec k' key) as [->|]; cbn [field].
    + destruct (String.eqb_spec key k); [congruence|done].
    + by rewrite IH.
Qed.

Lemma field_assign_none k base more :
  field k more = None → field k (assign base more) = field k base.
Proof.
  unfold assign. revert base.
  induction more as [|[k' v] more IH]; intros base; cbn [fold_left field fst snd]; [done|].
  destruct (String.eqb_spec k' k) as [->|Hne]; [done|].
  intros Hnone. rewrite IH by done. apply field_setField_ne. congruence.
Qed.

(** The two reports are objects that hold one entry for each
    requirement and nothing else. *)
Lemma checkP5Requirements_shape H c :
  ∃ chrome nodeModules c',
    checkP5Requirements H c
    = (Obj [("chrome", Obj chrome); ("nodeModules", Obj nodeModules)], c').
Proof.
  unfold checkP5Requirements.
  destruct (detectChrome H (tools H) (cachedChromePath c)) as [detected cached].
  by eexists _, _, _.
Qed.

Lemma checkManimRequirements_shape H c :
  ∃ manim python latex c',
    checkManimRequirements H c
    = (Obj [("manim", Obj manim); ("python", Obj python); ("latex", Obj latex)], c').
Proof.
  unfold checkManimRequirements.
  destruct (detectManim (tools H) (cachedManimPath c)) as [detected cached].
  by eexists _, _, _, _.
Qed.

Lemma performHealthCheck_shape H engine c :
  ∃ fields,
    fst (performHealthCheck H engine c) = Obj fields
    ∧ field "success" fields = None ∧ field "available" fields = None
    ∧ get (get (Obj fields) "p5") "available" = Undefined
    ∧ get (get (Obj fields) "manim") "available" = Undefined.
Proof.
  unfold performHealthCheck.
  destruct (String.eqb engine "p5" || String.eqb engine "both");
    destruct (String.eqb engine "manim" || String.eqb engine "both").
  - destruct (checkP5Requirements_shape H c) as (chrome & node & c1 & ->).
    destruct (checkManimRequirements_shape H c1) as (manim & python & latex & c2 & ->).
    cbn [fst]. eexists. split; [reflexivity|]. by vm_compute.
  - destruct (checkP5Requirements_shape H c) as (chrome & node & c1 & ->).
    cbn [fst]. eexists. split; [reflexivity|]. by vm_compute.
  - destruct (checkManimRequirements_shape H c) as (manim & python & latex & c2 & ->).
    cbn [fst]. eexists. split; [reflexivity|]. by vm_compute.
  - cbn [fst]. eexists. split; [reflexivity|]. by vm_compute.
Qed.

(** X21. The answer of the 'check-health' handler of api.js always has
    success true and available false, for every engine and every host:
    the report of performHealthCheck has no property 'available' under
    p5 or manim. *)
Theorem X21_check_health_never_available H engine c :
  let answer := fst (checkHealth H engine c) in
  get answer "success" = Bool true ∧ get answer "available" = Bool false.
Proof.
  unfold checkHealth.
  destruct (performHealthCheck_shape H (orBoth engine) c)
    as (fields & Hrep & Hs & Ha & Hp5 & Hmanim).
  destruct (performHealthCheck H (orBoth engine) c) as [report c'].
  cbn [fst] in *. subst report. rewrite Hp5, Hmanim. cbn [or truthy properties].
  assert (∀ available,
            get (Obj (assign [("success", Bool true); ("available", available)] fields))
              "success" = Bool true
            ∧ get (Obj (assign [("success", Bool true); ("available", available)] fields))
                "available" = available) as Hget.
  { intros available. cbn [get]. rewrite !field_assign_none by done. done. }
  destruct engine as [e|]; [|apply Hget].
  destruct (String.eqb e "p5"); [apply Hget|].
  destruct (String.eqb e "manim"); apply Hget.
Qed.

(** X22. For an engine other than 'p5', 'manim' and 'both',
    performHealthCheck runs no check: the report holds the timestamp and
    the engine only and the detectors' caches are untouched; GET
    /api/health answers it with status 200 and success true. *)
Theorem X22_unknown_engine_report H engine c :
  engine ≠ "p5" → engine ≠ "manim" → engine ≠ "both" →
  performHealthCheck H engine c
  = (Obj [("timestamp", Str (now H)); ("engine", Str engine)], c)
  ∧ (engine ≠ EmptyString →
     apiHealth H (Some engine) c
     = (200, Obj [("success", Bool true); ("timestamp", Str (now H));
                  ("engine", Str engine)], c)).
Proof.
  intros H1 H2 H3.
  assert (performHealthCheck H engine c
          = (Obj [("timestamp", Str (now H)); ("engine", Str engine)], c)) as Hrep.
  { unfold performHealthCheck.
    apply String.eqb_neq in H1, H2, H3. rewrite H1, H2, H3. reflexivity. }
  split; [exact Hrep|]. intros Hne. unfold apiHealth. cbn [orBoth].
  apply String.eqb_neq in Hne. rewrite Hne, Hrep. reflexivity.
Qed.

Lemma X22_unknown_engine_report_witness :
  apiHealth host_bare (Some "blender") (Caches None None)
  = (200, Obj [("success", Bool true); ("timestamp", Str "2025-01-01T00:00:00.000Z");
               ("engine", Str "blender")], Caches None None).
Proof.
  by apply (X22_unknown_engine_report host_bare "blender" (Caches None None)).
Defined.

(** X23. In the report of performHealthCheck, p5Readiness.ready is true
    exactly when detectChrome succeeds (1 critical requirement of 2),
    and manimReadiness.ready is true exactly when detectManim succeeds
    and python3 or python is on the PATH (2 critical requirements of 3);
    the Node modules and LaTeX do not count. *)
Theorem X23_readiness_of_report H engine c :
  let report := fst (performHealthCheck H engine c) in
  let found (detected : result string) :=
    match detected with Ok _ => true | Throw _ => false end in
  let python :=
    match which_sync (tools H) "python3", which_sync (tools H) "python" with
    | None, None => false
    | _, _ => true
    end in
  (engine = "p5" ∨ engine = "both" →
   get (get report "p5Readiness") "ready"
   = Bool (found (fst (detectChrome H (tools H) (cachedChromePath c))))
   ∧ get (get report "p5Readiness") "criticalTotal" = Num 1
   ∧ get (get report "p5Readiness") "totalRequirements" = Num 2)
  ∧ (engine = "manim" ∨ engine = "both" →
     get (get report "manimReadiness") "ready"
     = Bool (found (fst (detectManim (tools H) (cachedManimPath c))) && python)
     ∧ get (get report "manimReadiness") "criticalTotal" = Num 2
     ∧ get (get report "manimReadiness") "totalRequirements" = Num 3).
Proof.
  cbv zeta. split.
  - intros He.
    assert (String.eqb engine "p5" || String.eqb engine "both" = true) as Hb
      by (destruct He as [-> | ->]; reflexivity).
    unfold performHealthCheck. rewrite Hb. unfold checkP5Requirements.
    destruct (detectChrome H (tools H) (cachedChromePath c)) as [[p|msg] cc];
      destruct (String.eqb engine "manim" || String.eqb engine "both");
      try (destruct (checkManimRequirements_shape H (Caches cc (cachedManimPath c)))
             as (manim & py & latex & c2 & ->));
      unfold checkNodeModules;
      destruct (requireError H "express"); try destruct (requireError H "which");
      by vm_compute.
  - intros He.
    assert (String.eqb engine "manim" || String.eqb engine "both" = true) as Hb
      by (destruct He as [-> | ->]; reflexivity).
    unfold performHealthCheck. rewrite Hb.
    assert (∀ c0, cachedManimPath c0 = cachedManimPath c →
              ∃ fields c2,
                checkManimRequirements H c0 = (Obj fields, c2)
                ∧ field "manim" [("timestamp", Str (now H)); ("engine", Str engine)]
                  = None
                ∧ let r := calculateReadiness (Obj fields) in
                  get r "ready"
                  = Bool (match fst (detectManim (tools H) (cachedManimPath c)) with
                          | Ok _ => true
                          | Throw _ => false
                          end
                          && match which_sync (tools H) "python3",
                                   which_sync (tools H) "python" with
                             | None, None => false
                             | _, _ => true
                             end)
                  ∧ get r "criticalTotal" = Num 2
                  ∧ get r "totalRequirements" = Num 3) as Hmanim.
    { intros c0 Hc0. unfold checkManimRequirements, checkPython. rewrite Hc0.
      destruct (detectManim (tools H) (cachedManimPath c)) as [[p|msg] cm];
        destruct (which_sync (tools H) "python3");
        destruct (which_sync (tools H) "python");
        destruct (detectTeX (tools H)); destruct (latexPath (tools H));
        eexists _, _; (split; [reflexivity|]); by vm_compute. }
    destruct (String.eqb engine "p5" || String.eqb engine "both").
    + destruct (checkP5Requirements H c) as [p5 c1] eqn:Hp5.
      assert (cachedManimPath c1 = cachedManimPath c) as Hc1.
      { unfold checkP5Requirements in Hp5.
        destruct (detectChrome H (tools H) (cachedChromePath c)).
        by injection Hp5 as _ <-. }
      destruct (checkP5Requirements_shape H c) as (chrome & node & c1' & Hshape).
      rewrite Hp5 in Hshape. injection Hshape as -> _. cbv beta iota.
      destruct (Hmanim c1 Hc1) as (fields & c2 & -> & _ & Hr).
      cbn [fst get field setField from_option id truthy String.eqb Ascii.eqb Bool.eqb].
      exact Hr.
    + cbv beta iota. destruct (Hmanim c eq_refl) as (fields & c2 & -> & _ & Hr).
      cbn [fst get field setField from_option id truthy String.eqb Ascii.eqb Bool.eqb].
      exact Hr.
Qed.

Lemma X23_readiness_of_report_witness :
  get (get (fst (performHealthCheck host_bare "both" (Caches None None)))
         "p5Readiness") "ready" = Bool false
  ∧ get (get (fst (performHealthCheck host_bare "both" (Caches None None)))
           "p5Readiness") "overallScore" = Num 50
  ∧ get (get (fst (performHealthCheck host_bare "both" (Caches None None)))
           "manimReadiness") "overallScore" = Num 0.
Proof.
  split; [|split; vm_compute; reflexivity].
  by destruct (X23_readiness_of_report host_bare "both" (Caches None None)) as [[-> _] _]; [right|].
Defined.

(** The report of the requirement LaTeX. *)
Lemma latex_entry H engine c :
  engine = "manim" ∨ engine = "both" →
  ∃ manim python latex,
    get (fst (performHealthCheck H engine c)) "manim"
    = Obj [("manim", manim); ("python", python); ("latex", latex)]
    ∧ latex = get (fst (checkManimRequirements H c)) "latex".
Proof.
  intros He.
  assert (String.eqb engine "manim" || String.eqb engine "both" = true) as Hb
    by (destruct He as [-> | ->]; reflexivity).
  assert (∀ c0, ∃ manim python c2,
            checkManimRequirements H c0
            = (Obj [("manim", manim); ("python", python);
                    ("latex", get (fst (checkManimRequirements H c)) "latex")], c2))
    as Hshape.
  { intros c0. unfold checkManimRequirements.
    destruct (detectManim (tools H) (cachedManimPath c0)) as [d0 cm0].
    destruct (detectManim (tools H) (cachedManimPath c)) as [d cm].
    by eexists _, _, _. }
  unfold performHealthCheck. rewrite Hb.
  destruct (String.eqb engine "p5" || String.eqb engine "both").
  - destruct (checkP5Requirements_shape H c) as (chrome & node & c1 & ->).
    cbv beta iota. destruct (Hshape c1) as (manim & python & c2 & ->).
    exists manim, python, (get (fst (checkManimRequirements H c)) "latex").
    split; [|done].
    cbn [fst get field setField from_option id truthy String.eqb Ascii.eqb Bool.eqb].
    reflexivity.
  - cbv beta iota. destruct (Hshape c) as (manim & python & c2 & ->).
    exists manim, python, (get (fst (checkManimRequirements H c)) "latex").
    split; [|done].
    cbn [fst get field setField from_option id truthy String.eqb Ascii.eqb Bool.eqb].
    reflexivity.
Qed.

(** X24. In the Manim report, LaTeX is reported missing whenever 'latex'
    is not on the PATH, also when 'pdflatex' is and detectTeX succeeds;
    when 'latex' is found at a non-empty path the entry is available
    with that path. *)
Theorem X24_latex_entry_of_report H engine c :
  engine = "manim" ∨ engine = "both" →
  let latex := get (get (fst (performHealthCheck H engine c)) "manim") "latex" in
  (which_sync (tools H) "latex" = None →
   get latex "available" = Bool false
   ∧ (which_sync (tools H) "pdflatex" ≠ None → detectTeX (tools H) = Ok tt))
  ∧ (∀ p, which_sync (tools H) "latex" = Some p → p ≠ EmptyString →
       get latex "available" = Bool true ∧ get latex "path" = Str p).
Proof.
  intros He. destruct (latex_entry H engine c He) as (manim & python & latex & -> & ->).
  cbv zeta. cbn [get field from_option id String.eqb Ascii.eqb Bool.eqb].
  unfold checkManimRequirements.
  destruct (detectManim (tools H) (cachedManimPath c)) as [d cm]. cbn [fst].
  unfold detectTeX, latexPath. split.
  - intros ->. split.
    + destruct (which_sync (tools H) "pdflatex"); by vm_compute.
    + by destruct (which_sync (tools H) "pdflatex").
  - intros p -> Hne. destruct p as [|a p]; [done|]. by vm_compute.
Qed.

Lemma X24_latex_entry_of_report_witness :
  which_sync (tools host_pdflatex) "latex" = None
  ∧ detectTeX (tools host_pdflatex) = Ok tt
  ∧ get (get (get (fst (performHealthCheck host_pdflatex "manim" (Caches None None)))
                "manim") "latex") "available" = Bool false.
Proof.
  split; [reflexivity|].
  destruct (X24_latex_entry_of_report host_pdflatex "manim" (Caches None None) (or_introl eq_refl))
    as [H _].
  destruct (H eq_refl) as [Ha Ht]. split; [by apply Ht|exact Ha].
Defined.

End HealthFacts.

(** ** The handler of 'generate-video' *)

Section ApiFacts.
Import JsString Js Codegen Api.

Lemma basenameWithout_animation dir :
  basenameWithout (dir +:+ "/animation.mp4") ".mp4" = "animation".
Proof.
  unfold basenameWithout.
  destruct (String.eqb_spec (dir +:+ "/animation.mp4") ".mp4") as [E|_].
  { apply (f_equal String.length) in E. rewrite length_append in E. cbn in E. lia. }
  change "/animation.mp4" with ("/" +:+ "animation.mp4").
  rewrite basename_join; [reflexivity|done|].
  intros H. cbn [String.list_ascii_of_string] in H.
  repeat (apply elem_of_cons in H as [H|H]; [discriminate|]).
  by apply elem_of_nil in H.
Qed.


(** X26. When the 'generate-video' handler returns for engine p5,
    videoPath is 'app-video://animation' and filename is 'animation.mp4'
    whatever the runId, while downloadPath names
    <MEDIA_DIR>/<runId>/animation.mp4. *)
Theorem X26_p5_playback_address_is_constant P api prompt D B E chromePath runId durationSecs
    logs renderManim v :
  fst (generateVideo (generateCode P api prompt "p5") "p5"
         (λ _, (logs, fst (P5.generateWithP5 D B E chromePath runId durationSecs)))
         renderManim) = Ok v →
  get v "videoPath" = Str "app-video://animation"
  ∧ get v "filename" = Str "animation.mp4"
  ∧ get v "downloadPath"
    = Str ("file://" +:+ (P5.MEDIA_DIR D +:+ "/" +:+ runId) +:+ "/animation.mp4").
Proof.
  unfold generateVideo.
  destruct (generateCode P api prompt "p5") as [code|msg]; [|done].
  cbn [String.eqb Ascii.eqb Bool.eqb].
  destruct (fst (P5.generateWithP5 D B E chromePath runId durationSecs))
    as [videoPath|msg] eqn:Hr; [|done].
  apply generateWithP5_path in Hr as ->. cbn [fst]. intros [= <-].
  rewrite basenameWithout_animation. done.
Qed.

Lemma X26_p5_playback_address_is_constant_witness :
  ∃ v,
    fst (generateVideo
           (generateCode Scenarios.prompts0 (λ _ _, Responds (Some Scenarios.sketch_ok))
              "a circle" "p5") "p5"
           (λ _, ([], fst (P5.generateWithP5 Scenarios.p5dirs0 Scenarios.browser_ok
                             Scenarios.encoder_ok (Ok "/usr/bin/chromium") "r7"
                             (Some 1%Q))))
           (λ _, ([], Reject "unused"))) = Ok v
    ∧ get v "videoPath" = Str "app-video://animation".
Proof.
  eexists. split; [vm_compute; reflexivity|].
  by destruct (X26_p5_playback_address_is_constant Scenarios.prompts0
                 (λ _ _, Responds (Some Scenarios.sketch_ok)) "a circle"
                 Scenarios.p5dirs0 Scenarios.browser_ok Scenarios.encoder_ok
                 (Ok "/usr/bin/chromium") "r7" (Some 1%Q) []
                 (λ _, ([], Reject "unused")) _ eq_refl) as [H _].
Defined.

End ApiFacts.

(** ** [dedent] *)

Section DedentFacts.
Import JsString Regex TestManim.

Lemma before_digits (x y : nat) :
  (x < 10)%nat → (y < 10)%nat → before x y = true ↔ (x ≤ y)%nat.
Proof.
  intros Hx Hy.
  do 10 (destruct x as [|x]; [
    do 10 (destruct y as [|y]; [vm_compute; split; (lia || done || discriminate) |]); lia |]).
  lia.
Qed.

Lemma head_insert_sorted x l :
  head (insert_sorted x l)
  = Some match head l with
         | Some y => if before x y then x else y
         | None => x
         end.
Proof. destruct l as [|y l]; [done|]. cbn. by destruct (before x y). Qed.

Lemma head_sort_digits (l : list nat) :
  (∀ x, x ∈ l → (x < 10)%nat) → l ≠ [] →
  ∃ m, head (sort l) = Some m ∧ m ∈ l ∧ ∀ x, x ∈ l → (m ≤ x)%nat.
Proof.
  induction l as [|x l IH]; [done|]. intros Hl _.
  change (sort (x :: l)) with (insert_sorted x (sort l)).
  rewrite head_insert_sorted.
  destruct l as [|y l].
  { exists x. split; [done|]. split; [left|].
    intros z Hz. apply list_elem_of_singleton in Hz. lia. }
  destruct IH as (m & -> & Hm & Hmin); [|done|].
  { intros z Hz. apply Hl. by right. }
  assert (Hx : (x < 10)%nat) by (apply Hl; left).
  assert (Hm10 : (m < 10)%nat) by (apply Hl; by right).
  destruct (before x m) eqn:Hb.
  - apply before_digits in Hb; [|done..]. exists x. split; [done|]. split; [left|].
    intros z Hz. apply elem_of_cons in Hz as [->|Hz]; [lia|].
    specialize (Hmin z Hz). lia.
  - assert (¬ (x ≤ m)%nat) as Hlt.
    { intros Hle. apply before_digits in Hle; [|done..]. congruence. }
    exists m. split; [done|]. split; [by right|].
    intros z Hz. apply elem_of_cons in Hz as [->|Hz]; [lia|]. by apply Hmin.
Qed.

Lemma leadingSpaces_take (l : jsstring) (m : nat) :
  (m ≤ leadingSpaces l)%nat → l = replicate m 32%N ++ drop m l.
Proof.
  revert m. induction l as [|c l IH]; intros m Hm.
  - cbn in Hm. assert (m = 0%nat) as -> by lia. done.
  - destruct m as [|m]; [done|]. cbn in Hm.
    destruct (N.eqb_spec c 32) as [->|Hc]; [|lia].
    cbn. f_equal. apply IH. lia.
Qed.

(** X27. dedent of testManim.js, while every non-blank line is indented
    by fewer than ten spaces: it removes from every line as many
    characters as the least indentation m of the non-blank lines, which
    for a non-blank line are m spaces; without a non-blank line the
    lines are kept. The numbers are sorted as strings: with lines
    indented by 9 and by 10 spaces, 10 characters are removed and the
    line indented by 9 loses its text. *)
Theorem X27_dedent_removes_least_indentation (str : jsstring) :
  let lines := lines_of str in
  ((∀ l, l ∈ lines → notBlank l = true → (leadingSpaces l < 10)%nat) →
   (∃ l, l ∈ lines ∧ notBlank l = true) →
   ∃ m, (∃ l, l ∈ lines ∧ notBlank l = true ∧ leadingSpaces l = m)
        ∧ (∀ l, l ∈ lines → notBlank l = true →
             (m ≤ leadingSpaces l)%nat ∧ l = replicate m 32%N ++ drop m l)
        ∧ dedent str = join_lines (map (drop m) lines))
  ∧ ((∀ l, l ∈ lines → notBlank l = false) → dedent str = join_lines lines)
  ∧ dedent (replicate 9 32%N ++ [97%N; 10%N] ++ replicate 10 32%N ++ [98%N])
    = [10%N; 98%N].
Proof.
  cbv zeta. split; [|split].
  - intros Hlt [l0 [Hl0 Hnb0]].
    set (indents := map leadingSpaces (List.filter notBlank (lines_of str))).
    assert (Hin : ∀ n, n ∈ indents ↔
              ∃ l, l ∈ lines_of str ∧ notBlank l = true ∧ leadingSpaces l = n).
    { intros n. unfold indents. rewrite list_elem_of_fmap. split.
      - intros (l & -> & Hl). apply list_elem_of_In, filter_In in Hl as [Hl Hnb].
        exists l. split; [by apply list_elem_of_In|done].
      - intros (l & Hl & Hnb & <-). exists l. split; [done|].
        apply list_elem_of_In, filter_In. split; [by apply list_elem_of_In|done]. }
    destruct (head_sort_digits indents) as (m & Hhead & Hm & Hmin).
    { intros n Hn. apply Hin in Hn as (l & Hl & Hnb & <-). by apply Hlt. }
    { intros Hnil. assert (leadingSpaces l0 ∈ indents) as Hx by (apply Hin; by exists l0).
      rewrite Hnil in Hx. by apply elem_of_nil in Hx. }
    exists m. split; [by apply Hin|]. split.
    + intros l Hl Hnb. assert (m ≤ leadingSpaces l)%nat as Hle.
      { apply Hmin, Hin. by exists l. }
      split; [done|]. by apply leadingSpaces_take.
    + unfold dedent, indent_of. fold indents. by rewrite Hhead.
  - intros Hblank. unfold dedent, indent_of.
    assert (List.filter notBlank (lines_of str) = []) as ->.
    { induction (lines_of str) as [|l ls IH]; [done|]. cbn [List.filter].
      rewrite (Hblank l) by left. apply IH. intros l' Hl'. apply Hblank. by right. }
    cbn [map sort foldr head slice]. f_equal. apply map_id.
  - vm_compute. reflexivity.
Qed.

Lemma X27_dedent_removes_least_indentation_witness :
  dedent (lit "  a") = [97%N].
Proof.
  destruct (X27_dedent_removes_least_indentation (lit "  a")) as [H _].
  destruct H as (m & (l & Hl & _ & Hm) & _ & ->).
  - intros l Hl _. apply list_elem_of_singleton in Hl as ->. vm_compute. lia.
  - exists (lit "  a"). split; [left|reflexivity].
  - apply list_elem_of_singleton in Hl as ->. subst m. reflexivity.
Defined.

End DedentFacts.
